(** * Catalog consistency and hierarchy engine

    A shallow embedding of the server's controllers and model hooks:

    - [categoryController.js]: [createCategory], [updateCategory],
      [deleteCategory], [getCategoryBySlug], [getCategoryTree] with its
      local [buildTree];
    - [Review.js]: the review schema's validators and unique index, the
      post-save / post-remove hooks and the static [calculateAverageRating];
    - [Product.js]: the product schema's validators and the [finalPrice]
      virtual;
    - [productController.js]: [getProducts] (filter translation and
      pagination), [createProduct], [updateProduct], [deleteProduct] and
      [updateStock].

    Collections are lists of documents in the store's natural order, and an
    Express handler is a function from the store to a response and the store
    it leaves behind.  A string is the sequence of its characters, each with
    a code below 256.  A JavaScript number is a double: a finite one is kept
    as the rational it stands for, and arithmetic rounds to the nearest
    double. *)

From Stdlib Require Import List ZArith QArith Qabs String Ascii Bool Arith Lia Lqa.
From Stdlib Require Import DecimalString Permutation.
Import ListNotations.

Local Close Scope Q_scope.
Local Open Scope string_scope.
Local Open Scope list_scope.

(** ** Documents *)

(** An ObjectId is kept as the string [toString()] yields for it. *)
Definition ObjectId := string.

Record Image := { url : string; public_id : option string }.

(** The Category schema is not among the sources; these are the fields the
    controllers read and write. *)
Module Category.
Record t := {
  _id : ObjectId;
  name : string;
  slug : string;
  description : option string;
  image : option Image;
  parentCategory : option ObjectId;
  isActive : bool
}.
End Category.

(** ** [getCategoryTree]: the tree projection *)

(** The object literal built in [buildTree]'s [map] callback. *)
#[warnings="-register-all"]
Inductive Node := {
  n_id : ObjectId;
  n_name : string;
  n_slug : string;
  n_description : option string;
  n_image : option Image;
  children : list Node
}.

(** The [filter] callback of [buildTree]: with [parentId === null] a category
    passes when its [parentCategory] is falsy (absent); otherwise when it has
    one whose string form equals that of [parentId]. *)
Definition is_child (parentId : option ObjectId) (category : Category.t) : bool :=
  match parentId with
  | None =>
      match Category.parentCategory category with
      | None => true
      | Some _ => false
      end
  | Some p =>
      match Category.parentCategory category with
      | None => false
      | Some q => String.eqb q p
      end
  end.

(** [Array.prototype.map] with a callback that may fail to return. *)
Fixpoint mapM {A B : Type} (f : A -> option B) (l : list A) : option (list B) :=
  match l with
  | [] => Some []
  | x :: l' =>
      match f x with
      | None => None
      | Some y =>
          match mapM f l' with
          | None => None
          | Some ys => Some (y :: ys)
          end
      end
  end.

(** [buildTree(parentId = null)].  The JavaScript function recurses without a
    bound; [fuel] bounds the depth of the recursion and [None] stands for a
    recursion that is still running when the bound is reached. *)
Fixpoint buildTree (fuel : nat) (categories : list Category.t)
    (parentId : option ObjectId) : option (list Node) :=
  match fuel with
  | O => None
  | S fuel' =>
      mapM (fun category =>
              match buildTree fuel' categories (Some (Category._id category)) with
              | None => None
              | Some sub =>
                  Some {| n_id := Category._id category;
                          n_name := Category.name category;
                          n_slug := Category.slug category;
                          n_description := Category.description category;
                          n_image := Category.image category;
                          children := sub |}
              end)
           (filter (is_child parentId) categories)
  end.

(** All nodes of a forest at every depth, in preorder, and their ids. *)
Fixpoint all_nodes (n : Node) : list Node :=
  n :: flat_map all_nodes (children n).

Definition forest_nodes (tree : list Node) : list Node := flat_map all_nodes tree.

Definition tree_ids (tree : list Node) : list ObjectId :=
  map n_id (forest_nodes tree).

(** [descends cs n p i]: the category [i] lies [n] parent references below
    [p] in the collection [cs]; below [None] means below the null parent, so
    [descends cs n None i] says that [i] hangs at depth [n] under a root. *)
Inductive descends (cs : list Category.t) : nat -> option ObjectId -> ObjectId -> Prop :=
| descends_child p c :
    In c cs -> is_child p c = true -> descends cs 1 p (Category._id c)
| descends_step n p c i :
    In c cs -> is_child p c = true ->
    descends cs n (Some (Category._id c)) i -> descends cs (S n) p i.

Definition reachable (cs : list Category.t) (i : ObjectId) : Prop :=
  exists n, descends cs n None i.

(** The node [buildTree] makes of a category, around given children. *)
Definition project (c : Category.t) (sub : list Node) : Node :=
  {| n_id := Category._id c;
     n_name := Category.name c;
     n_slug := Category.slug c;
     n_description := Category.description c;
     n_image := Category.image c;
     children := sub |}.

(** [Category.find({ isActive: true })] followed by [buildTree()], as in
    [getCategoryTree]. *)
Definition find_active (cs : list Category.t) : list Category.t :=
  filter Category.isActive cs.

Definition getCategoryTree (fuel : nat) (stored : list Category.t) : option (list Node) :=
  buildTree fuel (find_active stored) None.

(** The spec's example: A and D are roots, B is under A and C under B. *)
Definition mkCategory (i : ObjectId) (nm : string) (parent : option ObjectId) : Category.t :=
  {| Category._id := i; Category.name := nm; Category.slug := nm;
     Category.description := None; Category.image := None;
     Category.parentCategory := parent; Category.isActive := true |}.

Definition leaf (i nm : string) (sub : list Node) : Node :=
  {| n_id := i; n_name := nm; n_slug := nm; n_description := None;
     n_image := None; children := sub |}.

Definition catA := mkCategory "a1" "A" None.
Definition catB := mkCategory "b2" "B" (Some "a1").
Definition catC := mkCategory "c3" "C" (Some "b2").
Definition catD := mkCategory "d4" "D" None.
Definition example_categories := [catA; catB; catC; catD].

(** Stored data with cycles: [catX] is its own parent, [catY] and [catZ] name
    each other. *)
Definition catX := mkCategory "e5" "X" (Some "e5").
Definition catY := mkCategory "f6" "Y" (Some "07").
Definition catZ := mkCategory "07" "Z" (Some "f6").
Definition cyclic_categories := [catX; catA; catY; catB; catZ].

(** [under_root cs p d]: the argument [p] of a call of [buildTree] sits at
    depth [d]: the initial [null] at depth 0, a category at its depth under
    the roots. *)
Definition under_root (cs : list Category.t) (p : option ObjectId) (d : nat) : Prop :=
  match p with
  | None => d = 0
  | Some q => descends cs d None q
  end.

(** ** JavaScript values *)

(** *** Numbers *)

(** The integer nearest to [n / d] for [d > 0], the even one of two that are
    equally near. *)
Definition round_div (n d : Z) : Z :=
  let k := (n / d)%Z in
  match (2 * (n mod d) ?= d)%Z with
  | Lt => k
  | Gt => (k + 1)%Z
  | Eq => if Z.even k then k else (k + 1)%Z
  end.

(** The binary exponent of [n / d] for [n, d > 0]: the [e] with
    2^e <= n / d < 2^(e+1). *)
Definition exponent (n d : Z) : Z :=
  let e := (Z.log2 n - Z.log2 d)%Z in
  if (if (0 <=? e)%Z then (2 ^ e * d <=? n)%Z else (d <=? 2 ^ (- e) * n)%Z)
  then e else (e - 1)%Z.

(** [n / d] rounded to 53 significant bits, or to a multiple of 2^-1074
    where it is smaller than 2^-1022. *)
Definition round_pos (n d : Z) : Q :=
  let u := Z.max (exponent n d - 52) (-1074) in
  if (0 <=? u)%Z then inject_Z (round_div n (d * 2 ^ u) * 2 ^ u)
  else Qred (round_div (n * 2 ^ (- u)) d # Z.to_pos (2 ^ (- u))).

(** The double nearest to a rational (round to nearest, ties to even), as
    long as that is finite; the result is in lowest terms. *)
Definition round_double (q : Q) : Q :=
  match Qnum (Qred q) with
  | Z0 => 0%Q
  | Zpos n => round_pos (Zpos n) (Zpos (Qden (Qred q)))
  | Zneg n => Qopp (round_pos (Zpos n) (Zpos (Qden (Qred q))))
  end.

(** A Number.  The two zeros are not told apart. *)
Inductive Number :=
| NaN
| Infinity (negative : bool)
| Finite (q : Q).

(** The Number an exact result becomes: beyond the largest double the
    rounding overflows. *)
Definition to_number (q : Q) : Number :=
  let r := round_double q in
  if Qle_bool (inject_Z (2 ^ 1024)) (Qabs r) then Infinity (Qnum r <? 0)%Z
  else Finite r.

Definition of_Z (z : Z) : Number := to_number (inject_Z z).

Definition is_negative (q : Q) : bool := (Qnum q <? 0)%Z.

Definition is_zero (q : Q) : bool := (Qnum q =? 0)%Z.

Definition num_opp (a : Number) : Number :=
  match a with
  | NaN => NaN
  | Infinity s => Infinity (negb s)
  | Finite x => Finite (Qopp x)
  end.

(** [a + b], [a - b], [a * b]. *)
Definition num_add (a b : Number) : Number :=
  match a, b with
  | NaN, _ | _, NaN => NaN
  | Infinity s, Infinity t => if Bool.eqb s t then Infinity s else NaN
  | Infinity s, Finite _ => Infinity s
  | Finite _, Infinity t => Infinity t
  | Finite x, Finite y => to_number (x + y)
  end.

Definition num_sub (a b : Number) : Number := num_add a (num_opp b).

Definition num_mul (a b : Number) : Number :=
  match a, b with
  | NaN, _ | _, NaN => NaN
  | Infinity s, Infinity t => Infinity (xorb s t)
  | Infinity s, Finite y =>
      if is_zero y then NaN else Infinity (xorb s (is_negative y))
  | Finite x, Infinity t =>
      if is_zero x then NaN else Infinity (xorb (is_negative x) t)
  | Finite x, Finite y => to_number (x * y)
  end.

(** [a < b]: false when either is [NaN]. *)
Definition num_ltb (a b : Number) : bool :=
  match a, b with
  | NaN, _ | _, NaN => false
  | Infinity s, Infinity t => s && negb t
  | Infinity s, Finite _ => s
  | Finite _, Infinity t => negb t
  | Finite x, Finite y => negb (Qle_bool y x)
  end.

(** [a <= b]. *)
Definition num_leb (a b : Number) : bool :=
  match a, b with
  | NaN, _ | _, NaN => false
  | Infinity s, Infinity t => s || negb t
  | Infinity s, Finite _ => s
  | Finite _, Infinity t => negb t
  | Finite x, Finite y => Qle_bool x y
  end.

(** [Math.max(0, a)]. *)
Definition max_zero (a : Number) : Number :=
  match a with
  | NaN => NaN
  | Infinity s => if s then Finite 0 else Infinity false
  | Finite x => if Qle_bool x 0 then Finite 0 else Finite x
  end.

(** [if (a)]: [NaN] and 0 are falsy. *)
Definition num_truthy (a : Number) : bool :=
  match a with
  | NaN => false
  | Infinity _ => true
  | Finite x => negb (is_zero x)
  end.

(** The whole number a Number is, if it is one. *)
Definition as_integer (a : Number) : option Z :=
  match a with
  | Finite x => if (Zpos (Qden (Qred x)) =? 1)%Z then Some (Qnum (Qred x)) else None
  | _ => None
  end.

(** *** Strings *)

(** White space as [String.prototype.trim] and [parseInt] know it, among the
    characters below 256: tab to carriage return, space, no-break space. *)
Definition is_space (c : ascii) : bool :=
  let n := nat_of_ascii c in
  (((9 <=? n) && (n <=? 13)) || (n =? 32) || (n =? 160))%nat.

Fixpoint trim_start (s : string) : string :=
  match s with
  | EmptyString => EmptyString
  | String c s' => if is_space c then trim_start s' else s
  end.

Fixpoint string_rev (acc s : string) : string :=
  match s with
  | EmptyString => acc
  | String c s' => string_rev (String c acc) s'
  end.

(** [s.trim()]. *)
Definition trim (s : string) : string :=
  string_rev "" (trim_start (string_rev "" (trim_start s))).

(** *** Values of a JSON body *)

(** What a field of [req.body] can hold.  An array or an object is kept as
    the string the language makes of it when it needs a primitive
    ([ToPrimitive]: an array's elements joined by commas, [[object Object]]
    for a plain object). *)
Inductive JsValue :=
| VUndefined
| VNull
| VBool (b : bool)
| VNumber (n : Number)
| VString (s : string)
| VObject (text : string).

(** The conversions between strings and numbers are the language's:
    [Number(s)] on a string and [String(n)] on a number. *)
Record Conversions := {
  StringToNumber : string -> Number;
  NumberToString : Number -> string
}.

(** [ToNumber(v)], as the arithmetic operators apply it. *)
Definition ToNumber (js : Conversions) (v : JsValue) : Number :=
  match v with
  | VUndefined => NaN
  | VNull => Finite 0
  | VBool b => if b then Finite 1 else Finite 0
  | VNumber n => n
  | VString s => StringToNumber js s
  | VObject text => StringToNumber js text
  end.

(** [n + v]: a concatenation of strings when [v] is a string or becomes
    one, an addition of numbers otherwise. *)
Definition js_plus (js : Conversions) (n : Number) (v : JsValue) : JsValue :=
  match v with
  | VString s => VString (NumberToString js n ++ s)%string
  | VObject text => VString (NumberToString js n ++ text)%string
  | _ => VNumber (num_add n (ToNumber js v))
  end.

(** What Mongoose makes of a value assigned to a [Number] path: a number,
    nothing ([null]), or a cast error that the next validation reports. *)
Inductive Cast :=
| CastTo (n : Number)
| CastNull
| CastFailed.

Definition castNumber (js : Conversions) (v : JsValue) : Cast :=
  match v with
  | VUndefined | VNull => CastNull
  | VBool b => CastTo (if b then Finite 1 else Finite 0)
  | VNumber NaN => CastFailed
  | VNumber n => CastTo n
  | VString s =>
      if String.eqb s "" then CastNull
      else match StringToNumber js s with
           | NaN => CastFailed
           | n => CastTo n
           end
  | VObject _ => CastFailed
  end.


(** ** The store and the handlers' effects *)

(** The paths of the Product and Review schemas that the handlers and hooks
    read or write or that carry a validator ([images], [features] and
    [specifications] play no part in them).  A string path holds what its
    setter left ([trim]); a measure that the schemas bound ([price],
    [rating], a discount) is finite and kept as its rational. *)
Module Product.
Record t := {
  _id : ObjectId;
  name : string;
  description : string;
  price : Q;
  category : ObjectId;
  stock : Number;
  sku : option string;
  brand : option string;
  rating : Q;
  numReviews : Z;
  isActive : bool;
  discount_percentage : Q;
  discountedPrice : option Q
}.
End Product.

Module Review.
Record t := {
  _id : ObjectId;
  product : ObjectId;
  user : ObjectId;
  rating : Q;
  title : option string;
  comment : string;
  isVerifiedPurchase : bool;
  helpfulVotes : Z;
  reportCount : Z
}.
End Review.

Record Store := {
  categories : list Category.t;
  products : list Product.t;
  reviews : list Review.t
}.

(** What an [await] can throw; the handlers' [catch] hands it to [next]. *)
Inductive Exn :=
| CastError (path value : string)
| ValidationError (path : string)
| DuplicateKey
| DocumentNotFound
| TypeError (message : string)
| SyntaxError
| StoreError (message : string).

(** A database computation: it reads and writes the store and either throws
    or returns. *)
Definition Db (A : Type) : Type := Store -> (Exn + A) * Store.

Definition ret {A} (a : A) : Db A := fun s => (inr a, s).

Definition throw {A} (e : Exn) : Db A := fun s => (inl e, s).

Definition bind {A B} (m : Db A) (k : A -> Db B) : Db B :=
  fun s =>
    match m s with
    | (inl e, s') => (inl e, s')
    | (inr a, s') => k a s'
    end.

Notation "x <- m ;; k" := (bind m (fun x => k))
  (at level 61, m at next level, right associativity).
Notation "m ;;; k" := (bind m (fun _ => k))
  (at level 61, right associativity).

Definition gets {A} (f : Store -> A) : Db A := fun s => (inr (f s), s).

Definition modify (f : Store -> Store) : Db unit := fun s => (inr tt, f s).

Definition set_categories (f : list Category.t -> list Category.t) (s : Store) : Store :=
  {| categories := f (categories s); products := products s; reviews := reviews s |}.

Definition set_products (f : list Product.t -> list Product.t) (s : Store) : Store :=
  {| categories := categories s; products := f (products s); reviews := reviews s |}.

Definition set_reviews (f : list Review.t -> list Review.t) (s : Store) : Store :=
  {| categories := categories s; products := products s; reviews := f (reviews s) |}.

(** Mongoose casts an id given as a string: 24 hexadecimal digits make an
    ObjectId (printed in lower case), anything else is a [CastError]. *)
Definition is_hex (c : ascii) : bool :=
  let n := nat_of_ascii c in
  (((48 <=? n) && (n <=? 57)) || ((97 <=? n) && (n <=? 102)) ||
   ((65 <=? n) && (n <=? 70)))%nat.

Definition lower (c : ascii) : ascii :=
  let n := nat_of_ascii c in
  if ((65 <=? n) && (n <=? 90))%nat then ascii_of_nat (n + 32) else c.

Fixpoint string_forall (f : ascii -> bool) (s : string) : bool :=
  match s with
  | EmptyString => true
  | String c s' => f c && string_forall f s'
  end.

Fixpoint string_map (f : ascii -> ascii) (s : string) : string :=
  match s with
  | EmptyString => EmptyString
  | String c s' => String (f c) (string_map f s')
  end.

Definition castObjectId (raw : string) : option ObjectId :=
  if (String.length raw =? 24)%nat && string_forall is_hex raw
  then Some (string_map lower raw)
  else None.

(** A document is updated or removed where its [_id] is first met; ids are
    unique in a collection. *)
Fixpoint update_first {A} (test : A -> bool) (f : A -> A) (l : list A) : list A :=
  match l with
  | [] => []
  | x :: l' => if test x then f x :: l' else x :: update_first test f l'
  end.

Fixpoint remove_first {A} (test : A -> bool) (l : list A) : list A :=
  match l with
  | [] => []
  | x :: l' => if test x then l' else x :: remove_first test l'
  end.

(** [Model.findById(id)] with the id as the request carries it. *)
Definition findById {A} (coll : Store -> list A) (id_of : A -> ObjectId)
    (path raw : string) : Db (option A) :=
  match castObjectId raw with
  | None => throw (CastError path raw)
  | Some oid => gets (fun s => find (fun d => String.eqb (id_of d) oid) (coll s))
  end.

(** A JSON response: [res.status(code).json({ success, error?, data? })]. *)
Record Response (A : Type) := {
  status : nat;
  success : bool;
  error : option string;
  data : option A
}.
Arguments status {A}.
Arguments success {A}.
Arguments error {A}.
Arguments data {A}.

Definition fail {A} (code : nat) (message : string) : Response A :=
  {| status := code; success := false; error := Some message; data := None |}.

Definition ok {A} (code : nat) (payload : A) : Response A :=
  {| status := code; success := true; error := None; data := Some payload |}.

(** ** [Review.js]: the rating aggregate *)

(** One output document of the [$group] stage. *)
Record Stats := {
  s_id : ObjectId;
  averageRating : Q;
  numberOfReviews : Z
}.

(** The [$match: { product: productId }] stage. *)
Definition match_product (productId : ObjectId) (docs : list Review.t) : list Review.t :=
  filter (fun r => String.eqb (Review.product r) productId) docs.

(** The [$group] stage keeps, for each value of [$product], the running sum
    and count that [$avg: '$rating'] and [$sum: 1] need. *)
Record Acc := { a_key : ObjectId; a_sum : Q; a_count : Z }.

Fixpoint accumulate (accs : list Acc) (r : Review.t) : list Acc :=
  match accs with
  | [] => [{| a_key := Review.product r; a_sum := Review.rating r; a_count := 1 |}]
  | a :: rest =>
      if String.eqb (a_key a) (Review.product r)
      then {| a_key := a_key a;
              a_sum := (a_sum a + Review.rating r)%Q;
              a_count := (a_count a + 1)%Z |} :: rest
      else a :: accumulate rest r
  end.

(** [$avg] returns a double: the sum of the group divided by its count and
    rounded.  The store accumulates the sum in extended precision, and the
    sum is exact whenever it is a double itself, as it is for ratings in
    whole or half stars. *)
Definition finish (a : Acc) : Stats :=
  {| s_id := a_key a;
     averageRating := round_double (a_sum a / inject_Z (a_count a))%Q;
     numberOfReviews := a_count a |}.

Definition group_by_product (docs : list Review.t) : list Stats :=
  map finish (fold_left accumulate docs []).

Definition aggregate (productId : ObjectId) : Db (list Stats) :=
  gets (fun s => group_by_product (match_product productId (reviews s))).

(** [mongoose.model('Product').findByIdAndUpdate(productId, { rating,
    numReviews })]: resolves to the document found, or to [null] when there
    is none, in which case nothing is written. *)
Definition set_rating (r : Q) (n : Z) (p : Product.t) : Product.t :=
  {| Product._id := Product._id p; Product.name := Product.name p;
     Product.description := Product.description p; Product.price := Product.price p;
     Product.category := Product.category p; Product.stock := Product.stock p;
     Product.sku := Product.sku p; Product.brand := Product.brand p;
     Product.rating := r; Product.numReviews := n;
     Product.isActive := Product.isActive p;
     Product.discount_percentage := Product.discount_percentage p;
     Product.discountedPrice := Product.discountedPrice p |}.

Definition has_id (productId : ObjectId) (p : Product.t) : bool :=
  String.eqb (Product._id p) productId.

Definition findByIdAndUpdate_rating (productId : ObjectId) (r : Q) (n : Z)
  : Db (option Product.t) :=
  found <- gets (fun s => find (has_id productId) (products s)) ;;
  match found with
  | None => ret None
  | Some p =>
      modify (set_products (update_first (has_id productId) (set_rating r n))) ;;;
      ret (Some p)
  end.

(** [reviewSchema.statics.calculateAverageRating]. *)
Definition calculateAverageRating (productId : ObjectId) : Db unit :=
  stats <- aggregate productId ;;
  match stats with
  | st :: _ =>
      findByIdAndUpdate_rating productId (averageRating st) (numberOfReviews st) ;;;
      ret tt
  | [] =>
      findByIdAndUpdate_rating productId 0%Q 0%Z ;;;
      ret tt
  end.

(** [reviewSchema.post('save')] and [reviewSchema.post('remove')]. *)
Definition post_save (this : Review.t) : Db unit :=
  calculateAverageRating (Review.product this).

Definition post_remove (this : Review.t) : Db unit :=
  calculateAverageRating (Review.product this).

(** The unique index [{ product: 1, user: 1 }]: another document with the
    same pair makes a write fail. *)
Definition same_id (doc r : Review.t) : bool :=
  String.eqb (Review._id r) (Review._id doc).

Definition violates_unique (doc : Review.t) (docs : list Review.t) : bool :=
  existsb (fun r => negb (same_id doc r) &&
                    String.eqb (Review.product r) (Review.product doc) &&
                    String.eqb (Review.user r) (Review.user doc)) docs.

(** The validators of the review schema: [rating] from 1 to 5, [title] of
    at most 100 characters, [comment] present and of at most 1000 ([product],
    [user] and [rating] are present in every [Review.t]). *)
Definition valid_review (doc : Review.t) : bool :=
  Qle_bool 1 (Review.rating doc) && Qle_bool (Review.rating doc) 5 &&
  match Review.title doc with
  | Some t => (String.length t <=? 100)%nat
  | None => true
  end &&
  negb (String.eqb (Review.comment doc) "") &&
  (String.length (Review.comment doc) <=? 1000)%nat.

(** [doc.save()].  The document is validated first.  A new document
    ([isNew]) is then inserted, and refused when its [_id] is taken; a loaded
    one is written over the stored document with its [_id].  The post-save
    hook runs once the write is done. *)
Definition save (isNew : bool) (doc : Review.t) : Db unit :=
  docs <- gets reviews ;;
  if negb (valid_review doc) then throw (ValidationError "Review")
  else if violates_unique doc docs then throw DuplicateKey
  else if isNew then
    if existsb (same_id doc) docs then throw DuplicateKey
    else modify (set_reviews (fun rs => rs ++ [doc])) ;;; post_save doc
  else
    if existsb (same_id doc) docs
    then modify (set_reviews (update_first (same_id doc) (fun _ => doc))) ;;;
         post_save doc
    else throw DocumentNotFound.

(** [doc.remove()]: the stored document goes, then the post-remove hook
    runs. *)
Definition remove (doc : Review.t) : Db unit :=
  modify (set_reviews (remove_first (same_id doc))) ;;;
  post_remove doc.

(** The fields a review payload carries ([reviewValidation]). *)
Record ReviewPayload := {
  new_rating : Q;
  new_title : option string;
  new_comment : string;
  new_isVerifiedPurchase : option bool
}.

Definition assign (doc : Review.t) (body : ReviewPayload) : Review.t :=
  {| Review._id := Review._id doc;
     Review.product := Review.product doc;
     Review.user := Review.user doc;
     Review.rating := new_rating body;
     Review.title :=
       match new_title body with
       | Some t => Some (trim t)
       | None => Review.title doc
       end;
     Review.comment := trim (new_comment body);
     Review.isVerifiedPurchase :=
       match new_isVerifiedPurchase body with
       | Some b => b
       | None => Review.isVerifiedPurchase doc
       end;
     Review.helpfulVotes := Review.helpfulVotes doc;
     Review.reportCount := Review.reportCount doc |}.

(** Modelled from the spec: the review controller ([addReview],
    [updateReview], [deleteReview]) is not among the sources.  A review is
    created by saving a new document, updated by assigning the payload's
    fields to the stored document (the schema trims [title] and [comment]
    as they are set) and saving it, and deleted by removing the stored
    document, so that the hooks of [Review.js] run after each. *)
Inductive ReviewOp :=
| AddReview (doc : Review.t)
| UpdateReview (id : ObjectId) (body : ReviewPayload)
| DeleteReview (id : ObjectId).

Definition find_review (id : ObjectId) : Db (option Review.t) :=
  gets (fun s => find (fun r => String.eqb (Review._id r) id) (reviews s)).

Definition review_op (op : ReviewOp) : Db unit :=
  match op with
  | AddReview doc => save true doc
  | UpdateReview id body =>
      found <- find_review id ;;
      match found with
      | None => ret tt
      | Some doc => save false (assign doc body)
      end
  | DeleteReview id =>
      found <- find_review id ;;
      match found with
      | None => ret tt
      | Some doc => remove doc
      end
  end.

(** The store once the operations have settled, one after the other. *)
Definition settle (op : ReviewOp) (s : Store) : Store := snd (review_op op s).

Definition settle_all (ops : list ReviewOp) (s : Store) : Store :=
  fold_left (fun s op => settle op s) ops s.

(** The aggregate as the spec words it: the mean of the ratings of the
    reviews that reference the product (0 when there is none), and their
    number. *)
Definition reviews_of (s : Store) (productId : ObjectId) : list Review.t :=
  filter (fun r => String.eqb (Review.product r) productId) (reviews s).

Definition sum_ratings (rs : list Review.t) : Q :=
  fold_right (fun r acc => (Review.rating r + acc)%Q) 0%Q rs.

Definition mean_rating (rs : list Review.t) : Q :=
  match rs with
  | [] => 0%Q
  | _ => (sum_ratings rs / inject_Z (Z.of_nat (List.length rs)))%Q
  end.

Definition aggregate_exact (s : Store) (p : Product.t) : Prop :=
  (Product.rating p == mean_rating (reviews_of s (Product._id p)))%Q /\
  Product.numReviews p = Z.of_nat (List.length (reviews_of s (Product._id p))).

(** The aggregate as a product can hold it: the mean as a double. *)
Definition double_mean (rs : list Review.t) : Q := round_double (mean_rating rs).




(** ** [Product.js]: the validators of the product schema *)

(** [name] present and of at most 200 characters, [description] present,
    [price] and [stock] at least 0, [rating] from 0 to 5, a discount
    percentage from 0 to 100 and a discounted price of at least 0
    ([category] is present in every [Product.t]). *)
Definition valid_product (p : Product.t) : bool :=
  negb (String.eqb (Product.name p) "") &&
  (String.length (Product.name p) <=? 200)%nat &&
  negb (String.eqb (Product.description p) "") &&
  Qle_bool 0 (Product.price p) &&
  num_leb (Finite 0) (Product.stock p) &&
  Qle_bool 0 (Product.rating p) && Qle_bool (Product.rating p) 5 &&
  Qle_bool 0 (Product.discount_percentage p) &&
  Qle_bool (Product.discount_percentage p) 100 &&
  match Product.discountedPrice p with
  | Some d => Qle_bool 0 d
  | None => true
  end.

(** Sample documents. *)
Definition pid1 : ObjectId := "64b000000000000000000001".
Definition pid2 : ObjectId := "64b000000000000000000002".
Definition cid1 : ObjectId := "64c000000000000000000001".
Definition cid2 : ObjectId := "64c000000000000000000002".

Definition mkProduct (i : ObjectId) (nm : string) (st : Z) (r : Q) (n : Z) : Product.t :=
  {| Product._id := i; Product.name := nm; Product.description := "for the home";
     Product.price := 10%Q; Product.category := cid1;
     Product.stock := Finite (inject_Z st);
     Product.sku := None; Product.brand := None;
     Product.rating := r; Product.numReviews := n; Product.isActive := true;
     Product.discount_percentage := 0%Q; Product.discountedPrice := None |}.

Definition mkReview (i p u : ObjectId) (r : Q) : Review.t :=
  {| Review._id := i; Review.product := p; Review.user := u; Review.rating := r;
     Review.title := None; Review.comment := "fine product";
     Review.isVerifiedPurchase := false; Review.helpfulVotes := 0%Z;
     Review.reportCount := 0%Z |}.

Definition stale_store : Store :=
  {| categories := [];
     products := [mkProduct pid1 "lamp" 3%Z 4%Q 2%Z; mkProduct pid2 "desk" 1%Z 0%Q 0%Z];
     reviews := [mkReview "r1" pid2 "u1" 5%Q] |}.

Definition fresh_store : Store :=
  {| categories := [];
     products := [mkProduct pid1 "lamp" 3%Z 0%Q 0%Z; mkProduct pid2 "desk" 1%Z 0%Q 0%Z];
     reviews := [] |}.

Definition sample_ops : list ReviewOp :=
  [ AddReview (mkReview "r1" pid1 "u1" 5%Q);
    AddReview (mkReview "r2" pid1 "u2" 2%Q);
    AddReview (mkReview "r3" pid2 "u1" 4%Q);
    UpdateReview "r2" {| new_rating := 4%Q; new_title := None;
                         new_comment := "better than I thought";
                         new_isVerifiedPurchase := None |};
    AddReview (mkReview "r4" pid1 "u3" 4%Q);
    DeleteReview "r3" ].



(** ** Handlers *)

(** A handler's [try] block either sends a response or throws, and its
    [catch] passes what was thrown to [next]. *)
Inductive Outcome (A : Type) :=
| Sent (r : Response A)
| Next (e : Exn).
Arguments Sent {A}.
Arguments Next {A}.

Definition handle {A} (h : Db (Response A)) (s : Store) : Outcome A * Store :=
  match h s with
  | (inl e, s') => (Next e, s')
  | (inr r, s') => (Sent r, s')
  end.

(** A field of a JSON body that is absent, [null], or a string. *)
Inductive JsField :=
| Undefined
| JsNull
| JsString (s : string).

(** [if (v)]: a string is truthy unless empty. *)
Definition truthy (v : JsField) : bool :=
  match v with
  | JsString s => negb (String.eqb s "")
  | _ => false
  end.

(** [v === id] against a string. *)
Definition strict_eq (v : JsField) (id : string) : bool :=
  match v with
  | JsString s => String.eqb s id
  | _ => false
  end.

(** The string under a truthy field. *)
Definition field_string (v : JsField) : string :=
  match v with
  | JsString s => s
  | _ => ""
  end.

(** The document the store holds under an id as a request carries it. *)
Definition stored_category (s : Store) (raw : string) : option Category.t :=
  match castObjectId raw with
  | None => None
  | Some oid => find (fun c => String.eqb (Category._id c) oid) (categories s)
  end.

Definition stored_product (s : Store) (raw : string) : option Product.t :=
  match castObjectId raw with
  | None => None
  | Some oid => find (fun p => String.eqb (Product._id p) oid) (products s)
  end.

(** *** [updateCategory] *)

(** A body that sets fields of a category to values of their types
    ([categoryValidation] lists the fields): it holds no update operator,
    and its [parentCategory] is absent, [null] or a string. *)
Record CategoryBody := {
  b_name : option string;
  b_description : option string;
  b_parentCategory : JsField;
  b_isActive : option bool
}.

Definition or_keep {A} (new : option A) (old : A) : A :=
  match new with
  | Some a => a
  | None => old
  end.

(** The document after the body's fields are set on it: an absent field is
    kept, a [null] parent clears the reference, a string parent is cast. *)
Definition apply_body (body : CategoryBody) (c : Category.t) : option Category.t :=
  match
    match b_parentCategory body with
    | Undefined => Some (Category.parentCategory c)
    | JsNull => Some None
    | JsString raw =>
        match castObjectId raw with
        | Some oid => Some (Some oid)
        | None => None
        end
    end
  with
  | None => None
  | Some parent =>
      Some {| Category._id := Category._id c;
              Category.name := or_keep (b_name body) (Category.name c);
              Category.slug := Category.slug c;
              Category.description :=
                match b_description body with
                | Some d => Some d
                | None => Category.description c
                end;
              Category.image := Category.image c;
              Category.parentCategory := parent;
              Category.isActive := or_keep (b_isActive body) (Category.isActive c) |}
  end.

(** [Category.findByIdAndUpdate(id, body, { new: true, runValidators: true })].
    The Category schema is not among the sources, so its validators are the
    parameter [valid]. *)
Definition findByIdAndUpdate_category (valid : CategoryBody -> bool)
    (id : string) (body : CategoryBody) : Db (option Category.t) :=
  match castObjectId id with
  | None => throw (CastError "_id" id)
  | Some oid =>
      let has c := String.eqb (Category._id c) oid in
      found <- gets (fun s => find has (categories s)) ;;
      match found with
      | None => ret None
      | Some c =>
          match apply_body body c with
          | None => throw (CastError "parentCategory" (field_string (b_parentCategory body)))
          | Some c' =>
              if valid body
              then modify (set_categories (update_first has (fun _ => c'))) ;;;
                   ret (Some c')
              else throw (ValidationError "Category")
          end
      end
  end.

Definition updateCategory (valid : CategoryBody -> bool)
    (id : string) (body : CategoryBody) : Db (Response (option Category.t)) :=
  category <- findById categories Category._id "_id" id ;;
  match category with
  | None => ret (fail 404 "Category not found")
  | Some _ =>
      (* Check if parent category exists and prevent circular reference *)
      refused <-
        (if truthy (b_parentCategory body) then
           if strict_eq (b_parentCategory body) id then
             ret (Some (fail 400 "Category cannot be its own parent"))
           else
             parent <- findById categories Category._id "_id"
                         (field_string (b_parentCategory body)) ;;
             match parent with
             | None => ret (Some (fail 404 "Parent category not found"))
             | Some _ => ret None
             end
         else ret None) ;;
      match refused with
      | Some response => ret response
      | None =>
          category' <- findByIdAndUpdate_category valid id body ;;
          ret (ok 200 category')
      end
  end.

(** *** [deleteCategory] *)

Definition decimal (n : nat) : string := NilEmpty.string_of_uint (Nat.to_uint n).

(** [Product.countDocuments({ category })] and
    [Category.countDocuments({ parentCategory })]. *)
Definition count_products (categoryId : ObjectId) (s : Store) : nat :=
  List.length (filter (fun p => String.eqb (Product.category p) categoryId) (products s)).

Definition count_subcategories (categoryId : ObjectId) (s : Store) : nat :=
  List.length (filter (fun c => match Category.parentCategory c with
                                | Some q => String.eqb q categoryId
                                | None => false
                                end) (categories s)).

Definition deleteCategory (id : string) : Db (Response unit) :=
  category <- findById categories Category._id "_id" id ;;
  match category with
  | None => ret (fail 404 "Category not found")
  | Some category =>
      productCount <- gets (count_products (Category._id category)) ;;
      if (0 <? productCount)%nat then
        ret (fail 400 ("Cannot delete category with " ++ decimal productCount
                       ++ " products. Move products first."))
      else
        subcategoryCount <- gets (count_subcategories (Category._id category)) ;;
        if (0 <? subcategoryCount)%nat then
          ret (fail 400 ("Cannot delete category with " ++ decimal subcategoryCount
                         ++ " subcategories. Delete subcategories first."))
        else
          modify (set_categories
                    (remove_first (fun c => String.eqb (Category._id c)
                                                       (Category._id category)))) ;;;
          ret (ok 200 tt)
  end.

(** *** [updateStock] *)

Definition set_stock (n : Number) (p : Product.t) : Product.t :=
  {| Product._id := Product._id p; Product.name := Product.name p;
     Product.description := Product.description p; Product.price := Product.price p;
     Product.category := Product.category p; Product.stock := n;
     Product.sku := Product.sku p; Product.brand := Product.brand p;
     Product.rating := Product.rating p; Product.numReviews := Product.numReviews p;
     Product.isActive := Product.isActive p;
     Product.discount_percentage := Product.discount_percentage p;
     Product.discountedPrice := Product.discountedPrice p |}.

(** [product.stock = v] on a loaded product: the value is cast to the type
    of the path.  [None] is a document that no [save] accepts: the cast
    failed, or it left [null] on the required path. *)
Definition assign_stock (js : Conversions) (v : JsValue) (p : Product.t)
  : option Product.t :=
  match castNumber js v with
  | CastTo n => Some (set_stock n p)
  | CastNull | CastFailed => None
  end.

(** [product.save()] of a loaded product: the whole document is validated
    against the schema, then written over the stored one. *)
Definition save_product (p : Product.t) : Db unit :=
  if valid_product p
  then modify (set_products (update_first (has_id (Product._id p)) (fun _ => p)))
  else throw (ValidationError "Product").

(** [quantity] is [req.body.quantity], whatever the body holds there, and
    [operation] is [req.body.operation] when that is a string (any other
    value is no member of the list either). *)
Definition updateStock (js : Conversions) (id : string) (quantity : JsValue)
    (operation : string) : Db (Response Product.t) :=
  if negb (existsb (String.eqb operation) ["add"; "subtract"; "set"]) then
    ret (fail 400 "Operation must be add, subtract, or set")
  else
    product <- findById products Product._id "_id" id ;;
    match product with
    | None => ret (fail 404 "Product not found")
    | Some product =>
        let assigned :=
          if String.eqb operation "add" then
            js_plus js (Product.stock product) quantity
          else if String.eqb operation "subtract" then
            VNumber (max_zero (num_sub (Product.stock product) (ToNumber js quantity)))
          else quantity in
        match assign_stock js assigned product with
        | Some product' =>
            save_product product' ;;;
            ret (ok 200 product')
        | None => throw (ValidationError "Product")
        end
    end.

(** Conversions for examples: they read and print whole numbers in
    decimal. *)
Fixpoint decimal_value (acc : Z) (s : string) : option Z :=
  match s with
  | EmptyString => Some acc
  | String c s' =>
      let n := nat_of_ascii c in
      if ((48 <=? n) && (n <=? 57))%nat
      then decimal_value (10 * acc + Z.of_nat (n - 48)) s'
      else None
  end.

Definition read_decimal (s : string) : Number :=
  match trim s with
  | EmptyString => Finite 0
  | String "-" (String c t) =>
      match decimal_value 0 (String c t) with
      | Some z => of_Z (- z)
      | None => NaN
      end
  | t =>
      match decimal_value 0 t with
      | Some z => of_Z z
      | None => NaN
      end
  end.

Definition print_decimal (n : Number) : string :=
  match as_integer n with
  | Some z => if (z <? 0)%Z then ("-" ++ decimal (Z.abs_nat z))%string
              else decimal (Z.abs_nat z)
  | None => "NaN"
  end.

Definition sample_conversions : Conversions :=
  {| StringToNumber := read_decimal; NumberToString := print_decimal |}.

(** Sample categories and a store around them. *)
Definition catalog : Store :=
  {| categories :=
       [ mkCategory cid1 "Furniture" None;
         mkCategory cid2 "Desks" (Some cid1) ];
     products := [mkProduct pid1 "lamp" 3%Z 0%Q 0%Z; mkProduct pid2 "desk" 1%Z 0%Q 0%Z];
     reviews := [] |}.

Definition absent_id : string := "64c0000000000000000000ff".

Definition reparent (raw : string) : CategoryBody :=
  {| b_name := None; b_description := None;
     b_parentCategory := JsString raw; b_isActive := None |}.

Definition shelf : Store :=
  {| categories := categories catalog; products := []; reviews := [] |}.


(** ** [getProducts]: the catalog query *)

Local Open Scope string_scope.

(** A parsed query string ([req.query]) holds strings, arrays and nested
    objects; [price[lt]=1000] arrives as [{ price: { lt: '1000' } }]. *)
#[warnings="-register-all"]
Inductive json :=
| JStr (s : string)
| JArr (items : list json)
| JObj (fields : list (string * json)).

Definition QueryParams := list (string * json).

(** [req.query[key]]: [None] is [undefined]. *)
Fixpoint lookup (key : string) (q : QueryParams) : option json :=
  match q with
  | [] => None
  | (k, v) :: q' => if String.eqb k key then Some v else lookup key q'
  end.

(** *** [JSON.stringify] *)

Definition dquote : ascii := ascii_of_nat 34.
Definition backslash : ascii := ascii_of_nat 92.

Definition hex_digit (n : nat) : ascii :=
  if (n <? 10)%nat then ascii_of_nat (48 + n) else ascii_of_nat (87 + n).

Definition esc (c : ascii) : string := String backslash (String c EmptyString).

Definition quote_char (c : ascii) : string :=
  let n := nat_of_ascii c in
  if (n =? 34)%nat then esc dquote
  else if (n =? 92)%nat then esc backslash
  else if (n =? 8)%nat then esc "b"
  else if (n =? 12)%nat then esc "f"
  else if (n =? 10)%nat then esc "n"
  else if (n =? 13)%nat then esc "r"
  else if (n =? 9)%nat then esc "t"
  else if (n <? 32)%nat then
    String backslash
      ("u00" ++ String (hex_digit (n / 16)) (String (hex_digit (n mod 16)) EmptyString))
  else String c EmptyString.

Fixpoint quote_body (s : string) : string :=
  match s with
  | EmptyString => EmptyString
  | String c s' => quote_char c ++ quote_body s'
  end.

Definition quote (s : string) : string :=
  String dquote (quote_body s ++ String dquote EmptyString).

Fixpoint join (sep : string) (l : list string) : string :=
  match l with
  | [] => ""
  | [x] => x
  | x :: l' => x ++ sep ++ join sep l'
  end.

Fixpoint stringify (j : json) : string :=
  match j with
  | JStr s => quote s
  | JArr items => "[" ++ join "," (map stringify items) ++ "]"
  | JObj fields =>
      "{" ++ join "," (map (fun kv => let '(k, v) := kv in
                                      quote k ++ ":" ++ stringify v) fields) ++ "}"
  end.

(** *** [queryStr.replace(/\b(gt|gte|lt|lte|in)\b/g, match => `$${match}`)] *)

(** The class [\w]. *)
Definition is_word (c : ascii) : bool :=
  let n := nat_of_ascii c in
  (((48 <=? n) && (n <=? 57)) || ((65 <=? n) && (n <=? 90)) ||
   ((97 <=? n) && (n <=? 122)) || (n =? 95))%nat.

Definition operators : list string := ["gt"; "gte"; "lt"; "lte"; "in"].

(** A match starts and ends at a word boundary and has word characters only,
    so it is a whole maximal run of word characters that spells an operator:
    [flush] is called on each run as it ends. *)
Definition flush (word : string) : string :=
  if existsb (String.eqb word) operators then "$" ++ word else word.

Fixpoint replace_from (word : string) (s : string) : string :=
  match s with
  | EmptyString => flush word
  | String c s' =>
      if is_word c then replace_from (word ++ String c EmptyString) s'
      else flush word ++ String c (replace_from "" s')
  end.

Definition replace_operators (s : string) : string := replace_from "" s.

(** *** [JSON.parse] *)

Definition hex_value (c : ascii) : option nat :=
  let n := nat_of_ascii c in
  if ((48 <=? n) && (n <=? 57))%nat then Some (n - 48)
  else if ((97 <=? n) && (n <=? 102))%nat then Some (n - 87)
  else if ((65 <=? n) && (n <=? 70))%nat then Some (n - 55)
  else None.

Definition unescape (c : ascii) : option ascii :=
  let n := nat_of_ascii c in
  if (n =? 34)%nat then Some dquote
  else if (n =? 92)%nat then Some backslash
  else if (n =? 47)%nat then Some "/"%char
  else if (n =? 98)%nat then Some (ascii_of_nat 8)
  else if (n =? 102)%nat then Some (ascii_of_nat 12)
  else if (n =? 110)%nat then Some (ascii_of_nat 10)
  else if (n =? 114)%nat then Some (ascii_of_nat 13)
  else if (n =? 116)%nat then Some (ascii_of_nat 9)
  else None.

(** The text after an opening quote: the string it spells and the text after
    the closing quote.  An escape [\uXXXX] is read when it names one of the
    first 256 characters, which is all [quote] writes. *)
Fixpoint parse_string (s : string) : option (string * string) :=
  match s with
  | EmptyString => None
  | String c s' =>
      if Ascii.eqb c dquote then Some ("", s')
      else if Ascii.eqb c backslash then
        match s' with
        | EmptyString => None
        | String e s'' =>
            if Ascii.eqb e "u" then
              match s'' with
              | String "0" (String "0" (String h (String l rest))) =>
                  match hex_value h, hex_value l, parse_string rest with
                  | Some a, Some b, Some (str, rest') =>
                      Some (String (ascii_of_nat (16 * a + b)) str, rest')
                  | _, _, _ => None
                  end
              | _ => None
              end
            else
              match unescape e, parse_string s'' with
              | Some x, Some (str, rest') => Some (String x str, rest')
              | _, _ => None
              end
        end
      else if (nat_of_ascii c <? 32)%nat then None
      else
        match parse_string s' with
        | Some (str, rest') => Some (String c str, rest')
        | None => None
        end
  end.

(** A value, the elements of an array after its bracket, the members of an
    object after its brace.  The text parsed is one [JSON.stringify] wrote, so
    it has no white space and no number or literal; [fuel] bounds the
    nesting and the number of elements. *)
Fixpoint parse_value (fuel : nat) (s : string) : option (json * string) :=
  match fuel with
  | O => None
  | S f =>
      match s with
      | EmptyString => None
      | String c r =>
          if Ascii.eqb c dquote then
            match parse_string r with
            | Some (str, r') => Some (JStr str, r')
            | None => None
            end
          else if Ascii.eqb c "[" then
            match r with
            | String "]" r' => Some (JArr [], r')
            | _ =>
                match parse_elements f r with
                | Some (items, r') => Some (JArr items, r')
                | None => None
                end
            end
          else if Ascii.eqb c "{" then
            match r with
            | String "}" r' => Some (JObj [], r')
            | _ =>
                match parse_members f r with
                | Some (fields, r') => Some (JObj fields, r')
                | None => None
                end
            end
          else None
      end
  end
with parse_elements (fuel : nat) (s : string) : option (list json * string) :=
  match fuel with
  | O => None
  | S f =>
      match parse_value f s with
      | Some (v, String "," r) =>
          match parse_elements f r with
          | Some (items, r') => Some (v :: items, r')
          | None => None
          end
      | Some (v, String "]" r) => Some ([v], r)
      | _ => None
      end
  end
with parse_members (fuel : nat) (s : string) : option (list (string * json) * string) :=
  match fuel with
  | O => None
  | S f =>
      match s with
      | String c r =>
          if Ascii.eqb c dquote then
            match parse_string r with
            | Some (k, String ":" r1) =>
                match parse_value f r1 with
                | Some (v, String "," r2) =>
                    match parse_members f r2 with
                    | Some (fields, r') => Some ((k, v) :: fields, r')
                    | None => None
                    end
                | Some (v, String "}" r2) => Some ([(k, v)], r2)
                | _ => None
                end
            | _ => None
            end
          else None
      | EmptyString => None
      end
  end.

(** [None] is the [SyntaxError] [JSON.parse] throws. *)
Definition JSON_parse (s : string) : option json :=
  match parse_value (2 * String.length s + 2) s with
  | Some (v, EmptyString) => Some v
  | _ => None
  end.

(** *** The filter stage *)

Definition removeFields : list string := ["select"; "sort"; "page"; "limit"; "search"].

(** [delete reqQuery[param]]. *)
Definition delete (param : string) (q : QueryParams) : QueryParams :=
  filter (fun kv => negb (String.eqb (fst kv) param)) q.

(** [removeFields.forEach(param => delete reqQuery[param])] on a copy of
    [req.query]. *)
Definition reqQuery (query : QueryParams) : QueryParams :=
  fold_left (fun q param => delete param q) removeFields query.

Definition queryStr (query : QueryParams) : string :=
  replace_operators (stringify (JObj (reqQuery query))).

(** The argument of [Product.find]. *)
Definition find_filter (query : QueryParams) : option json :=
  JSON_parse (queryStr query).

(** *** Search, projection and sort *)

(** Truthiness of a query value: only the empty string is falsy. *)
Definition js_truthy (v : option json) : bool :=
  match v with
  | None => false
  | Some (JStr s) => negb (String.eqb s "")
  | Some _ => true
  end.

(** The conditions a query carries: the translated filter, and the [$or] of
    the three case-insensitive [$regex] matches when [search] is given. *)
Inductive Condition :=
| Filter (j : json)
| Search (pattern : json).

(** [value.split(',').join(' ')]; only a string has [split]. *)
Definition commas_to_spaces (s : string) : string :=
  string_map (fun c => if Ascii.eqb c "," then " "%char else c) s.

Definition split_join (v : option json) : Db string :=
  match v with
  | Some (JStr s) => ret (commas_to_spaces s)
  | _ => throw (TypeError "split is not a function")
  end.

(** *** Pagination *)

(** [ToString] of a query value, as [parseInt] applies it to its argument. *)
Fixpoint to_js_string (v : json) : string :=
  match v with
  | JStr s => s
  | JArr items => join "," (map to_js_string items)
  | JObj _ => "[object Object]"
  end.

Definition js_string_of (v : option json) : string :=
  match v with
  | None => "undefined"
  | Some j => to_js_string j
  end.

Definition digit_value (c : ascii) : option Z :=
  let n := nat_of_ascii c in
  if ((48 <=? n) && (n <=? 57))%nat then Some (Z.of_nat (n - 48)) else None.

(** The value of the longest prefix of decimal digits, [None] when the text
    does not start with a digit. *)
Fixpoint digits (acc : option Z) (s : string) : option Z :=
  match s with
  | EmptyString => acc
  | String c s' =>
      match digit_value c with
      | Some d =>
          digits (Some (10 * match acc with Some a => a | None => 0 end + d)%Z) s'
      | None => acc
      end
  end.

(** [parseInt(text, 10)]: leading white space, a sign, then digits; what
    follows the digits is ignored.  The result is the Number for the integer
    read, [NaN] when there is no digit. *)
Definition parseInt (text : string) : Number :=
  match trim_start text with
  | String "-" r =>
      match digits None r with
      | Some z => of_Z (- z)
      | None => NaN
      end
  | String "+" r =>
      match digits None r with
      | Some z => of_Z z
      | None => NaN
      end
  | r =>
      match digits None r with
      | Some z => of_Z z
      | None => NaN
      end
  end.

(** [n || d]. *)
Definition or_default (n d : Number) : Number :=
  if num_truthy n then n else d.

Definition page_of (query : QueryParams) : Number :=
  or_default (parseInt (js_string_of (lookup "page" query))) (Finite 1).

Definition limit_of (query : QueryParams) : Number :=
  or_default (parseInt (js_string_of (lookup "limit" query))) (Finite 10).

(** *** The store's side of a query *)

(** What the store makes of a query is the store's: which conditions it
    refuses to run (a value it cannot cast to the type of its path, a
    pattern that is no regular expression, an operator it does not know),
    which projection or sort it refuses, how it evaluates a condition on a
    product, orders by a sort specification, and shapes a returned document
    ([populate], [select]). *)
Record StoreSem := {
  refuses : list Condition -> option Exn;
  refuses_view : option string -> string -> option Exn;
  matches : Condition -> Product.t -> bool;
  order : string -> list Product.t -> list Product.t;
  shape : option string -> Product.t -> Product.t
}.

Definition matching (sem : StoreSem) (conditions : list Condition) (s : Store)
  : list Product.t :=
  filter (fun p => forallb (fun c => matches sem c p) conditions) (products s).

(** [Product.countDocuments(query)]: the number of products that satisfy the
    query's conditions, when the store runs them. *)
Definition countDocuments (sem : StoreSem) (conditions : list Condition) : Db Number :=
  match refuses sem conditions with
  | Some e => throw e
  | None => gets (fun s => of_Z (Z.of_nat (List.length (matching sem conditions s))))
  end.

(** What the store reads from [skip] and [limit]: both are to be whole
    numbers below 2^63 in size; a negative skip is refused, a negative limit
    is read as its absolute value, and a limit of 0 as no limit. *)
Definition window (skip limit : Number) : Exn + (nat * nat) :=
  match as_integer skip, as_integer limit with
  | Some k, Some l =>
      if (k <? 0)%Z then inl (StoreError "skip must be non-negative")
      else if (2 ^ 63 <=? k)%Z || (2 ^ 63 <=? Z.abs l)%Z
           then inl (StoreError "skip and limit must fit 64 bits")
           else inr (Z.to_nat k, Z.abs_nat l)
  | _, _ => inl (StoreError "skip and limit must be whole numbers")
  end.

Definition take {A} (limit : nat) (l : list A) : list A :=
  match limit with
  | O => l
  | _ => firstn limit l
  end.

(** [await query.skip(startIndex).limit(limit)]. *)
Definition exec (sem : StoreSem) (conditions : list Condition)
    (fields : option string) (sortBy : string) (skip limit : Number)
  : Db (list Product.t) :=
  match refuses sem conditions with
  | Some e => throw e
  | None =>
      match refuses_view sem fields sortBy with
      | Some e => throw e
      | None =>
          match window skip limit with
          | inl e => throw e
          | inr (k, l) =>
              gets (fun s =>
                map (shape sem fields)
                    (take l (skipn k (order sem sortBy (matching sem conditions s)))))
          end
      end
  end.

Record PageRef := { pr_page : Number; pr_limit : Number }.

Record Pagination := { next : option PageRef; prev : option PageRef }.

(** The part of the response beside [success]: [count], [pagination] and the
    documents. *)
Record Listing := {
  count : nat;
  pagination : Pagination;
  items : list Product.t
}.

Definition conditions_of (filter : json) (query : QueryParams) : list Condition :=
  Filter filter ::
  (if js_truthy (lookup "search" query)
   then match lookup "search" query with
        | Some v => [Search v]
        | None => []
        end
   else [])%list.

Definition getProducts (sem : StoreSem) (query : QueryParams) : Db (Response Listing) :=
  match find_filter query with
  | None => throw SyntaxError
  | Some filter =>
      let conditions := conditions_of filter query in
      fields <-
        (if js_truthy (lookup "select" query)
         then f <- split_join (lookup "select" query) ;; ret (Some f)
         else ret None) ;;
      sortBy <-
        (if js_truthy (lookup "sort" query)
         then split_join (lookup "sort" query)
         else ret "-createdAt") ;;
      let page := page_of query in
      let limit := limit_of query in
      let startIndex := num_mul (num_sub page (Finite 1)) limit in
      let endIndex := num_mul page limit in
      total <- countDocuments sem conditions ;;
      products <- exec sem conditions fields sortBy startIndex limit ;;
      let pagination :=
        {| next := if num_ltb endIndex total
                   then Some {| pr_page := num_add page (Finite 1); pr_limit := limit |}
                   else None;
           prev := if num_ltb (Finite 0) startIndex
                   then Some {| pr_page := num_sub page (Finite 1); pr_limit := limit |}
                   else None |} in
      ret (ok 200 {| count := List.length products;
                     pagination := pagination;
                     items := products |})
  end.

(** A store semantics for running examples.  It refuses a top-level key
    that starts with a dollar sign and a [price] that is no number, reads
    [price[lt]] and lets every other condition pass, keeps the store's
    order, returns documents whole. *)
Definition starts_with_dollar (key : string) : bool :=
  match key with
  | String "$" _ => true
  | _ => false
  end.

Definition not_a_number (text : string) : bool :=
  match parseInt text with
  | NaN => true
  | _ => false
  end.

Definition price_refused (j : json) : option Exn :=
  match j with
  | JObj fields =>
      if existsb (fun kv => starts_with_dollar (fst kv)) fields
      then Some (StoreError "unknown top level operator")
      else
        match lookup "price" fields with
        | Some (JStr v) =>
            if not_a_number v then Some (CastError "price" v) else None
        | Some (JObj ops) =>
            match lookup "$lt" ops with
            | Some (JStr bound) =>
                if not_a_number bound then Some (CastError "price" bound) else None
            | _ => None
            end
        | _ => None
        end
  | _ => None
  end.

Definition price_below (j : json) (p : Product.t) : bool :=
  match j with
  | JObj fields =>
      match lookup "price" fields with
      | Some (JObj ops) =>
          match lookup "$lt" ops with
          | Some (JStr bound) =>
              match parseInt bound with
              | Finite b => negb (Qle_bool b (Product.price p))
              | _ => true
              end
          | _ => true
          end
      | _ => true
      end
  | _ => true
  end.

Definition sample_sem : StoreSem :=
  {| refuses := fun conditions =>
       match conditions with
       | Filter j :: _ => price_refused j
       | _ => None
       end;
     refuses_view := fun _ _ => None;
     matches := fun c p => match c with Filter j => price_below j p | Search _ => true end;
     order := fun _ l => l;
     shape := fun _ p => p |}.

Definition shop (n : nat) : Store :=
  {| categories := [];
     products := map (fun k => mkProduct (decimal k) "item" 1%Z 0%Q 0%Z) (seq 0 n);
     reviews := [] |}.

(** A [select] or [sort] parameter the handler can read: absent or empty, or
    a string. *)
Definition splittable (v : option json) : Prop :=
  js_truthy v = false \/ exists str, v = Some (JStr str).

Definition spec_query : QueryParams :=
  [ ("price", JObj [("lt", JStr "1000")]); ("sort", JStr "-price");
    ("page", JStr "2"); ("limit", JStr "10") ].


(** ** Invariants of the stored data *)

Local Open Scope list_scope.

(** The schema's [min: 0] on [stock], over the whole collection. *)
Definition stocks_nonneg (s : Store) : Prop :=
  Forall (fun p => num_leb (Finite 0) (Product.stock p) = true) (products s).

(** The schema's bounds on a review's [rating], over the whole collection. *)
Definition ratings_in_range (s : Store) : Prop :=
  Forall (fun r => (1 <= Review.rating r)%Q /\ (Review.rating r <= 5)%Q) (reviews s).


(** ** More of [categoryController.js] *)

(** *** [createCategory] *)

(** [Category.create(req.body)] belongs to the Category model, which is not
    among the sources: it is the parameter [create]. *)
Definition createCategory (create : CategoryBody -> Db Category.t)
    (body : CategoryBody) : Db (Response Category.t) :=
  (* Check if parent category exists *)
  refused <-
    (if truthy (b_parentCategory body) then
       parent <- findById categories Category._id "_id"
                   (field_string (b_parentCategory body)) ;;
       match parent with
       | None => ret (Some (fail 404 "Parent category not found"))
       | Some _ => ret None
       end
     else ret None) ;;
  match refused with
  | Some response => ret response
  | None =>
      category <- create body ;;
      ret (ok 201 category)
  end.

(** *** [getCategoryBySlug] *)

(** [Category.findOne({ slug, isActive: true })]. *)
Definition getCategoryBySlug (slug : string) : Db (Response Category.t) :=
  category <- gets (fun s =>
                find (fun c => String.eqb (Category.slug c) slug && Category.isActive c)
                     (categories s)) ;;
  match category with
  | None => ret (fail 404 "Category not found")
  | Some category => ret (ok 200 category)
  end.

(** *** References between documents *)

(** Every [parentCategory] names a stored category, and every product's
    [category] does. *)
Definition has_category (s : Store) (i : ObjectId) : Prop :=
  exists c, In c (categories s) /\ Category._id c = i.

Definition parents_resolve (s : Store) : Prop :=
  forall c q, In c (categories s) -> Category.parentCategory c = Some q ->
              has_category s q.

Definition products_resolve (s : Store) : Prop :=
  forall p, In p (products s) -> has_category s (Product.category p).

(** *** The height of a tree *)

Fixpoint height (n : Node) : nat :=
  S (list_max (map height (children n))).

Definition forest_height (tree : list Node) : nat :=
  list_max (map height tree).

(** A collection is a forest when its parent references resolve within it
    and some rank decreases along them. *)
Definition is_forest (cs : list Category.t) : Prop :=
  exists rank : ObjectId -> nat,
    forall c q, In c cs -> Category.parentCategory c = Some q ->
      (exists d, In d cs /\ Category._id d = q) /\ rank q < rank (Category._id c).

(** ** More of [productController.js] *)

(** *** [createProduct] *)

(** [Product.create(req.body)] makes the document (fresh [_id], defaults,
    validation) and is the parameter [create]; [category] is [req.body.category]. *)
Definition createProduct {Body : Type} (create : Body -> Db Product.t)
    (category : string) (body : Body) : Db (Response Product.t) :=
  (* Check if category exists *)
  found <- findById categories Category._id "_id" category ;;
  match found with
  | None => ret (fail 404 "Category not found")
  | Some _ =>
      product <- create body ;;
      ret (ok 201 product)
  end.

(** *** [updateProduct] *)

(** A body that sets paths of the Product schema to values of their types;
    it holds no update operator. *)
Record ProductBody := {
  pb_name : option string;
  pb_description : option string;
  pb_price : option Q;
  pb_category : option string;
  pb_stock : option Number;
  pb_brand : option string;
  pb_rating : option Q;
  pb_numReviews : option Z;
  pb_isActive : option bool
}.

Definition in_bounds (lo : Q) (hi : option Q) (v : option Q) : bool :=
  match v with
  | None => true
  | Some x =>
      Qle_bool lo x && match hi with Some h => Qle_bool x h | None => true end
  end.

(** The schema's [min] and [max] validators, run on the paths the body sets
    ([runValidators: true]): price and stock at least 0, rating from 0 to 5. *)
Definition numbers_valid (body : ProductBody) : bool :=
  in_bounds 0 None (pb_price body) &&
  match pb_stock body with Some n => num_leb (Finite 0) n | None => true end &&
  in_bounds 0 (Some 5%Q) (pb_rating body).

(** The product after the body's paths are set; [None] when [category] does
    not cast to an ObjectId. *)
Definition apply_product_body (body : ProductBody) (p : Product.t) : option Product.t :=
  match
    match pb_category body with
    | None => Some (Product.category p)
    | Some raw => castObjectId raw
    end
  with
  | None => None
  | Some cat =>
      Some {| Product._id := Product._id p;
              Product.name := or_keep (pb_name body) (Product.name p);
              Product.description := or_keep (pb_description body) (Product.description p);
              Product.price := or_keep (pb_price body) (Product.price p);
              Product.category := cat;
              Product.stock := or_keep (pb_stock body) (Product.stock p);
              Product.sku := Product.sku p;
              Product.brand :=
                match pb_brand body with
                | Some b => Some b
                | None => Product.brand p
                end;
              Product.rating := or_keep (pb_rating body) (Product.rating p);
              Product.numReviews := or_keep (pb_numReviews body) (Product.numReviews p);
              Product.isActive := or_keep (pb_isActive body) (Product.isActive p);
              Product.discount_percentage := Product.discount_percentage p;
              Product.discountedPrice := Product.discountedPrice p |}
  end.

(** [Product.findByIdAndUpdate(id, body, { new: true, runValidators: true })];
    the validators of the text paths ([maxlength], [trim]) are the parameter
    [valid_text]. *)
Definition findByIdAndUpdate_product (valid_text : ProductBody -> bool)
    (id : string) (body : ProductBody) : Db (option Product.t) :=
  match castObjectId id with
  | None => throw (CastError "_id" id)
  | Some oid =>
      let has p := String.eqb (Product._id p) oid in
      found <- gets (fun s => find has (products s)) ;;
      match found with
      | None => ret None
      | Some p =>
          match apply_product_body body p with
          | None => throw (CastError "category" (or_keep (pb_category body) ""))
          | Some p' =>
              if valid_text body && numbers_valid body
              then modify (set_products (update_first has (fun _ => p'))) ;;;
                   ret (Some p')
              else throw (ValidationError "Product")
          end
      end
  end.

Definition updateProduct (valid_text : ProductBody -> bool)
    (id : string) (body : ProductBody) : Db (Response (option Product.t)) :=
  product <- findById products Product._id "_id" id ;;
  match product with
  | None => ret (fail 404 "Product not found")
  | Some _ =>
      (* Update product *)
      product' <- findByIdAndUpdate_product valid_text id body ;;
      ret (ok 200 product')
  end.

(** *** [deleteProduct] *)

(** An entry of a product's [images]. *)
Record ProductImage := {
  pi_url : string;
  pi_public_id : option string;
  pi_alt : option string
}.

(** What the handler's [catch] receives: an exception of the store, or the
    [ReferenceError] of a name the module does not bind. *)
Inductive Thrown :=
| Raised (e : Exn)
| ReferenceError (name : string).

(** [if (image.public_id)]. *)
Definition has_public_id (image : ProductImage) : bool :=
  match pi_public_id image with
  | Some i => negb (String.eqb i "")
  | None => false
  end.

(** The loop over [product.images]: its body calls
    [cloudinary.uploader.destroy], and the module binds no [cloudinary] (it
    requires [Product], [Category], [uploadToCloudinary] and [fs]), so the
    first image with a [public_id] ends the loop with a [ReferenceError]. *)
Fixpoint destroy_images (images : list ProductImage) : option Thrown :=
  match images with
  | [] => None
  | image :: rest =>
      if has_public_id image then Some (ReferenceError "cloudinary")
      else destroy_images rest
  end.

(** [images_of] reads the [images] path, which [Product.t] leaves out. *)
Definition deleteProduct (images_of : Product.t -> list ProductImage)
    (id : string) (s : Store) : (Thrown + Response unit) * Store :=
  match findById products Product._id "_id" id s with
  | (inl e, s') => (inl (Raised e), s')
  | (inr None, s') => (inr (fail 404 "Product not found"), s')
  | (inr (Some product), s') =>
      (* Delete images from Cloudinary if they exist *)
      match destroy_images (images_of product) with
      | Some thrown => (inl thrown, s')
      | None =>
          (inr (ok 200 tt),
           set_products (remove_first (has_id (Product._id product))) s')
      end
  end.

(** ** [Product.js]: the [finalPrice] virtual *)

(** [discount] is [this.discount.percentage], [None] when there is none. *)
Definition finalPrice (price : Q) (discount : option Q) : Q :=
  match discount with
  | Some percentage =>
      if Qle_bool percentage 0 then price
      else (price * (1 - percentage / 100))%Q
  | None => price
  end.

(** The schema's bounds on a product's numbers. *)
Definition product_in_bounds (p : Product.t) : Prop :=
  (0 <= Product.price p)%Q /\ num_leb (Finite 0) (Product.stock p) = true /\
  (0 <= Product.rating p)%Q /\ (Product.rating p <= 5)%Q.

Definition set_rating_body (r : Q) : ProductBody :=
  {| pb_name := None; pb_description := None; pb_price := None;
     pb_category := None; pb_stock := None; pb_brand := None;
     pb_rating := Some r; pb_numReviews := None; pb_isActive := None |}.

(** ** More on [getProducts] *)

(** A repeated or bracketed parameter arrives as an array or an object. *)
Definition is_composite (v : option json) : bool :=
  match v with
  | Some (JArr _) | Some (JObj _) => true
  | _ => false
  end.

(** What the select and sort stages pass to the query when the parameters
    are strings or absent. *)
Definition fields_of (query : QueryParams) : option string :=
  match lookup "select" query with
  | Some (JStr s) => if String.eqb s "" then None else Some (commas_to_spaces s)
  | _ => None
  end.

Definition sortBy_of (query : QueryParams) : string :=
  match lookup "sort" query with
  | Some (JStr s) => if String.eqb s "" then "-createdAt" else commas_to_spaces s
  | _ => "-createdAt"
  end.

(** The matches of a query in the order asked for, and the documents of a
    page of [limit] of them. *)
Definition ordered (sem : StoreSem) (query : QueryParams) (filter : json) (s : Store)
  : list Product.t :=
  order sem (sortBy_of query) (matching sem (conditions_of filter query) s).

Definition page_slice (sem : StoreSem) (query : QueryParams) (filter : json)
    (s : Store) (page limit : Z) : list Product.t :=
  map (shape sem (fields_of query))
      (firstn (Z.to_nat limit)
         (skipn (Z.to_nat ((page - 1) * limit)) (ordered sem query filter s))).

(** The store runs the query: it refuses neither its conditions nor its
    projection and sort. *)
Definition accepted (sem : StoreSem) (query : QueryParams) (filter : json) : Prop :=
  refuses sem (conditions_of filter query) = None /\
  refuses_view sem (fields_of query) (sortBy_of query) = None.

(** [page] and [limit] are read as the whole numbers [p] and [l], positive
    and small enough for the arithmetic on them to be exact. *)
Definition reads_window (query : QueryParams) (p l : Z) : Prop :=
  page_of query = Finite (inject_Z p) /\ limit_of query = Finite (inject_Z l) /\
  (1 <= p)%Z /\ (1 <= l)%Z /\ (p * l < 2 ^ 53)%Z.

(** Two queries that differ in their page at most. *)
Definition same_listing (query query' : QueryParams) : Prop :=
  find_filter query' = find_filter query /\
  lookup "search" query' = lookup "search" query /\
  lookup "select" query' = lookup "select" query /\
  lookup "sort" query' = lookup "sort" query /\
  limit_of query' = limit_of query.

(** *** Queries without escapes *)

(** The characters [JSON.stringify] writes as they are: no quote, no
    backslash, no control character. *)
Definition plain_char (c : ascii) : bool :=
  let n := nat_of_ascii c in
  ((32 <=? n) && negb (n =? 34) && negb (n =? 92))%nat.

Definition plain (s : string) : bool := string_forall plain_char s.

Fixpoint plain_json (j : json) : bool :=
  match j with
  | JStr s => plain s
  | JArr items => forallb plain_json items
  | JObj fields =>
      forallb (fun kv => let '(k, v) := kv in plain k && plain_json v) fields
  end.

(** The operator replacement applied to every key and every string of a
    value. *)
Fixpoint translate (j : json) : json :=
  match j with
  | JStr s => JStr (replace_operators s)
  | JArr items => JArr (map translate items)
  | JObj fields =>
      JObj (map (fun kv => let '(k, v) := kv in (replace_operators k, translate v))
                fields)
  end.

(** The nodes of a value, which bound the parser's recursion. *)
Fixpoint jsize (j : json) : nat :=
  match j with
  | JStr _ => 1
  | JArr items => S (list_sum (map jsize items) + List.length items)
  | JObj fields =>
      S (list_sum (map (fun kv => let '(_, v) := kv in jsize v) fields)
         + List.length fields)
  end.

(** [rewrites_to t t']: in front of any text, the replacement turns the
    piece [t] into [t'] and starts afresh after it. *)
Definition rewrites_to (t t' : string) : Prop :=
  forall rest, replace_from "" (t ++ rest)%string = (t' ++ replace_from "" rest)%string.

(** Induction over a value and, with it, over the values inside. *)
Fixpoint json_nested_ind (P : json -> Prop)
    (Hstr : forall s, P (JStr s))
    (Harr : forall items, Forall P items -> P (JArr items))
    (Hobj : forall fields, Forall (fun kv => P (snd kv)) fields -> P (JObj fields))
    (j : json) : P j :=
  match j with
  | JStr s => Hstr s
  | JArr items =>
      Harr items
        ((fix all (l : list json) : Forall P l :=
            match l with
            | [] => Forall_nil P
            | x :: l' => Forall_cons x (json_nested_ind P Hstr Harr Hobj x) (all l')
            end) items)
  | JObj fields =>
      Hobj fields
        ((fix all (l : list (string * json)) : Forall (fun kv => P (snd kv)) l :=
            match l with
            | [] => Forall_nil _
            | (k, v) :: l' =>
                Forall_cons (k, v) (json_nested_ind P Hstr Harr Hobj v) (all l')
            end) fields)
  end.

Fixpoint distinct (keys : list string) : bool :=
  match keys with
  | [] => true
  | k :: keys' => negb (existsb (String.eqb k) keys') && distinct keys'
  end.

(** No object of the value has two members with one key.  [JSON.parse] keeps
    one member per key, so this is when the list of members read is the
    object built. *)
Fixpoint distinct_keys (j : json) : bool :=
  match j with
  | JStr _ => true
  | JArr items => forallb distinct_keys items
  | JObj fields =>
      distinct (map fst fields)
      && forallb (fun kv => let '(_, v) := kv in distinct_keys v) fields
  end.

(** * Properties *)

(** ** Rounding to a double *)

Lemma round_div_ge n d k : (0 < d)%Z -> (k * d <= n)%Z -> (k <= round_div n d)%Z.
Proof.
  intros Hd H. unfold round_div.
  pose proof (Z.div_mod n d ltac:(lia)) as E.
  pose proof (Z.mod_pos_bound n d Hd) as B.
  assert (k <= n / d)%Z by nia.
  destruct (2 * (n mod d) ?= d)%Z; [destruct (Z.even (n / d))| |]; lia.
Qed.

Lemma round_div_le n d k : (0 < d)%Z -> (n <= k * d)%Z -> (round_div n d <= k)%Z.
Proof.
  intros Hd H. unfold round_div.
  pose proof (Z.div_mod n d ltac:(lia)) as E.
  pose proof (Z.mod_pos_bound n d Hd) as B.
  assert (Hq : (n / d <= k)%Z) by nia.
  destruct (Z.compare_spec (2 * (n mod d)) d) as [C|C|C].
  - assert (n / d <> k)%Z by nia. destruct (Z.even (n / d)); lia.
  - lia.
  - assert (n / d <> k)%Z by nia. lia.
Qed.

Lemma pow2_lt_inv a b : (0 <= b)%Z -> (2 ^ a < 2 ^ b)%Z -> (a < b)%Z.
Proof.
  intros Hb H. destruct (Z.lt_ge_cases a b) as [|Hge]; [assumption|].
  exfalso. pose proof (Z.pow_le_mono_r 2 b a ltac:(lia) Hge). lia.
Qed.

Lemma exponent_le n d :
  (0 < n)%Z -> (0 < d)%Z -> (n < 2 ^ 53 * d)%Z -> (exponent n d <= 52)%Z.
Proof.
  intros Hn Hd H. unfold exponent.
  pose proof (Z.log2_spec n Hn) as [Ln Un].
  pose proof (Z.log2_spec d Hd) as [Ld Ud].
  pose proof (Z.log2_nonneg n) as Nn. pose proof (Z.log2_nonneg d) as Nd.
  set (a := Z.log2 n) in *. set (b := Z.log2 d) in *.
  assert (Hab : (a < 54 + b)%Z).
  { apply pow2_lt_inv; [lia|].
    replace (54 + b)%Z with (53 + Z.succ b)%Z by lia.
    rewrite Z.pow_add_r by lia. nia. }
  destruct (0 <=? a - b)%Z eqn:Hs.
  - destruct (2 ^ (a - b) * d <=? n)%Z eqn:G; [|lia].
    apply Z.leb_le in G.
    assert (2 ^ (a - b) < 2 ^ 53)%Z by nia.
    apply pow2_lt_inv in H0; lia.
  - apply Z.leb_gt in Hs. destruct (d <=? 2 ^ (- (a - b)) * n)%Z; lia.
Qed.

Lemma round_pos_ge n d k :
  (0 < n)%Z -> (0 < d)%Z -> (n < 2 ^ 53 * d)%Z ->
  (k * d <= n)%Z -> (inject_Z k <= round_pos n d)%Q.
Proof.
  intros Hn Hd H Hk. unfold round_pos.
  pose proof (exponent_le n d Hn Hd H) as He.
  set (u := Z.max (exponent n d - 52) (-1074)).
  assert (Hu : (u <= 0)%Z) by lia.
  destruct (0 <=? u)%Z eqn:Hs.
  - apply Z.leb_le in Hs. replace u with 0%Z by lia.
    rewrite Z.pow_0_r, !Z.mul_1_r. rewrite <- Zle_Qle.
    now apply round_div_ge.
  - rewrite Qred_correct.
    assert (Hp : (0 < 2 ^ (- u))%Z) by (apply Z.pow_pos_nonneg; lia).
    unfold Qle. simpl Qnum. simpl Qden. rewrite Z2Pos.id by assumption.
    rewrite Z.mul_1_r.
    apply round_div_ge; [assumption|]. nia.
Qed.

Lemma round_pos_le n d k :
  (0 < n)%Z -> (0 < d)%Z -> (n < 2 ^ 53 * d)%Z ->
  (n <= k * d)%Z -> (round_pos n d <= inject_Z k)%Q.
Proof.
  intros Hn Hd H Hk. unfold round_pos.
  pose proof (exponent_le n d Hn Hd H) as He.
  set (u := Z.max (exponent n d - 52) (-1074)).
  assert (Hu : (u <= 0)%Z) by lia.
  destruct (0 <=? u)%Z eqn:Hs.
  - apply Z.leb_le in Hs. replace u with 0%Z by lia.
    rewrite Z.pow_0_r, !Z.mul_1_r. rewrite <- Zle_Qle.
    now apply round_div_le.
  - rewrite Qred_correct.
    assert (Hp : (0 < 2 ^ (- u))%Z) by (apply Z.pow_pos_nonneg; lia).
    unfold Qle. simpl Qnum. simpl Qden. rewrite Z2Pos.id by assumption.
    rewrite Z.mul_1_r.
    apply round_div_le; [assumption|]. nia.
Qed.

Lemma round_double_compat q q' : (q == q')%Q -> round_double q = round_double q'.
Proof. intros H. unfold round_double. now rewrite (Qred_complete q q' H). Qed.

(** Rounding keeps a value on its side of every whole number, as long as
    the value is below 2^53 in size. *)
Lemma round_double_ge q k :
  (0 < q)%Q -> (q < inject_Z (2 ^ 53))%Q ->
  (inject_Z k <= q)%Q -> (inject_Z k <= round_double q)%Q.
Proof.
  intros Hpos Hlt Hk. unfold round_double.
  pose proof (Qred_correct q) as E.
  rewrite <- E in Hpos, Hlt, Hk.
  destruct (Qred q) as [n d]. unfold Qlt, Qle in *. simpl in *.
  destruct n as [|n|n]; try lia.
  apply round_pos_ge; lia.
Qed.

Lemma round_double_le q k :
  (0 < q)%Q -> (q < inject_Z (2 ^ 53))%Q ->
  (q <= inject_Z k)%Q -> (round_double q <= inject_Z k)%Q.
Proof.
  intros Hpos Hlt Hk. unfold round_double.
  pose proof (Qred_correct q) as E.
  rewrite <- E in Hpos, Hlt, Hk.
  destruct (Qred q) as [n d]. unfold Qlt, Qle in *. simpl in *.
  destruct n as [|n|n]; try lia.
  apply round_pos_le; lia.
Qed.

Lemma Qred_inject_Z z : Qred (inject_Z z) = inject_Z z.
Proof.
  unfold Qred, inject_Z.
  pose proof (Z.ggcd_gcd z 1) as G.
  pose proof (Z.ggcd_correct_divisors z 1) as D.
  destruct (Z.ggcd z 1) as [g [a b]]. simpl in G.
  rewrite Z.gcd_1_r in G. subst g. destruct D as [Da Db].
  replace a with z by lia. replace b with 1%Z by lia. reflexivity.
Qed.

Lemma Qred_idem q : Qred (Qred q) = Qred q.
Proof. apply Qred_complete, Qred_correct. Qed.

Lemma round_pos_red n d : Qred (round_pos n d) = round_pos n d.
Proof.
  unfold round_pos. destruct (0 <=? _)%Z; [apply Qred_inject_Z | apply Qred_idem].
Qed.

(** A rounded value is in lowest terms, so that two of them are the same
    number only if they are the same fraction. *)
Lemma round_double_red q : Qred (round_double q) = round_double q.
Proof.
  unfold round_double. destruct (Qnum (Qred q)).
  - reflexivity.
  - apply round_pos_red.
  - rewrite Qred_opp. now rewrite round_pos_red.
Qed.

Lemma round_double_eq q z : (round_double q == inject_Z z)%Q -> round_double q = inject_Z z.
Proof.
  intros H. rewrite <- round_double_red, <- Qred_inject_Z. now apply Qred_complete.
Qed.

(** Whole numbers below 2^53 in size are doubles. *)
Lemma round_double_pos_int z :
  (0 < z < 2 ^ 53)%Z -> round_double (inject_Z z) = inject_Z z.
Proof.
  intros Hz. apply round_double_eq. apply Qle_antisym.
  - apply round_double_le; [| |apply Qle_refl]; unfold Qlt; simpl; lia.
  - apply round_double_ge; [| |apply Qle_refl]; unfold Qlt; simpl; lia.
Qed.

Lemma round_double_int z :
  (Z.abs z < 2 ^ 53)%Z -> round_double (inject_Z z) = inject_Z z.
Proof.
  intros Hz. destruct z as [|p|p].
  - reflexivity.
  - apply round_double_pos_int. lia.
  - pose proof (round_double_pos_int (Zpos p) ltac:(lia)) as H.
    assert (E : round_double (inject_Z (Z.pos p)) = round_pos (Z.pos p) 1)
      by (unfold round_double; rewrite Qred_inject_Z; reflexivity).
    assert (E' : round_double (inject_Z (Z.neg p)) = Qopp (round_pos (Z.pos p) 1))
      by (unfold round_double; rewrite Qred_inject_Z; reflexivity).
    rewrite E', <- E, H. reflexivity.
Qed.

Lemma to_number_compat q q' : (q == q')%Q -> to_number q = to_number q'.
Proof. intros H. unfold to_number. now rewrite (round_double_compat q q' H). Qed.

Lemma of_Z_int z : (Z.abs z <= 2 ^ 53)%Z -> of_Z z = Finite (inject_Z z).
Proof.
  intros Hz.
  destruct (Z.eq_dec z (2 ^ 53)) as [-> | Hp]; [vm_compute; reflexivity|].
  destruct (Z.eq_dec z (- 2 ^ 53)) as [-> | Hm]; [vm_compute; reflexivity|].
  unfold of_Z, to_number. rewrite round_double_int by lia.
  destruct (Qle_bool (inject_Z (2 ^ 1024)) (Qabs (inject_Z z))) eqn:E; [|reflexivity].
  exfalso. apply Qle_bool_iff in E.
  change (Qabs (inject_Z z)) with (inject_Z (Z.abs z)) in E.
  rewrite <- Zle_Qle in E.
  assert (2 ^ 53 < 2 ^ 1024)%Z by (apply Z.pow_lt_mono_r; lia). lia.
Qed.

(** ** Arithmetic on whole numbers *)

Lemma num_add_int a b :
  (Z.abs (a + b) <= 2 ^ 53)%Z ->
  num_add (Finite (inject_Z a)) (Finite (inject_Z b)) = Finite (inject_Z (a + b)).
Proof.
  intros H. cbn [num_add].
  rewrite (to_number_compat _ (inject_Z (a + b))) by (now rewrite inject_Z_plus).
  now apply of_Z_int.
Qed.

Lemma num_sub_int a b :
  (Z.abs (a - b) <= 2 ^ 53)%Z ->
  num_sub (Finite (inject_Z a)) (Finite (inject_Z b)) = Finite (inject_Z (a - b)).
Proof.
  intros H. unfold num_sub. cbn [num_opp num_add].
  rewrite (to_number_compat _ (inject_Z (a - b))).
  - now apply of_Z_int.
  - unfold Z.sub. rewrite inject_Z_plus, inject_Z_opp. reflexivity.
Qed.

Lemma num_mul_int a b :
  (Z.abs (a * b) <= 2 ^ 53)%Z ->
  num_mul (Finite (inject_Z a)) (Finite (inject_Z b)) = Finite (inject_Z (a * b)).
Proof.
  intros H. cbn [num_mul].
  rewrite (to_number_compat _ (inject_Z (a * b))) by (now rewrite inject_Z_mult).
  now apply of_Z_int.
Qed.

Lemma num_ltb_int a b :
  num_ltb (Finite (inject_Z a)) (Finite (inject_Z b)) = (a <? b)%Z.
Proof.
  cbn [num_ltb]. unfold Qle_bool. simpl. rewrite !Z.mul_1_r.
  rewrite Z.ltb_antisym. reflexivity.
Qed.



Lemma as_integer_int z : as_integer (Finite (inject_Z z)) = Some z.
Proof. unfold as_integer. now rewrite Qred_inject_Z. Qed.


(** * Properties *)

Local Open Scope list_scope.

(** Closes [NoDup l] for a list [l] of literal ids. *)
Ltac distinct_ids :=
  repeat (constructor; [simpl; intuition discriminate|]); constructor.

(** ** The category tree *)

Section MapM.
Context {A B : Type}.

Lemma mapM_Forall2 (f : A -> option B) l ys :
  mapM f l = Some ys -> Forall2 (fun x y => f x = Some y) l ys.
Proof.
  revert ys; induction l as [|x l IH]; simpl; intros ys H.
  - injection H as <-. constructor.
  - destruct (f x) as [y|] eqn:Hx; [|discriminate].
    destruct (mapM f l) as [ys'|]; [|discriminate].
    injection H as <-. constructor; auto.
Qed.

Lemma mapM_total (f : A -> option B) l :
  (forall x, In x l -> exists y, f x = Some y) -> exists ys, mapM f l = Some ys.
Proof.
  induction l as [|x l IH]; simpl; intros H.
  - eauto.
  - destruct (H x (or_introl eq_refl)) as [y ->].
    destruct IH as [ys ->]; eauto.
Qed.

Lemma mapM_mono (f g : A -> option B) l ys :
  (forall x y, In x l -> f x = Some y -> g x = Some y) ->
  mapM f l = Some ys -> mapM g l = Some ys.
Proof.
  revert ys; induction l as [|x l IH]; simpl; intros ys Hfg H; [assumption|].
  destruct (f x) as [y|] eqn:Hx; [|discriminate].
  destruct (mapM f l) as [ys'|] eqn:Hl; [|discriminate].
  rewrite (Hfg x y (or_introl eq_refl) Hx), (IH ys'); auto.
Qed.
End MapM.

Lemma Forall2_in_r {A B} (R : A -> B -> Prop) l l' y :
  Forall2 R l l' -> In y l' -> exists x, In x l /\ R x y.
Proof.
  induction 1 as [|x y' l l' HR _ IH]; simpl; [tauto|].
  intros [<-|Hy]; [eauto|]. destruct (IH Hy) as (x' & ? & ?); eauto.
Qed.

Lemma Forall2_in_l {A B} (R : A -> B -> Prop) l l' x :
  Forall2 R l l' -> In x l -> exists y, In y l' /\ R x y.
Proof.
  induction 1 as [|x' y l l' HR _ IH]; simpl; [tauto|].
  intros [<-|Hx]; [eauto|]. destruct (IH Hx) as (y' & ? & ?); eauto.
Qed.

Lemma is_child_spec p c :
  is_child p c = true <-> Category.parentCategory c = p.
Proof.
  unfold is_child. destruct p as [p|], (Category.parentCategory c) as [q|];
    split; try congruence.
  - intros H. apply String.eqb_eq in H. congruence.
  - intros H. injection H as ->. apply String.eqb_refl.
Qed.

Lemma buildTree_unfold fuel cs p :
  buildTree (S fuel) cs p =
  mapM (fun c => match buildTree fuel cs (Some (Category._id c)) with
                 | None => None
                 | Some sub => Some (project c sub)
                 end) (filter (is_child p) cs).
Proof. reflexivity. Qed.

Lemma buildTree_S fuel cs p t :
  buildTree fuel cs p = Some t -> buildTree (S fuel) cs p = Some t.
Proof.
  revert p t. induction fuel as [|f IH]; intros p t H; [discriminate|].
  rewrite buildTree_unfold in H. rewrite buildTree_unfold.
  revert H. apply mapM_mono. intros c n _.
  destruct (buildTree f cs (Some (Category._id c))) as [sub|] eqn:Hs; [|discriminate].
  now rewrite (IH _ _ Hs).
Qed.

Lemma buildTree_fuel_le fuel fuel' cs p t :
  fuel <= fuel' -> buildTree fuel cs p = Some t -> buildTree fuel' cs p = Some t.
Proof.
  induction 1; auto using buildTree_S.
Qed.

(** What one level of [buildTree] returns: a node per matching category,
    in the collection's order, around the subtree under that category. *)
Lemma buildTree_level fuel cs p t :
  buildTree (S fuel) cs p = Some t ->
  Forall2 (fun c n => exists sub,
             buildTree fuel cs (Some (Category._id c)) = Some sub /\
             n = project c sub)
          (filter (is_child p) cs) t.
Proof.
  intros H. rewrite buildTree_unfold in H. apply mapM_Forall2 in H.
  eapply Forall2_impl; [|exact H]. intros c n Hn. cbv beta in Hn.
  destruct (buildTree fuel cs (Some (Category._id c))) as [sub|]; [|discriminate].
  injection Hn as <-. eauto.
Qed.

(** *** Parent chains *)

Section Chains.
Variable cs : list Category.t.

Lemma descends_pos n p i : descends cs n p i -> 1 <= n.
Proof. destruct 1; lia. Qed.

(** A chain read from its lower end: the last link is [i]'s own parent
    reference. *)
Lemma descends_last n p i :
  descends cs n p i ->
  exists c, In c cs /\ Category._id c = i /\
    ((n = 1 /\ Category.parentCategory c = p) \/
     (exists m q, n = S m /\ Category.parentCategory c = Some q /\
                  descends cs m p q)).
Proof.
  induction 1 as [p c Hc Hp | n p c i Hc Hp _ IH].
  - exists c. apply is_child_spec in Hp. split; [|split]; auto.
  - destruct IH as (c' & Hc' & Hi & [[-> Hq] | (m & q & -> & Hq & Hd)]);
      exists c'; (split; [|split]; auto); right.
    + exists 1, (Category._id c). split; [|split]; auto. now constructor.
    + exists (S m), q. split; [|split]; auto.
      now apply (descends_step cs m p c q).
Qed.

Lemma descends_snoc n p q c :
  descends cs n p q -> In c cs -> Category.parentCategory c = Some q ->
  descends cs (S n) p (Category._id c).
Proof.
  intros H Hc Hq. induction H as [p c' Hc' Hp | n p c' i Hc' Hp _ IH].
  - apply (descends_step cs 1 p c'); auto.
    constructor; auto. now apply is_child_spec.
  - apply (descends_step cs (S n) p c'); auto.
Qed.

Lemma descends_trans n m p q i :
  descends cs n p q -> descends cs m (Some q) i -> descends cs (n + m) p i.
Proof.
  induction 1 as [p c Hc Hp | n p c j Hc Hp _ IH]; intros Hm; simpl.
  - now apply (descends_step cs m p c i).
  - apply (descends_step cs (n + m) p c i); auto.
Qed.

Hypothesis unique_ids : NoDup (map Category._id cs).

Lemma category_by_id c c' :
  In c cs -> In c' cs -> Category._id c = Category._id c' -> c = c'.
Proof.
  clear -unique_ids. induction cs as [|x l IH]; simpl; [tauto|].
  simpl in unique_ids. inversion unique_ids as [|? ? Hx Hl]; subst.
  intros [<-|Hc] [<-|Hc'] E; auto.
  - exfalso. apply Hx. rewrite E. now apply in_map.
  - exfalso. apply Hx. rewrite <- E. now apply in_map.
Qed.

(** The depth of a category under the roots is determined. *)
Lemma depth_unique n m i :
  descends cs n None i -> descends cs m None i -> n = m.
Proof.
  revert m i. induction n as [|n IH]; intros m i Hn Hm.
  - apply descends_pos in Hn. lia.
  - apply descends_last in Hn. apply descends_last in Hm.
    destruct Hn as (c & Hc & Hi & Hn), Hm as (c' & Hc' & Hi' & Hm).
    assert (c' = c) as -> by (apply category_by_id; congruence).
    destruct Hn as [[E Hp] | (n' & q & E & Hp & Hd)],
             Hm as [[-> Hp'] | (m' & q' & -> & Hp' & Hd')]; try congruence.
    injection E as <-. f_equal. apply (IH m' q); auto.
    congruence.
Qed.

(** So is its ancestor a given number of links up. *)
Lemma ancestor_unique n a b i :
  descends cs n (Some a) i -> descends cs n (Some b) i -> a = b.
Proof.
  revert i. induction n as [|n IH]; intros i Ha Hb.
  - apply descends_pos in Ha. lia.
  - apply descends_last in Ha. apply descends_last in Hb.
    destruct Ha as (c & Hc & Hi & Ha), Hb as (c' & Hc' & Hi' & Hb).
    assert (c' = c) as -> by (apply category_by_id; congruence).
    destruct Ha as [[E Hp] | (n' & q & E & Hp & Hd)],
             Hb as [[E' Hp'] | (m' & q' & E' & Hp' & Hd')]; try congruence.
    + subst. apply descends_pos in Hd'. lia.
    + subst. apply descends_pos in Hd. lia.
    + injection E as <-. injection E' as <-.
      apply (IH q); auto. congruence.
Qed.

(** A chain of [n] links down from a root passes through [n] different
    stored categories, so no chain is longer than the collection. *)
Lemma depth_chain n i :
  descends cs n None i ->
  exists l, NoDup l /\ List.length l = n /\ incl l (map Category._id cs) /\
    forall j, In j l -> exists m, m <= n /\ descends cs m None j.
Proof.
  revert i. induction n as [|n IH]; intros i H.
  - apply descends_pos in H. lia.
  - pose proof H as H0. apply descends_last in H.
    destruct H as (c & Hc & Hi & [[E Hp] | (m & q & E & Hp & Hd)]).
    + exists [i]. repeat split.
      * constructor; [simpl; tauto | constructor].
      * simpl. congruence.
      * intros j [<-|[]]. subst i. now apply in_map.
      * intros j [<-|[]]. eauto.
    + injection E as ->. destruct (IH q Hd) as (l & Hnd & Hlen & Hincl & Hl).
      exists (i :: l). repeat split.
      * constructor; auto. intros Hin. destruct (Hl i Hin) as (k & Hk & Hdk).
        pose proof (depth_unique _ _ _ H0 Hdk). lia.
      * simpl. congruence.
      * intros j [<-|Hj]; [subst i; now apply in_map | auto].
      * intros j [<-|Hj]; [eauto|]. destruct (Hl j Hj) as (k & ? & ?). eauto.
Qed.

Lemma depth_bound n i : descends cs n None i -> n <= List.length cs.
Proof.
  intros H. destruct (depth_chain n i H) as (l & Hnd & <- & Hincl & _).
  rewrite <- (length_map Category._id cs). now apply NoDup_incl_length.
Qed.
End Chains.

(** *** Termination and shape of [buildTree] *)

Lemma tree_ids_cons n t :
  tree_ids (n :: t) = n_id n :: tree_ids (children n) ++ tree_ids t.
Proof.
  unfold tree_ids, forest_nodes. destruct n. simpl. now rewrite map_app.
Qed.

Lemma Forall2_map_eq {A B C} (f : A -> C) (g : B -> C) l l' :
  Forall2 (fun x y => g y = f x) l l' -> map g l' = map f l.
Proof. induction 1; simpl; congruence. Qed.

Lemma NoDup_map_filter {A B} (f : A -> B) (h : A -> bool) l :
  NoDup (map f l) -> NoDup (map f (filter h l)).
Proof.
  induction l as [|x l IH]; simpl; intros H; [constructor|].
  inversion H as [|? ? Hx Hl]; subst.
  destruct (h x); simpl; auto. constructor; auto.
  intros Hin. apply Hx. apply in_map_iff in Hin. destruct Hin as (y & <- & Hy).
  apply in_map. apply filter_In in Hy. tauto.
Qed.

Section BuildTree.
Variable cs : list Category.t.
Hypothesis unique_ids : NoDup (map Category._id cs).

Lemma child_depth p d c :
  under_root cs p d -> In c cs -> is_child p c = true ->
  descends cs (S d) None (Category._id c).
Proof.
  intros Hp Hc Hch. destruct p as [q|]; simpl in Hp.
  - apply descends_snoc with q; auto. now apply is_child_spec.
  - subst d. now constructor.
Qed.

Lemma buildTree_total fuel :
  forall p d, under_root cs p d -> List.length cs < fuel + d ->
              exists t, buildTree fuel cs p = Some t.
Proof.
  induction fuel as [|f IH]; intros p d Hp Hlt.
  - exfalso. destruct p as [q|]; simpl in Hp.
    + apply depth_bound in Hp; auto. lia.
    + lia.
  - rewrite buildTree_unfold. apply mapM_total. intros c Hc.
    apply filter_In in Hc. destruct Hc as [Hc Hch].
    destruct (IH (Some (Category._id c)) (S d)) as [sub ->].
    + simpl. eapply child_depth; eauto.
    + lia.
    + eauto.
Qed.

Lemma buildTree_shape fuel :
  forall p t, buildTree fuel cs p = Some t ->
    map n_id t = map Category._id (filter (is_child p) cs) /\
    forall n, In n (forest_nodes t) ->
      (exists c, In c cs /\ n = project c (children n)) /\
      map n_id (children n) =
        map Category._id (filter (is_child (Some (n_id n))) cs).
Proof.
  induction fuel as [|f IH]; intros p t H; [discriminate|].
  apply buildTree_level in H. split.
  - apply Forall2_map_eq. eapply Forall2_impl; [|exact H].
    intros c n (sub & _ & ->). reflexivity.
  - intros n Hn. apply in_flat_map in Hn. destruct Hn as (n0 & Hn0 & Hn).
    destruct (Forall2_in_r _ _ _ _ H Hn0) as (c & Hc & sub & Hsub & ->).
    apply filter_In in Hc. destruct (IH _ _ Hsub) as [Hids Hrec].
    simpl in Hn. destruct Hn as [<-|Hn].
    + split; [exists c; tauto | exact Hids].
    + apply Hrec. exact Hn.
Qed.

(** The nodes built for a list [l] of children of [p], each around the
    subtree of its category: no id occurs twice, and every id is one of
    [l] or lies under one of [l]. *)
Lemma level_ids f p d :
  under_root cs p d ->
  (forall c sub, In c cs -> is_child p c = true ->
     buildTree f cs (Some (Category._id c)) = Some sub ->
     NoDup (tree_ids sub) /\
     forall i, In i (tree_ids sub) ->
               exists n, descends cs n (Some (Category._id c)) i) ->
  forall l t,
    (forall c, In c l -> In c cs /\ is_child p c = true) ->
    NoDup (map Category._id l) ->
    Forall2 (fun c n => exists sub,
               buildTree f cs (Some (Category._id c)) = Some sub /\
               n = project c sub) l t ->
    NoDup (tree_ids t) /\
    forall i, In i (tree_ids t) ->
      exists c, In c l /\
        (i = Category._id c \/ exists n, descends cs n (Some (Category._id c)) i).
Proof.
  intros Hp IH l t Hl Hnd H.
  induction H as [|c n l t (sub & Hsub & ->) _ IHl].
  - split; [constructor | intros i []].
  - inversion Hnd as [|? ? Hc Hnd']; subst.
    destruct (Hl c (or_introl eq_refl)) as [Hcs Hch].
    destruct (IH c sub Hcs Hch Hsub) as [Hsub_nd Hsub_in].
    destruct IHl as [Ht_nd Ht_in]; auto.
    { intros c' Hc'. apply Hl. now right. }
    pose proof (child_depth p d c Hp Hcs Hch) as Hdc.
    (* ids strictly under [c] lie deeper than [c] *)
    assert (Hdeep : forall i, In i (tree_ids sub) ->
              exists m, descends cs m (Some (Category._id c)) i /\
                        descends cs (S d + m) None i).
    { intros i Hi. destruct (Hsub_in i Hi) as (m & Hm). exists m. split; auto.
      eapply descends_trans; eauto. }
    (* ids of the remaining nodes: at depth S d, or deeper under another *)
    assert (Hrest : forall i, In i (tree_ids t) ->
              exists c', In c' l /\
                ((i = Category._id c' /\ descends cs (S d) None i) \/
                 exists m, descends cs m (Some (Category._id c')) i /\
                           descends cs (S d + m) None i)).
    { intros i Hi. destruct (Ht_in i Hi) as (c' & Hc' & Hcase).
      exists c'. split; auto.
      destruct (Hl c' (or_intror Hc')) as [Hcs' Hch'].
      pose proof (child_depth p d c' Hp Hcs' Hch') as Hdc'.
      destruct Hcase as [-> | (m & Hm)]; [left; auto | right].
      exists m. split; auto. eapply descends_trans; eauto. }
    rewrite tree_ids_cons. simpl. split.
    + constructor.
      * intros Hin. apply in_app_or in Hin. destruct Hin as [Hin|Hin].
        -- destruct (Hdeep _ Hin) as (m & Hm & Hd).
           pose proof (depth_unique cs unique_ids _ _ _ Hdc Hd).
           apply descends_pos in Hm. lia.
        -- destruct (Hrest _ Hin) as (c' & Hc' & [[E _] | (m & Hm & Hd)]).
           ++ apply Hc. rewrite E. now apply in_map.
           ++ pose proof (depth_unique cs unique_ids _ _ _ Hdc Hd).
              apply descends_pos in Hm. lia.
      * apply NoDup_app; repeat split; auto.
        intros i Hi Hi'.
        destruct (Hdeep _ Hi) as (m & Hm & Hd).
        destruct (Hrest _ Hi') as (c' & Hc' & [[E Hd'] | (m' & Hm' & Hd')]).
        -- pose proof (depth_unique cs unique_ids _ _ _ Hd Hd').
           apply descends_pos in Hm. lia.
        -- pose proof (depth_unique cs unique_ids _ _ _ Hd Hd') as E.
           assert (m' = m) as -> by lia.
           pose proof (ancestor_unique cs unique_ids _ _ _ _ Hm Hm') as E'.
           apply Hc. rewrite E'. now apply in_map.
    + intros i [<-|Hi]; [exists c; simpl; auto|].
      apply in_app_or in Hi. destruct Hi as [Hi|Hi].
      * exists c. split; [now left|]. right. now apply Hsub_in.
      * destruct (Ht_in i Hi) as (c' & Hc' & Hcase). exists c'. split; [now right|auto].
Qed.

Lemma buildTree_ids fuel :
  forall p d t, under_root cs p d -> buildTree fuel cs p = Some t ->
    NoDup (tree_ids t) /\
    forall i, In i (tree_ids t) -> exists n, descends cs n p i.
Proof.
  induction fuel as [|f IH]; intros p d t Hp H; [discriminate|].
  apply buildTree_level in H.
  destruct (level_ids f p d Hp) with (l := filter (is_child p) cs) (t := t)
    as [Hnd Hin]; auto.
  - intros c sub Hc Hch Hsub. apply (IH _ (S d) _); auto.
    simpl. eapply child_depth; eauto.
  - intros c Hc. now apply filter_In in Hc.
  - now apply NoDup_map_filter.
  - split; auto. intros i Hi. destruct (Hin i Hi) as (c & Hc & Hcase).
    apply filter_In in Hc. destruct Hc as [Hc Hch].
    destruct Hcase as [-> | (n & Hn)].
    + exists 1. now constructor.
    + exists (S n). now apply (descends_step cs n p c i).
Qed.

Lemma buildTree_complete n p i :
  descends cs n p i ->
  forall fuel t, buildTree fuel cs p = Some t -> In i (tree_ids t).
Proof.
  induction 1 as [p c Hc Hch | n p c i Hc Hch _ IH]; intros fuel t H;
    (destruct fuel as [|f]; [discriminate|]); apply buildTree_level in H;
    assert (Hf : In c (filter (is_child p) cs)) by (apply filter_In; auto);
    destruct (Forall2_in_l _ _ _ _ H Hf) as (nd & Hnd & sub & Hsub & ->);
    apply in_split in Hnd; destruct Hnd as (t1 & t2 & ->);
    unfold tree_ids, forest_nodes; rewrite flat_map_app, map_app;
    apply in_or_app; right; simpl.
  - now left.
  - right. rewrite map_app. apply in_or_app. left. exact (IH _ _ Hsub).
Qed.
End BuildTree.

Lemma find_active_unique stored :
  NoDup (map Category._id stored) -> NoDup (map Category._id (find_active stored)).
Proof. apply NoDup_map_filter. Qed.

Lemma filter_ids_spec cs p c :
  NoDup (map Category._id cs) -> In c cs ->
  In (Category._id c) (map Category._id (filter (is_child p) cs)) <->
  Category.parentCategory c = p.
Proof.
  intros Hnd Hc. rewrite in_map_iff. split.
  - intros (c' & E & Hc'). apply filter_In in Hc'. destruct Hc' as [Hc' Hch].
    assert (c' = c) as -> by (apply (category_by_id cs); auto).
    now apply is_child_spec.
  - intros Hp. exists c. split; auto. apply filter_In. split; auto.
    now apply is_child_spec.
Qed.

(** Running over stored data that contains cycles: the members of the cycles
    are left out and the call returns. *)
Example buildTree_cyclic :
  buildTree 6 cyclic_categories None
  = Some [leaf "a1" "A" [leaf "b2" "B" []]].
Proof. reflexivity. Qed.

(** C2. Over any stored collection of categories (ids are unique in a
    collection), cyclic parent references included, [getCategoryTree]'s
    [buildTree()] returns: any recursion bound above the number of
    categories yields one and the same tree; and a category that no chain of
    parent references connects to a null-parent root does not occur in it. *)
Theorem getCategoryTree_terminates (stored : list Category.t) :
  NoDup (map Category._id stored) ->
  exists tree,
    (forall fuel, List.length stored < fuel ->
                  getCategoryTree fuel stored = Some tree) /\
    (forall i, ~ reachable (find_active stored) i -> ~ In i (tree_ids tree)).
Proof.
  intros Hnd. apply find_active_unique in Hnd.
  set (cs := find_active stored) in *.
  assert (Hlen : List.length cs <= List.length stored) by apply filter_length_le.
  destruct (buildTree_total cs Hnd (S (List.length cs)) None 0) as [tree Ht];
    [reflexivity | lia |].
  exists tree. split.
  - intros fuel Hf. unfold getCategoryTree. fold cs.
    apply (buildTree_fuel_le (S (List.length cs))); [lia | exact Ht].
  - intros i Hnot Hin.
    destruct (buildTree_ids cs Hnd _ None 0 tree eq_refl Ht) as [_ Hsound].
    apply Hnot. exact (Hsound i Hin).
Qed.

Lemma getCategoryTree_terminates_witness :
  exists tree,
    (forall fuel, List.length cyclic_categories < fuel ->
                  getCategoryTree fuel cyclic_categories = Some tree) /\
    (forall i, ~ reachable (find_active cyclic_categories) i ->
               ~ In i (tree_ids tree)).
Proof.
  apply (getCategoryTree_terminates cyclic_categories).
  distinct_ids.
Defined.

(** With unique ids the recursion returns, and returns the same tree under
    every bound above the number of categories. *)
Lemma buildTree_returns (cs : list Category.t) :
  NoDup (map Category._id cs) ->
  exists tree, forall fuel, List.length cs < fuel -> buildTree fuel cs None = Some tree.
Proof.
  intros Hnd.
  destruct (buildTree_total cs Hnd (S (List.length cs)) None 0) as [tree Ht];
    [reflexivity | lia |].
  exists tree. intros fuel Hf.
  apply (buildTree_fuel_le (S (List.length cs))); [lia | exact Ht].
Qed.

(** C9. For categories with unique ids (every cycle-free stored set is one),
    [buildTree()] returns a tree, the same under every recursion bound above
    the number of categories.  Its roots are exactly the categories without
    [parentCategory]; every node, at any depth, is the projection (_id,
    name, slug, description, image) of a category and has as children
    exactly the categories whose [parentCategory] is the node's id; each
    category reachable from a root has exactly one node and no other has
    any; and on {A, B under A, C under B, D} the roots are A and D with
    A -> B -> C nested. *)
Theorem buildTree_tree (cs : list Category.t) :
  NoDup (map Category._id cs) ->
  exists tree,
    (forall fuel, List.length cs < fuel -> buildTree fuel cs None = Some tree) /\
    (forall c, In c cs ->
       (In (Category._id c) (map n_id tree) <-> Category.parentCategory c = None)) /\
    (forall n, In n (forest_nodes tree) ->
       (exists c, In c cs /\ n = project c (children n)) /\
       (forall c, In c cs ->
          (In (Category._id c) (map n_id (children n)) <->
           Category.parentCategory c = Some (n_id n)))) /\
    NoDup (tree_ids tree) /\
    (forall i, In i (tree_ids tree) <-> reachable cs i) /\
    buildTree 5 example_categories None
    = Some [leaf "a1" "A" [leaf "b2" "B" [leaf "c3" "C" []]]; leaf "d4" "D" []].
Proof.
  intros Hnd.
  destruct (buildTree_returns cs Hnd) as [tree Hret].
  pose proof (Hret (S (List.length cs)) ltac:(lia)) as Ht.
  set (fuel := S (List.length cs)) in Ht.
  destruct (buildTree_shape cs fuel None tree Ht) as [Hroots Hnodes].
  destruct (buildTree_ids cs Hnd fuel None 0 tree eq_refl Ht) as [Hnodup Hsound].
  exists tree. split; [exact Hret|].
  repeat split.
  - rewrite Hroots. now apply filter_ids_spec.
  - rewrite Hroots. now apply filter_ids_spec.
  - now apply Hnodes.
  - destruct (Hnodes n H) as [_ ->]. now apply filter_ids_spec.
  - destruct (Hnodes n H) as [_ ->]. now apply filter_ids_spec.
  - exact Hnodup.
  - apply Hsound.
  - intros [n Hn]. exact (buildTree_complete cs n None i Hn fuel tree Ht).
Qed.

Lemma buildTree_tree_witness :
  exists tree,
    tree = [leaf "a1" "A" [leaf "b2" "B" [leaf "c3" "C" []]]; leaf "d4" "D" []] /\
    (forall fuel, List.length example_categories < fuel ->
                  buildTree fuel example_categories None = Some tree) /\
    NoDup (tree_ids tree) /\
    (forall i, In i (tree_ids tree) <-> reachable example_categories i).
Proof.
  assert (Hnd : NoDup (map Category._id example_categories)).
  { distinct_ids. }
  destruct (buildTree_tree example_categories Hnd) as (tree & Hret & _ & _ & H1 & H2 & _).
  exists tree. split; [|split; [exact Hret | split; assumption]].
  pose proof (Hret 5 ltac:(simpl; lia)) as H5.
  change (buildTree 5 example_categories None)
    with (Some [leaf "a1" "A" [leaf "b2" "B" [leaf "c3" "C" []]]; leaf "d4" "D" []])
    in H5.
  now injection H5.
Defined.

(** ** The rating aggregate *)

Lemma accumulate_one productId (a : Acc) docs :
  a_key a = productId ->
  (forall r, In r docs -> Review.product r = productId) ->
  exists a', fold_left accumulate docs [a] = [a'] /\
    a_key a' = productId /\
    (a_sum a' == a_sum a + sum_ratings docs)%Q /\
    a_count a' = (a_count a + Z.of_nat (List.length docs))%Z.
Proof.
  revert a. induction docs as [|r docs IH]; intros a Ha Hdocs.
  - exists a. simpl. repeat split; auto; [ring | lia].
  - simpl fold_left. rewrite Ha, (Hdocs r (or_introl eq_refl)), String.eqb_refl.
    destruct (IH {| a_key := productId;
                    a_sum := (a_sum a + Review.rating r)%Q;
                    a_count := (a_count a + 1)%Z |})
      as (a' & -> & Hk & Hs & Hc); auto.
    { intros r' Hr'. apply Hdocs. now right. }
    exists a'. repeat split; auto.
    + rewrite Hs. simpl. ring.
    + rewrite Hc. simpl a_count. simpl List.length. lia.
Qed.

(** The pipeline over the reviews of one product: no document when there is
    no review, else one document holding their mean, as a double, and their
    number. *)
Lemma group_by_product_spec productId docs :
  (forall r, In r docs -> Review.product r = productId) ->
  match docs with
  | [] => group_by_product docs = []
  | _ => exists st, group_by_product docs = [st] /\
           s_id st = productId /\
           averageRating st = double_mean docs /\
           numberOfReviews st = Z.of_nat (List.length docs)
  end.
Proof.
  intros Hdocs. destruct docs as [|r docs]; [reflexivity|].
  unfold group_by_product. simpl fold_left.
  destruct (accumulate_one productId
              {| a_key := Review.product r; a_sum := Review.rating r; a_count := 1 |}
              docs) as (a' & -> & Hk & Hs & Hc).
  { simpl. apply Hdocs. now left. }
  { intros r' Hr'. apply Hdocs. now right. }
  exists (finish a'). simpl a_sum in Hs. simpl a_count in Hc.
  repeat split; auto.
  - unfold finish, double_mean, mean_rating. simpl averageRating.
    apply round_double_compat.
    rewrite Hs, Hc. simpl sum_ratings. simpl List.length.
    replace (1 + Z.of_nat (List.length docs))%Z
      with (Z.of_nat (S (List.length docs))) by lia.
    reflexivity.
  - unfold finish. simpl. rewrite Hc. lia.
Qed.

Lemma match_product_all productId docs :
  forall r, In r (match_product productId docs) -> Review.product r = productId.
Proof.
  intros r Hr. apply filter_In in Hr. now apply String.eqb_eq.
Qed.

(** What [calculateAverageRating] leaves behind: it never throws, and it
    writes the mean, as a double, and the number of the product's reviews
    onto the first document with the product's id, if there is one. *)
Lemma calculateAverageRating_spec productId s :
  exists r n,
    r = double_mean (reviews_of s productId) /\
    n = Z.of_nat (List.length (reviews_of s productId)) /\
    (reviews_of s productId = [] -> r = 0%Q) /\
    calculateAverageRating productId s =
      (inr tt,
       match find (has_id productId) (products s) with
       | None => s
       | Some _ =>
           set_products (update_first (has_id productId) (set_rating r n)) s
       end).
Proof.
  unfold calculateAverageRating, aggregate, bind, gets.
  pose proof (group_by_product_spec productId _ (match_product_all productId (reviews s))) as H.
  change (match_product productId (reviews s)) with (reviews_of s productId) in *.
  destruct (reviews_of s productId) as [|r0 rs] eqn:E.
  - rewrite H. exists 0%Q, 0%Z. repeat split; try reflexivity.
    unfold findByIdAndUpdate_rating, bind, gets, modify, ret.
    now destruct (find (has_id productId) (products s)).
  - destruct H as (st & -> & _ & Havg & Hn).
    exists (averageRating st), (numberOfReviews st). repeat split; auto.
    + discriminate.
    + unfold findByIdAndUpdate_rating, bind, gets, modify, ret.
      now destruct (find (has_id productId) (products s)).
Qed.

Lemma update_first_none {A} (test : A -> bool) f l :
  find test l = None -> update_first test f l = l.
Proof.
  induction l as [|x l IH]; simpl; auto.
  destruct (test x); [discriminate|]. intros H. now rewrite IH.
Qed.

Lemma update_first_split {A} (test : A -> bool) f l x :
  find test l = Some x ->
  exists l1 l2, l = l1 ++ x :: l2 /\ update_first test f l = l1 ++ f x :: l2.
Proof.
  induction l as [|y l IH]; simpl; [discriminate|].
  destruct (test y) eqn:Hy.
  - intros [= ->]. now exists [], l.
  - intros H. destruct (IH H) as (l1 & l2 & -> & ->). now exists (y :: l1), l2.
Qed.

Lemma find_has_id productId l p :
  find (has_id productId) l = Some p -> In p l /\ Product._id p = productId.
Proof.
  intros H. apply find_some in H. destruct H as [Hin H].
  split; auto. now apply String.eqb_eq.
Qed.


Lemma find_update_first {A} (test : A -> bool) f l :
  (forall x, test (f x) = test x) ->
  find test (update_first test f l) = option_map f (find test l).
Proof.
  intros Hf. induction l as [|x l IH]; simpl; auto.
  destruct (test x) eqn:Hx; simpl.
  - now rewrite Hf, Hx.
  - now rewrite Hx.
Qed.

(** C7. When no review references the product, [calculateAverageRating]
    returns normally and the product document with that id is written with
    rating 0 and numReviews 0 (its other fields and all other documents are
    kept). *)
Theorem calculateAverageRating_no_reviews (s : Store) (productId : ObjectId) :
  (forall r, In r (reviews s) -> Review.product r <> productId) ->
  fst (calculateAverageRating productId s) = inr tt /\
  products (snd (calculateAverageRating productId s)) =
    update_first (has_id productId) (set_rating 0 0) (products s) /\
  forall p, find (has_id productId) (products s) = Some p ->
    find (has_id productId) (products (snd (calculateAverageRating productId s)))
    = Some (set_rating 0 0 p).
Proof.
  intros Hnone.
  assert (E : reviews_of s productId = []).
  { unfold reviews_of. destruct (filter _ (reviews s)) as [|r l] eqn:Hf; auto.
    assert (Hr : In r (filter (fun r => String.eqb (Review.product r) productId) (reviews s)))
      by (rewrite Hf; now left).
    apply filter_In in Hr. destruct Hr as [Hr Hp].
    apply String.eqb_eq in Hp. now destruct (Hnone r Hr). }
  destruct (calculateAverageRating_spec productId s) as (r & n & _ & Hn & Hr & ->).
  rewrite E in Hn. simpl in Hn. rewrite (Hr E), Hn. simpl fst. simpl snd.
  split; [reflexivity|].
  destruct (find (has_id productId) (products s)) as [p|] eqn:Hfind.
  - split; [reflexivity|]. intros p' [= <-]. simpl.
    rewrite find_update_first by reflexivity. now rewrite Hfind.
  - split; [now rewrite update_first_none | discriminate].
Qed.

Lemma calculateAverageRating_no_reviews_witness :
  find (has_id pid1)
       (products (snd (calculateAverageRating pid1 stale_store)))
  = Some (mkProduct pid1 "lamp" 3%Z 0%Q 0%Z).
Proof.
  assert (H : forall r, In r (reviews stale_store) -> Review.product r <> pid1).
  { simpl. intros r [<-|[]]. discriminate. }
  destruct (calculateAverageRating_no_reviews stale_store pid1 H) as (_ & _ & Hf).
  exact (Hf (mkProduct pid1 "lamp" 3%Z 4%Q 2%Z) eq_refl).
Defined.

(** C8. [calculateAverageRating] changes no review and no category; of the
    products it changes at most one document, one whose id is the given
    product's, and there only [rating] and [numReviews]; and when no product
    has that id it returns normally and leaves the store as it was. *)
Theorem calculateAverageRating_footprint (s : Store) (productId : ObjectId) :
  fst (calculateAverageRating productId s) = inr tt /\
  reviews (snd (calculateAverageRating productId s)) = reviews s /\
  categories (snd (calculateAverageRating productId s)) = categories s /\
  (products (snd (calculateAverageRating productId s)) = products s \/
   exists l1 p l2 r n,
     products s = l1 ++ p :: l2 /\ Product._id p = productId /\
     products (snd (calculateAverageRating productId s))
     = l1 ++ set_rating r n p :: l2) /\
  (find (has_id productId) (products s) = None ->
   calculateAverageRating productId s = (inr tt, s)).
Proof.
  destruct (calculateAverageRating_spec productId s) as (r & n & _ & _ & _ & ->).
  simpl fst. simpl snd.
  destruct (find (has_id productId) (products s)) as [p|] eqn:Hfind.
  - repeat split; try reflexivity; [|discriminate].
    right. destruct (update_first_split _ (set_rating r n) _ _ Hfind)
      as (l1 & l2 & E & E').
    exists l1, p, l2, r, n. apply find_has_id in Hfind. simpl. tauto.
  - repeat split; auto.
Qed.

Lemma calculateAverageRating_footprint_witness :
  calculateAverageRating cid1 stale_store = (inr tt, stale_store).
Proof.
  apply (calculateAverageRating_footprint stale_store cid1). reflexivity.
Defined.

(** *** Review writes keep the aggregates exact *)





Lemma bind_gets {A B} (f : Store -> A) (k : A -> Db B) s :
  bind (gets f) k s = k (f s) s.
Proof. reflexivity. Qed.












Example sample_ops_result :
  map (fun p => (Product.rating p, Product.numReviews p))
      (products (settle_all sample_ops fresh_store))
  = [((4878899596318037 # 1125899906842624)%Q, 3%Z); (0%Q, 0%Z)].
Proof. vm_compute. reflexivity. Qed.


(** ** Category and stock handlers *)

Lemma bind_ret {A B} (a : A) (k : A -> Db B) s : bind (ret a) k s = k a s.
Proof. reflexivity. Qed.

Lemma findById_category s raw :
  castObjectId raw <> None ->
  findById categories Category._id "_id" raw s = (inr (stored_category s raw), s).
Proof.
  unfold findById, stored_category. destruct (castObjectId raw); [reflexivity|congruence].
Qed.

Lemma findById_product s raw :
  castObjectId raw <> None ->
  findById products Product._id "_id" raw s = (inr (stored_product s raw), s).
Proof.
  unfold findById, stored_product. destruct (castObjectId raw); [reflexivity|congruence].
Qed.

Lemma bind_assoc {A B C} (m : Db A) (f : A -> Db B) (g : B -> Db C) s :
  bind (bind m f) g s = bind m (fun x => bind (f x) g) s.
Proof. unfold bind. destruct (m s) as [[e|a] s']; reflexivity. Qed.

Lemma bind_findById_category {B} raw (k : option Category.t -> Db B) s :
  castObjectId raw <> None ->
  bind (findById categories Category._id "_id" raw) k s = k (stored_category s raw) s.
Proof. intros H. unfold bind. now rewrite findById_category. Qed.

Lemma bind_findById_product {B} raw (k : option Product.t -> Db B) s :
  castObjectId raw <> None ->
  bind (findById products Product._id "_id" raw) k s = k (stored_product s raw) s.
Proof. intros H. unfold bind. now rewrite findById_product. Qed.

Lemma stored_category_cast s raw c :
  stored_category s raw = Some c -> castObjectId raw <> None.
Proof. unfold stored_category. destruct (castObjectId raw); congruence. Qed.

Lemma stored_product_cast s raw p :
  stored_product s raw = Some p -> castObjectId raw <> None.
Proof. unfold stored_product. destruct (castObjectId raw); congruence. Qed.

Lemma cast_nonempty raw : castObjectId raw <> None -> String.eqb raw "" = false.
Proof.
  unfold castObjectId. destruct raw; simpl; [congruence|reflexivity].
Qed.

(** An accepted update does write the new parent.  The guard compares the
    two ids as the request spells them, so the same id in another letter
    case is not caught by it. *)
Example updateCategory_accepts :
  option_map Category.parentCategory
    (stored_category
       (snd (handle (updateCategory (fun _ => true) cid1
                       {| b_name := Some "Home"; b_description := None;
                          b_parentCategory := JsNull; b_isActive := None |}) catalog))
       cid1)
  = Some None /\
  option_map Category.parentCategory
    (stored_category
       (snd (handle (updateCategory (fun _ => true) cid2 (reparent cid1)) shelf)) cid2)
  = Some (Some cid1) /\
  option_map Category.parentCategory
    (stored_category
       (snd (handle (updateCategory (fun _ => true) "64C000000000000000000002"
                       (reparent cid2)) catalog)) cid2)
  = Some (Some cid2).
Proof. repeat split; reflexivity. Qed.

(** C6. For a stored category: with N > 0 products in it, [deleteCategory]
    answers 400 naming N and deletes nothing; with no product but N > 0
    subcategories, it answers 400 naming N and deletes nothing; with neither,
    it removes the category and answers 200.  So the store changes only when
    both counts are zero. *)
Theorem deleteCategory_guard (s : Store) (id : string) (c : Category.t) :
  stored_category s id = Some c ->
  let products_in := count_products (Category._id c) s in
  let subcategories := count_subcategories (Category._id c) s in
  (0 < products_in ->
   handle (deleteCategory id) s
   = (Sent (fail 400 ("Cannot delete category with " ++ decimal products_in
                      ++ " products. Move products first.")), s)) /\
  (products_in = 0 -> 0 < subcategories ->
   handle (deleteCategory id) s
   = (Sent (fail 400 ("Cannot delete category with " ++ decimal subcategories
                      ++ " subcategories. Delete subcategories first.")), s)) /\
  (products_in = 0 -> subcategories = 0 ->
   handle (deleteCategory id) s
   = (Sent (ok 200 tt),
      set_categories
        (remove_first (fun x => String.eqb (Category._id x) (Category._id c))) s)) /\
  (snd (handle (deleteCategory id) s) <> s ->
   products_in = 0 /\ subcategories = 0).
Proof.
  intros Hc. pose proof (stored_category_cast _ _ _ Hc) as Hcast. simpl.
  assert (E : handle (deleteCategory id) s =
    if (0 <? count_products (Category._id c) s)%nat then
      (Sent (fail 400 ("Cannot delete category with "
                       ++ decimal (count_products (Category._id c) s)
                       ++ " products. Move products first.")), s)
    else if (0 <? count_subcategories (Category._id c) s)%nat then
      (Sent (fail 400 ("Cannot delete category with "
                       ++ decimal (count_subcategories (Category._id c) s)
                       ++ " subcategories. Delete subcategories first.")), s)
    else
      (Sent (ok 200 tt),
       set_categories
         (remove_first (fun x => String.eqb (Category._id x) (Category._id c))) s)).
  { unfold handle, deleteCategory.
    rewrite bind_findById_category, Hc by assumption. rewrite bind_gets.
    destruct (0 <? count_products (Category._id c) s)%nat; [reflexivity|].
    rewrite bind_gets.
    destruct (0 <? count_subcategories (Category._id c) s)%nat; reflexivity. }
  rewrite E. clear E.
  destruct (Nat.ltb_spec 0 (count_products (Category._id c) s)) as [Hp|Hp];
    destruct (Nat.ltb_spec 0 (count_subcategories (Category._id c) s)) as [Hs|Hs];
    repeat split; intros; try lia; try reflexivity; simpl in *; congruence.
Qed.

Lemma deleteCategory_guard_witness :
  handle (deleteCategory cid1) catalog
  = (Sent (fail 400 "Cannot delete category with 2 products. Move products first."),
     catalog) /\
  handle (deleteCategory cid1) shelf
  = (Sent (fail 400 "Cannot delete category with 1 subcategories. Delete subcategories first."),
     shelf) /\
  handle (deleteCategory cid2) catalog
  = (Sent (ok 200 tt),
     {| categories := [mkCategory cid1 "Furniture" None];
        products := products catalog; reviews := [] |}).
Proof.
  split; [|split].
  - apply (deleteCategory_guard catalog cid1 (mkCategory cid1 "Furniture" None) eq_refl).
    vm_compute. lia.
  - apply (deleteCategory_guard shelf cid1 (mkCategory cid1 "Furniture" None) eq_refl).
    + reflexivity.
    + vm_compute. lia.
  - apply (deleteCategory_guard catalog cid2 (mkCategory cid2 "Desks" (Some cid1)) eq_refl);
      reflexivity.
Defined.


Lemma valid_product_stock p :
  valid_product p = true -> num_leb (Finite 0) (Product.stock p) = true.
Proof.
  unfold valid_product. intros H.
  repeat (apply andb_true_iff in H; destruct H as [H ?]). assumption.
Qed.







(** "add" with a negative quantity is stopped by the schema's minimum, not by
    the handler; with a string it appends the string to the stock's digits. *)
Example updateStock_add_negative :
  handle (updateStock sample_conversions pid1 (VNumber (Finite (-5))) "add") catalog
  = (Next (ValidationError "Product"), catalog) /\
  option_map Product.stock
    (stored_product
       (snd (handle (updateStock sample_conversions pid1 (VString "2") "add") catalog))
       pid1)
  = Some (Finite 32).
Proof. split; vm_compute; reflexivity. Qed.

(** ** The catalog query *)

Lemma select_splittable v :
  splittable v ->
  exists fields,
    (if js_truthy v then f <- split_join v ;; ret (Some f) else ret None)
    = ret fields.
Proof.
  intros [H | (str & ->)].
  - rewrite H. now exists None.
  - simpl. destruct (negb (String.eqb str ""));
      [now exists (Some (commas_to_spaces str)) | now exists None].
Qed.

(** What the pagination stage reads from its two parameters. *)
Lemma or_default_spec n d :
  (n = NaN \/ n = Finite 0 -> or_default n d = d) /\
  (num_truthy n = true -> or_default n d = n).
Proof.
  unfold or_default. split.
  - intros [-> | ->]; reflexivity.
  - intros ->. reflexivity.
Qed.

Lemma take_pos {A} n (l : list A) : 0 < n -> take n l = firstn n l.
Proof. destruct n; [lia | reflexivity]. Qed.

Lemma window_int k l :
  (0 <= k < 2 ^ 63)%Z -> (Z.abs l < 2 ^ 63)%Z ->
  window (Finite (inject_Z k)) (Finite (inject_Z l)) = inr (Z.to_nat k, Z.abs_nat l).
Proof.
  intros Hk Hl. unfold window. rewrite !as_integer_int.
  assert (E1 : (k <? 0)%Z = false) by (apply Z.ltb_ge; lia).
  assert (E2 : (2 ^ 63 <=? k)%Z = false) by (apply Z.leb_gt; lia).
  assert (E3 : (2 ^ 63 <=? Z.abs l)%Z = false) by (apply Z.leb_gt; lia).
  now rewrite E1, E2, E3.
Qed.

Lemma fields_of_run query :
  splittable (lookup "select" query) ->
  (if js_truthy (lookup "select" query)
   then f <- split_join (lookup "select" query) ;; ret (Some f)
   else ret None) = ret (fields_of query).
Proof.
  unfold fields_of. intros [H | (str & ->)].
  - rewrite H. destruct (lookup "select" query) as [[str| |]|]; try discriminate; auto.
    simpl in H. apply negb_false_iff in H. now rewrite H.
  - simpl. now destruct (String.eqb str "").
Qed.

Lemma sortBy_of_run query :
  splittable (lookup "sort" query) ->
  (if js_truthy (lookup "sort" query)
   then split_join (lookup "sort" query)
   else ret "-createdAt") = ret (sortBy_of query).
Proof.
  unfold sortBy_of. intros [H | (str & ->)].
  - rewrite H. destruct (lookup "sort" query) as [[str| |]|]; try discriminate; auto.
    simpl in H. apply negb_false_iff in H. now rewrite H.
  - simpl. now destruct (String.eqb str "").
Qed.

(** A listing the store runs, spelled out. *)
Lemma getProducts_run sem query filter s p l :
  find_filter query = Some filter ->
  splittable (lookup "select" query) ->
  splittable (lookup "sort" query) ->
  reads_window query p l ->
  accepted sem query filter ->
  (Z.of_nat (List.length (matching sem (conditions_of filter query) s)) < 2 ^ 53)%Z ->
  handle (getProducts sem query) s
  = (Sent (ok 200
       {| count := List.length (page_slice sem query filter s p l);
          pagination :=
            {| next := if (p * l <? Z.of_nat (List.length
                                     (matching sem (conditions_of filter query) s)))%Z
                       then Some {| pr_page := Finite (inject_Z (p + 1));
                                    pr_limit := Finite (inject_Z l) |}
                       else None;
               prev := if (1 <? p)%Z
                       then Some {| pr_page := Finite (inject_Z (p - 1));
                                    pr_limit := Finite (inject_Z l) |}
                       else None |};
          items := page_slice sem query filter s p l |}), s).
Proof.
  intros Hfilter Hselect Hsort (Hpage & Hlimit & Hp & Hl & Hpl) [Hcond Hview] Htotal.
  assert (B : (2 ^ 53 < 2 ^ 63)%Z) by (apply Z.pow_lt_mono_r; lia).
  assert (Hp1 : (0 <= (p - 1) * l < 2 ^ 53)%Z) by nia.
  unfold handle, getProducts.
  rewrite Hfilter, (fields_of_run _ Hselect), bind_ret, (sortBy_of_run _ Hsort), bind_ret.
  rewrite Hpage, Hlimit.
  change (Finite 1) with (Finite (inject_Z 1)).
  change (Finite 0) with (Finite (inject_Z 0)).
  rewrite num_sub_int, !num_mul_int, num_add_int by lia.
  unfold countDocuments. rewrite Hcond, bind_gets.
  rewrite of_Z_int by lia.
  unfold exec. rewrite Hcond, Hview, window_int by lia.
  rewrite bind_gets, !num_ltb_int.
  replace (0 <? (p - 1) * l)%Z with (1 <? p)%Z
    by (destruct (Z.ltb_spec 1 p), (Z.ltb_spec 0 ((p - 1) * l)); auto; nia).
  unfold page_slice, ordered.
  rewrite take_pos by lia.
  replace (Z.abs_nat l) with (Z.to_nat l) by lia.
  reflexivity.
Qed.

(** A listing whose conditions the store refuses. *)
Lemma getProducts_refused sem query filter s e :
  find_filter query = Some filter ->
  splittable (lookup "select" query) ->
  splittable (lookup "sort" query) ->
  refuses sem (conditions_of filter query) = Some e ->
  handle (getProducts sem query) s = (Next e, s).
Proof.
  intros Hfilter Hselect Hsort Hcond.
  unfold handle, getProducts.
  rewrite Hfilter, (fields_of_run _ Hselect), bind_ret, (sortBy_of_run _ Hsort), bind_ret.
  unfold countDocuments. now rewrite Hcond.
Qed.

(** The claim of C3 fails at [page=-5]: the value is not replaced by the
    default, and the listing ends in an error. *)
Lemma getProducts_negative_page :
  page_of [("page", JStr "-5")] = Finite (inject_Z (-5)) /\
  handle (getProducts sample_sem [("page", JStr "-5")]) (shop 25)
  = (Next (StoreError "skip must be non-negative"), shop 25).
Proof. split; vm_compute; reflexivity. Qed.

(** C3, amended.  [page] and [limit] are read with [parseInt(_, 10)]: an
    absent parameter, a text that does not start with an integer, and 0 give
    the defaults 1 and 10; any other integer is used as parsed, a negative
    one included.  When the page and the limit so read are positive (and
    small enough for the arithmetic on them to be exact), [select] and
    [sort], if given, are strings, and the store runs the query, the listing
    answers 200 with at most [limit] documents, namely those from offset
    (page - 1) * limit of the ordered matches; the total is the number of
    products matching the same conditions; [next] is present exactly when
    page * limit < total, and [prev] exactly when page > 1.  When the store
    refuses the conditions, what it throws is passed on and nothing is
    listed. *)
Theorem getProducts_pagination (sem : StoreSem) (query : QueryParams)
    (s : Store) (filter : json) :
  let asked_page := parseInt (js_string_of (lookup "page" query)) in
  let asked_limit := parseInt (js_string_of (lookup "limit" query)) in
  let all := matching sem (conditions_of filter query) s in
  let total := Z.of_nat (List.length all) in
  ((asked_page = NaN \/ asked_page = Finite 0 -> page_of query = Finite 1) /\
   (asked_limit = NaN \/ asked_limit = Finite 0 -> limit_of query = Finite 10) /\
   (num_truthy asked_page = true -> page_of query = asked_page) /\
   (num_truthy asked_limit = true -> limit_of query = asked_limit)) /\
  (find_filter query = Some filter ->
   splittable (lookup "select" query) ->
   splittable (lookup "sort" query) ->
   (forall p l,
      reads_window query p l -> accepted sem query filter -> (total < 2 ^ 53)%Z ->
      exists listing,
        handle (getProducts sem query) s = (Sent (ok 200 listing), s) /\
        items listing =
          map (shape sem (fields_of query))
              (firstn (Z.to_nat l)
                 (skipn (Z.to_nat ((p - 1) * l)) (order sem (sortBy_of query) all))) /\
        count listing = List.length (items listing) /\
        (Z.of_nat (List.length (items listing)) <= l)%Z /\
        ((p * l < total)%Z ->
         next (pagination listing)
         = Some {| pr_page := Finite (inject_Z (p + 1));
                   pr_limit := Finite (inject_Z l) |}) /\
        ((total <= p * l)%Z -> next (pagination listing) = None) /\
        ((1 < p)%Z ->
         prev (pagination listing)
         = Some {| pr_page := Finite (inject_Z (p - 1));
                   pr_limit := Finite (inject_Z l) |}) /\
        (p = 1%Z -> prev (pagination listing) = None)) /\
   (forall e, refuses sem (conditions_of filter query) = Some e ->
              handle (getProducts sem query) s = (Next e, s))).
Proof.
  intros asked_page asked_limit all total. split.
  - unfold page_of, limit_of. fold asked_page asked_limit.
    pose proof (or_default_spec asked_page (Finite 1)) as [? ?].
    pose proof (or_default_spec asked_limit (Finite 10)) as [? ?]. auto.
  - intros Hfilter Hselect Hsort. split.
    + intros p l Hwin Hacc Htotal.
      eexists. split.
      * apply (getProducts_run sem query filter s p l); assumption.
      * cbn [items count pagination next prev]. fold all total.
        destruct Hwin as (_ & _ & Hp & Hl & _).
        unfold page_slice, ordered. fold all.
        repeat split.
        -- rewrite length_map, length_firstn. lia.
        -- intros H. apply Z.ltb_lt in H. now rewrite H.
        -- intros H. apply Z.ltb_ge in H. now rewrite H.
        -- intros H. apply Z.ltb_lt in H. now rewrite H.
        -- intros ->. reflexivity.
    + intros e He. now apply (getProducts_refused sem query filter s e).
Qed.

Lemma getProducts_pagination_witness :
  (exists listing,
     handle (getProducts sample_sem spec_query) (shop 25)
     = (Sent (ok 200 listing), shop 25) /\
     items listing = firstn 10 (skipn 10 (products (shop 25))) /\
     count listing = List.length (items listing) /\
     (Z.of_nat (List.length (items listing)) <= 10)%Z /\
     next (pagination listing)
     = Some {| pr_page := Finite 3; pr_limit := Finite 10 |} /\
     prev (pagination listing)
     = Some {| pr_page := Finite 1; pr_limit := Finite 10 |}) /\
  handle (getProducts sample_sem [("price", JStr "abc"); ("page", JStr "2")]) (shop 25)
  = (Next (CastError "price" "abc"), shop 25).
Proof.
  split.
  - destruct (proj1 (proj2 (getProducts_pagination sample_sem spec_query (shop 25)
                              (JObj [("price", JObj [("$lt", JStr "1000")])]))
                       eq_refl (or_introl eq_refl)
                       (or_intror (ex_intro _ "-price"%string eq_refl)))
                2%Z 10%Z)
      as (listing & H1 & H2 & H3 & H4 & H5 & _ & H7 & _).
    + repeat split; try reflexivity; lia.
    + split; reflexivity.
    + vm_compute. reflexivity.
    + exists listing.
      split; [exact H1|]. split; [rewrite H2; vm_compute; reflexivity|].
      split; [exact H3|]. split; [exact H4|].
      split; [apply H5; vm_compute; reflexivity | apply H7; reflexivity].
  - apply (proj2 (proj2 (getProducts_pagination sample_sem
                           [("price", JStr "abc"); ("page", JStr "2")] (shop 25)
                           (JObj [("price", JStr "abc")]))
                    eq_refl (or_introl eq_refl) (or_introl eq_refl))).
    reflexivity.
Defined.

Lemma filter_filter {A} (f g : A -> bool) l :
  filter f (filter g l) = filter (fun x => g x && f x) l.
Proof.
  induction l as [|x l IH]; simpl; auto.
  destruct (g x); simpl; [destruct (f x)|]; now rewrite IH.
Qed.

(** The reserved parameters, and only they, are dropped before the filter is
    built; the parameters kept stay in their order. *)
Lemma reqQuery_spec query :
  reqQuery query
  = filter (fun kv => negb (existsb (String.eqb (fst kv)) removeFields)) query.
Proof.
  unfold reqQuery, delete. simpl. rewrite !filter_filter.
  apply filter_ext. intros [k v]. simpl.
  destruct (String.eqb k "select"), (String.eqb k "sort"), (String.eqb k "page"),
    (String.eqb k "limit"), (String.eqb k "search"); reflexivity.
Qed.

(** C4. The filter stage run on three queries.  The operator names are
    replaced wherever they stand as a whole word in the serialized filter,
    in values as well as in keys: [brand=in] reaches the store as
    [{ brand: "$in" }], a parameter that is itself named [lt] becomes [$lt]
    and the words of a longer value are rewritten too, so filter values are
    not left unchanged; [price[lt]=1000] is translated to [$lt] and the
    reserved [page] is dropped, as intended. *)
Theorem find_filter_rewrites_values :
  find_filter [("brand", JStr "in")] = Some (JObj [("brand", JStr "$in")]) /\
  find_filter [("lt", JStr "5"); ("name", JStr "built-in gt")]
  = Some (JObj [("$lt", JStr "5"); ("name", JStr "built-$in $gt")]) /\
  find_filter [("price", JObj [("lt", JStr "1000")]); ("page", JStr "2")]
  = Some (JObj [("price", JObj [("$lt", JStr "1000")])]).
Proof. repeat split; vm_compute; reflexivity. Qed.

(** * Further properties *)

(** ** Lists of documents *)

Lemma find_split {A} (test : A -> bool) l x :
  find test l = Some x ->
  exists l1 l2, l = l1 ++ x :: l2 /\ (forall y, In y l1 -> test y = false).
Proof.
  induction l as [|y l IH]; simpl; [discriminate|].
  destruct (test y) eqn:Hy.
  - intros [= ->]. exists [], l. split; [reflexivity | intros ? []].
  - intros H. destruct (IH H) as (l1 & l2 & -> & Hl1).
    exists (y :: l1), l2. split; [reflexivity|].
    intros z [<-|Hz]; auto.
Qed.

Lemma find_app_skip {A} (test : A -> bool) l1 l2 :
  (forall y, In y l1 -> test y = false) -> find test (l1 ++ l2) = find test l2.
Proof.
  induction l1 as [|y l1 IH]; simpl; intros H; auto.
  rewrite (H y) by now left. auto.
Qed.

Lemma update_first_app {A} (test : A -> bool) f l1 l2 :
  (forall y, In y l1 -> test y = false) ->
  update_first test f (l1 ++ l2) = l1 ++ update_first test f l2.
Proof.
  induction l1 as [|y l1 IH]; simpl; intros H; auto.
  rewrite (H y) by now left. rewrite IH; auto.
Qed.

Lemma remove_first_app {A} (test : A -> bool) l1 l2 :
  (forall y, In y l1 -> test y = false) ->
  remove_first test (l1 ++ l2) = l1 ++ remove_first test l2.
Proof.
  induction l1 as [|y l1 IH]; simpl; intros H; auto.
  rewrite (H y) by now left. rewrite IH; auto.
Qed.

(** ** Stock updates *)

(** The outcomes of [updateStock]: either nothing is written, or one stored
    product is replaced, where it stands, by itself with a new stock of at
    least 0, and the document written passes the schema's validators. *)
Lemma updateStock_store js id quantity operation s :
  snd (handle (updateStock js id quantity operation) s) = s \/
  exists p n l1 l2,
    stored_product s id = Some p /\ num_leb (Finite 0) n = true /\
    valid_product (set_stock n p) = true /\
    products s = l1 ++ p :: l2 /\
    (forall x, In x l1 -> has_id (Product._id p) x = false) /\
    snd (handle (updateStock js id quantity operation) s)
    = set_products (fun _ => l1 ++ set_stock n p :: l2) s.
Proof.
  unfold handle, updateStock.
  destruct (negb (existsb (String.eqb operation) ["add"; "subtract"; "set"]));
    [now left|].
  destruct (castObjectId id) as [oid|] eqn:Hcast.
  - rewrite bind_findById_product by congruence.
    destruct (stored_product s id) as [p|] eqn:Hp; [|now left].
    unfold assign_stock.
    destruct (castNumber js _) as [n| |]; [|now left|now left].
    unfold save_product, bind, modify, throw, ret.
    destruct (valid_product (set_stock n p)) eqn:Hv; [|now left].
    right.
    unfold stored_product in Hp. rewrite Hcast in Hp.
    pose proof (find_some _ _ Hp) as [_ Hid]. apply String.eqb_eq in Hid.
    destruct (find_split _ _ _ Hp) as (l1 & l2 & E1 & Hl1).
    exists p, n, l1, l2. repeat split; auto.
    + exact (valid_product_stock _ Hv).
    + intros x Hx. unfold has_id. rewrite Hid. auto.
    + simpl. unfold set_products, has_id. simpl. rewrite Hid, E1.
      rewrite update_first_app by exact Hl1. simpl.
      now rewrite Hid, String.eqb_refl.
  - left. unfold findById, bind. now rewrite Hcast.
Qed.

(** X1. Whatever the id, the quantity and the operation, a request to
    [updateStock] leaves every stock non-negative if every stock was. *)
Theorem updateStock_keeps_stocks_nonneg (js : Conversions) (s : Store) (id : string)
    (quantity : JsValue) (operation : string) :
  stocks_nonneg s ->
  stocks_nonneg (snd (handle (updateStock js id quantity operation) s)).
Proof.
  intros Hs.
  destruct (updateStock_store js id quantity operation s)
    as [-> | (p & n & l1 & l2 & _ & Hn & _ & E & _ & ->)]; auto.
  unfold stocks_nonneg in *. simpl. rewrite E in Hs.
  apply Forall_app in Hs. destruct Hs as [H1 H2].
  inversion H2; subst. apply Forall_app. split; auto.
Qed.

Lemma updateStock_keeps_stocks_nonneg_witness :
  stocks_nonneg
    (snd (handle (updateStock sample_conversions pid1 (VNumber (Finite (-7))) "add")
            catalog)) /\
  stocks_nonneg
    (snd (handle (updateStock sample_conversions pid2 (VString "-7") "set") catalog)) /\
  stocks_nonneg
    (snd (handle (updateStock sample_conversions pid2 (VNumber (Finite 9)) "subtract")
            catalog)).
Proof.
  assert (H : stocks_nonneg catalog).
  { repeat constructor. }
  repeat split; apply updateStock_keeps_stocks_nonneg; exact H.
Defined.



Lemma stored_product_split s id p :
  stored_product s id = Some p ->
  exists oid l1 l2,
    castObjectId id = Some oid /\ Product._id p = oid /\
    products s = l1 ++ p :: l2 /\
    (forall x, In x l1 -> String.eqb (Product._id x) oid = false).
Proof.
  unfold stored_product. destruct (castObjectId id) as [oid|]; [|discriminate].
  intros Hp. pose proof (find_some _ _ Hp) as [_ Hid]. apply String.eqb_eq in Hid.
  destruct (find_split _ _ _ Hp) as (l1 & l2 & E & Hl1).
  exists oid, l1, l2. auto.
Qed.




(** ** More on the rating aggregate *)




Lemma sum_ratings_bounds rs :
  Forall (fun r => (1 <= Review.rating r)%Q /\ (Review.rating r <= 5)%Q) rs ->
  (inject_Z (Z.of_nat (List.length rs)) <= sum_ratings rs)%Q /\
  (sum_ratings rs <= 5 * inject_Z (Z.of_nat (List.length rs)))%Q.
Proof.
  induction 1 as [|r rs [H1 H5] _ [IH1 IH5]].
  - split; unfold Qle; simpl; lia.
  - change (sum_ratings (r :: rs)) with (Review.rating r + sum_ratings rs)%Q.
    simpl List.length. rewrite Nat2Z.inj_succ.
    unfold Z.succ. rewrite inject_Z_plus.
    change (inject_Z 1) with 1%Q.
    set (x := inject_Z (Z.of_nat (List.length rs))) in *.
    set (y := sum_ratings rs) in *. split; lra.
Qed.

Lemma mean_rating_bounds rs :
  Forall (fun r => (1 <= Review.rating r)%Q /\ (Review.rating r <= 5)%Q) rs ->
  rs <> [] ->
  (1 <= mean_rating rs)%Q /\ (mean_rating rs <= 5)%Q.
Proof.
  intros H Hne. destruct (sum_ratings_bounds rs H) as [H1 H5].
  destruct rs as [|r rs]; [congruence|]. unfold mean_rating.
  set (n := inject_Z (Z.of_nat (List.length (r :: rs)))) in *.
  assert (Hn : (0 < n)%Q).
  { unfold n. change 0%Q with (inject_Z 0). rewrite <- Zlt_Qlt. simpl. lia. }
  split.
  - apply Qle_shift_div_l; auto.
  - apply Qle_shift_div_r; auto.
Qed.

(** Rounding to a double keeps the mean within the whole bounds. *)
Lemma double_mean_bounds rs :
  (1 <= mean_rating rs)%Q -> (mean_rating rs <= 5)%Q ->
  (1 <= double_mean rs)%Q /\ (double_mean rs <= 5)%Q.
Proof.
  intros H1 H5. unfold double_mean.
  assert (Hpos : (0 < mean_rating rs)%Q) by lra.
  assert (Hlt : (mean_rating rs < inject_Z (2 ^ 53))%Q).
  { apply Qle_lt_trans with 5%Q; [exact H5|]. reflexivity. }
  split.
  - apply (round_double_ge _ 1 Hpos Hlt). exact H1.
  - apply (round_double_le _ 5 Hpos Hlt). exact H5.
Qed.

(** X5. When every review's rating lies between 1 and 5, the rating
    [calculateAverageRating] leaves on the product lies between 1 and 5 if
    the product has a review and is 0 if it has none, and the count is the
    number of its reviews: the unvalidated write stays within the Product
    schema's bounds 0 to 5. *)
Theorem calculateAverageRating_in_range (s : Store) (productId : ObjectId)
    (p : Product.t) :
  ratings_in_range s ->
  find (has_id productId) (products (snd (calculateAverageRating productId s)))
  = Some p ->
  (0 <= Product.rating p)%Q /\ (Product.rating p <= 5)%Q /\
  Product.numReviews p = Z.of_nat (List.length (reviews_of s productId)) /\
  (Product.numReviews p = 0%Z -> Product.rating p = 0%Q) /\
  (Product.numReviews p <> 0%Z -> (1 <= Product.rating p)%Q).
Proof.
  intros Hrange.
  destruct (calculateAverageRating_spec productId s) as (r & n & Hr & Hn & H0 & ->).
  simpl snd.
  assert (Hof : Forall (fun r => (1 <= Review.rating r)%Q /\ (Review.rating r <= 5)%Q)
                  (reviews_of s productId)).
  { apply Forall_forall. intros x Hx. apply filter_In in Hx.
    unfold ratings_in_range in Hrange. rewrite Forall_forall in Hrange.
    apply Hrange. tauto. }
  destruct (find (has_id productId) (products s)) as [p0|] eqn:Hfind.
  - simpl products. rewrite find_update_first by reflexivity. rewrite Hfind.
    intros [= <-]. simpl.
    destruct (reviews_of s productId) as [|x l] eqn:E.
    + rewrite (H0 eq_refl), Hn. simpl. repeat split; try lra; try reflexivity.
      congruence.
    + destruct (mean_rating_bounds (x :: l) Hof) as [M1 M5]; [discriminate|].
      destruct (double_mean_bounds (x :: l) M1 M5) as [D1 D5].
      rewrite Hn, Hr. repeat split; try lra; try reflexivity.
      simpl List.length. lia.
  - rewrite Hfind. discriminate.
Qed.

Lemma calculateAverageRating_in_range_witness :
  exists p,
    find (has_id pid2) (products (snd (calculateAverageRating pid2 stale_store)))
    = Some p /\
    (0 <= Product.rating p)%Q /\ (Product.rating p <= 5)%Q /\
    Product.numReviews p = 1%Z /\ (1 <= Product.rating p)%Q.
Proof.
  exists (mkProduct pid2 "desk" 1%Z 5%Q 1%Z).
  destruct (calculateAverageRating_in_range stale_store pid2
              (mkProduct pid2 "desk" 1%Z 5%Q 1%Z))
    as (H0 & H5 & Hn & _ & H1).
  - repeat constructor; simpl; lra.
  - reflexivity.
  - repeat split; auto.
Defined.

(** ** More on the category handlers *)

(** X7. [createCategory] creates nothing under a parent that is not there:
    when [parentCategory] is a non-empty string under which no category is
    stored, the answer is 404 "Parent category not found" (or, for a string
    that is no ObjectId, the cast error goes to [next]), [Category.create]
    is not reached and the store is as it was. *)
Theorem createCategory_parent_guard (create : CategoryBody -> Db Category.t)
    (s : Store) (body : CategoryBody) (raw : string) :
  b_parentCategory body = JsString raw ->
  String.eqb raw "" = false ->
  stored_category s raw = None ->
  handle (createCategory create body) s
  = (match castObjectId raw with
     | Some _ => Sent (fail 404 "Parent category not found")
     | None => Next (CastError "_id" raw)
     end, s).
Proof.
  intros Hbody Hraw Hnone. unfold handle, createCategory.
  rewrite Hbody. simpl truthy. rewrite Hraw. simpl negb. cbv iota.
  simpl field_string. rewrite bind_assoc.
  destruct (castObjectId raw) as [oid|] eqn:Hcast.
  - rewrite bind_findById_category, Hnone by congruence. reflexivity.
  - unfold bind, findById. rewrite Hcast. reflexivity.
Qed.

Lemma createCategory_parent_guard_witness :
  handle (createCategory
            (fun _ => modify (set_categories
                                (fun l => l ++ [mkCategory absent_id "New" None])) ;;;
                      ret (mkCategory absent_id "New" None))
            (reparent absent_id)) catalog
  = (Sent (fail 404 "Parent category not found"), catalog).
Proof.
  apply (createCategory_parent_guard _ catalog (reparent absent_id) absent_id);
    reflexivity.
Defined.

Lemma stored_category_split s id c :
  stored_category s id = Some c ->
  exists oid l1 l2,
    castObjectId id = Some oid /\ Category._id c = oid /\
    categories s = l1 ++ c :: l2 /\
    (forall x, In x l1 -> String.eqb (Category._id x) oid = false).
Proof.
  unfold stored_category. destruct (castObjectId id) as [oid|]; [|discriminate].
  intros Hc. pose proof (find_some _ _ Hc) as [_ Hid]. apply String.eqb_eq in Hid.
  destruct (find_split _ _ _ Hc) as (l1 & l2 & E & Hl1).
  exists oid, l1, l2. auto.
Qed.

Lemma apply_body_id body c c' :
  apply_body body c = Some c' ->
  Category._id c' = Category._id c /\ Category.slug c' = Category.slug c /\
  Category.image c' = Category.image c.
Proof.
  unfold apply_body.
  destruct (match b_parentCategory body with
            | Undefined => _ | JsNull => _ | JsString raw => _ end);
    [|discriminate].
  intros [= <-]. auto.
Qed.

(** The outcomes of [updateCategory]: either nothing is written, or one
    stored category is replaced, where it stands, by itself with the body's
    fields set; a parent given as a string was then found in the store and
    is not spelled as the request's id. *)
Lemma updateCategory_store valid id body s :
  snd (handle (updateCategory valid id body) s) = s \/
  exists oid c c' l1 l2,
    castObjectId id = Some oid /\ Category._id c = oid /\
    categories s = l1 ++ c :: l2 /\
    (forall x, In x l1 -> String.eqb (Category._id x) oid = false) /\
    apply_body body c = Some c' /\
    (forall raw, b_parentCategory body = JsString raw ->
       String.eqb raw id = false /\ exists parent, stored_category s raw = Some parent) /\
    handle (updateCategory valid id body) s
    = (Sent (ok 200 (Some c')), set_categories (fun _ => l1 ++ c' :: l2) s).
Proof.
  unfold handle, updateCategory.
  destruct (castObjectId id) as [oid|] eqn:Hcast;
    [|left; unfold bind, findById; now rewrite Hcast].
  rewrite bind_findById_category by congruence.
  destruct (stored_category s id) as [c|] eqn:Hc; [|now left].
  destruct (stored_category_split s id c Hc)
    as (oid' & l1 & l2 & Hcast' & Hid & E & Hl1).
  rewrite Hcast in Hcast'. injection Hcast' as <-.
  assert (Hupdate :
    (forall raw, b_parentCategory body = JsString raw ->
       String.eqb raw id = false /\ exists parent, stored_category s raw = Some parent) ->
    snd (let (r, s') := (category' <- findByIdAndUpdate_category valid id body ;;
                         ret (ok 200 category')) s in
         match r with
         | inl e => (Next e, s')
         | inr r => (Sent r, s')
         end) = s \/
    exists c',
      apply_body body c = Some c' /\
      (let (r, s') := (category' <- findByIdAndUpdate_category valid id body ;;
                       ret (ok 200 category')) s in
       match r with
       | inl e => (Next e, s')
       | inr r => (Sent r, s')
       end) = (Sent (ok 200 (Some c')), set_categories (fun _ => l1 ++ c' :: l2) s)).
  { intros _. unfold findByIdAndUpdate_category. rewrite Hcast.
    rewrite bind_assoc, bind_gets.
    assert (Hfind : find (fun c0 => String.eqb (Category._id c0) oid) (categories s)
                    = Some c).
    { unfold stored_category in Hc. now rewrite Hcast in Hc. }
    rewrite Hfind.
    destruct (apply_body body c) as [c'|] eqn:Happly; [|now left].
    destruct (valid body); [|now left].
    right. exists c'. split; auto.
    unfold bind, modify, ret. simpl. unfold set_categories. simpl.
    rewrite E, update_first_app by exact Hl1. simpl.
    now rewrite Hid, String.eqb_refl. }
  destruct (b_parentCategory body) as [| |raw] eqn:Hbody.
  - simpl truthy. cbv iota. rewrite bind_ret.
    destruct Hupdate as [H | (c' & Happly & H)]; [discriminate | now left |].
    right. exists oid, c, c', l1, l2. repeat split; auto; discriminate.
  - simpl truthy. cbv iota. rewrite bind_ret.
    destruct Hupdate as [H | (c' & Happly & H)]; [discriminate | now left |].
    right. exists oid, c, c', l1, l2. repeat split; auto; discriminate.
  - simpl truthy. simpl strict_eq. simpl field_string.
    destruct (String.eqb raw "") eqn:Hempty; simpl negb; cbv iota.
    + (* an empty string skips the checks and fails the cast *)
      left. apply String.eqb_eq in Hempty. subst raw. rewrite bind_ret.
      unfold findByIdAndUpdate_category. rewrite Hcast.
      rewrite bind_assoc, bind_gets.
      unfold stored_category in Hc. rewrite Hcast in Hc. rewrite Hc.
      unfold apply_body. rewrite Hbody. reflexivity.
    + destruct (String.eqb raw id) eqn:Hself; [now left|].
      rewrite bind_assoc.
      destruct (castObjectId raw) as [poid|] eqn:Hpcast;
        [|left; unfold bind, findById; now rewrite Hpcast].
      rewrite bind_findById_category by congruence.
      destruct (stored_category s raw) as [parent|] eqn:Hparent; [|now left].
      rewrite bind_ret.
      destruct Hupdate as [H | (c' & Happly & H)]; [|now left|].
      * intros raw' [= <-]. eauto.
      * right. exists oid, c, c', l1, l2. repeat split; auto.
        -- now injection H0 as <-.
        -- injection H0 as <-. eauto.
Qed.

Lemma apply_body_parent body c c' :
  apply_body body c = Some c' ->
  match b_parentCategory body with
  | Undefined => Category.parentCategory c' = Category.parentCategory c
  | JsNull => Category.parentCategory c' = None
  | JsString raw =>
      exists poid, castObjectId raw = Some poid /\
                   Category.parentCategory c' = Some poid
  end.
Proof.
  unfold apply_body. destruct (b_parentCategory body) as [| |raw].
  - intros [= <-]. reflexivity.
  - intros [= <-]. reflexivity.
  - destruct (castObjectId raw) as [poid|]; [|discriminate].
    intros [= <-]. eauto.
Qed.

(** An update under another stored category goes through. *)
Lemma updateCategory_accepted valid id body s c raw parent oid l1 l2 :
  castObjectId id = Some oid -> Category._id c = oid ->
  categories s = l1 ++ c :: l2 ->
  (forall x, In x l1 -> String.eqb (Category._id x) oid = false) ->
  b_parentCategory body = JsString raw -> String.eqb raw id = false ->
  stored_category s raw = Some parent -> valid body = true ->
  exists c',
    apply_body body c = Some c' /\
    Category.parentCategory c' = Some (Category._id parent) /\
    handle (updateCategory valid id body) s
    = (Sent (ok 200 (Some c')), set_categories (fun _ => l1 ++ c' :: l2) s).
Proof.
  intros Hcast Hid E Hl1 Hbody Hneq Hparent Hvalid.
  destruct (stored_category_split s raw parent Hparent)
    as (poid & _ & _ & Hpcast & Hpid & _ & _).
  assert (Hfind : find (fun c0 => String.eqb (Category._id c0) oid) (categories s)
                  = Some c).
  { rewrite E, find_app_skip by exact Hl1. simpl. now rewrite Hid, String.eqb_refl. }
  assert (Hc : stored_category s id = Some c).
  { unfold stored_category. now rewrite Hcast. }
  assert (Happly : exists c', apply_body body c = Some c' /\
                              Category.parentCategory c' = Some poid).
  { unfold apply_body. rewrite Hbody, Hpcast. eauto. }
  destruct Happly as (c' & Happly & Hpar). exists c'.
  split; [exact Happly|]. split; [congruence|].
  unfold handle, updateCategory.
  rewrite bind_findById_category, Hc by congruence.
  rewrite Hbody. simpl truthy. simpl strict_eq. simpl field_string.
  rewrite (cast_nonempty raw) by congruence. simpl negb. cbv iota.
  rewrite Hneq, bind_assoc, bind_findById_category, Hparent, !bind_ret by congruence.
  unfold findByIdAndUpdate_category. rewrite Hcast, bind_assoc, bind_gets, Hfind.
  rewrite Happly, Hvalid. unfold bind, modify, ret. simpl.
  unfold set_categories. simpl. rewrite E, update_first_app by exact Hl1.
  simpl. now rewrite Hid, String.eqb_refl.
Qed.

(** C5.  The guard on [parentCategory] compares two strings, the body's and
    the request's.  For a stored category, a [parentCategory] spelled as the
    request's id is answered 400 "Category cannot be its own parent", and a
    well-formed one under which nothing is stored 404 "Parent category not
    found", the store left as it was in both cases.  But the category's own
    id spelled otherwise (hexadecimal digits in the other letter case cast
    to the same ObjectId) passes the guard: the answer is 200 and the
    category is stored as its own parent. *)
Theorem updateCategory_parent_guard (valid : CategoryBody -> bool) (s : Store)
    (id : string) (body : CategoryBody) (c : Category.t) :
  stored_category s id = Some c ->
  (b_parentCategory body = JsString id ->
   handle (updateCategory valid id body) s
   = (Sent (fail 400 "Category cannot be its own parent"), s)) /\
  (forall raw, b_parentCategory body = JsString raw ->
     castObjectId raw <> None -> stored_category s raw = None ->
     handle (updateCategory valid id body) s
     = (Sent (fail 404 "Parent category not found"), s)) /\
  (forall raw, b_parentCategory body = JsString raw ->
     raw <> id -> castObjectId raw = castObjectId id -> valid body = true ->
     exists c',
       fst (handle (updateCategory valid id body) s) = Sent (ok 200 (Some c')) /\
       stored_category (snd (handle (updateCategory valid id body) s)) id = Some c' /\
       Category._id c' = Category._id c /\
       Category.parentCategory c' = Some (Category._id c')).
Proof.
  intros Hc. pose proof (stored_category_cast _ _ _ Hc) as Hcast.
  split; [|split].
  - unfold handle, updateCategory.
    intros ->. rewrite bind_findById_category, Hc by assumption.
    simpl truthy. simpl strict_eq.
    rewrite (cast_nonempty id Hcast), String.eqb_refl. reflexivity.
  - unfold handle, updateCategory.
    intros raw -> Hraw Hnone. rewrite bind_findById_category, Hc by assumption.
    simpl truthy. simpl strict_eq. simpl field_string.
    rewrite (cast_nonempty raw Hraw). simpl negb.
    destruct (String.eqb raw id) eqn:E.
    + apply String.eqb_eq in E. congruence.
    + rewrite bind_assoc, bind_findById_category, Hnone by assumption. reflexivity.
  - intros raw Hbody Hneq Hsame Hvalid.
    destruct (stored_category_split s id c Hc) as (oid & l1 & l2 & Hoid & Hid & E & Hl1).
    assert (Hparent : stored_category s raw = Some c).
    { unfold stored_category in *. now rewrite Hsame. }
    destruct (updateCategory_accepted valid id body s c raw c oid l1 l2)
      as (c' & Happly & Hpar & Hrun); auto.
    { now apply String.eqb_neq. }
    destruct (apply_body_id _ _ _ Happly) as (Hid' & _ & _).
    exists c'. rewrite Hrun. split; [reflexivity|]. split; [|split].
    + unfold stored_category. rewrite Hoid. simpl.
      rewrite find_app_skip by exact Hl1. simpl. now rewrite Hid', Hid, String.eqb_refl.
    + exact Hid'.
    + congruence.
Qed.

Lemma updateCategory_parent_guard_witness :
  handle (updateCategory (fun _ => true) cid2 (reparent cid2)) catalog
  = (Sent (fail 400 "Category cannot be its own parent"), catalog) /\
  handle (updateCategory (fun _ => true) cid2 (reparent absent_id)) catalog
  = (Sent (fail 404 "Parent category not found"), catalog) /\
  exists c',
    fst (handle (updateCategory (fun _ => true) cid2
                   (reparent "64C000000000000000000002")) catalog)
    = Sent (ok 200 (Some c')) /\
    stored_category
      (snd (handle (updateCategory (fun _ => true) cid2
                      (reparent "64C000000000000000000002")) catalog)) cid2
    = Some c' /\
    Category._id c' = cid2 /\
    Category.parentCategory c' = Some (Category._id c').
Proof.
  split; [|split].
  - apply (proj1 (updateCategory_parent_guard (fun _ => true) catalog cid2
                      (reparent cid2) (mkCategory cid2 "Desks" (Some cid1))
                      eq_refl)).
    reflexivity.
  - apply (proj1 (proj2 (updateCategory_parent_guard (fun _ => true) catalog cid2
                           (reparent absent_id) (mkCategory cid2 "Desks" (Some cid1))
                           eq_refl)) absent_id);
      [reflexivity | discriminate | reflexivity].
  - apply (proj2 (proj2 (updateCategory_parent_guard (fun _ => true) catalog cid2
                           (reparent "64C000000000000000000002")
                           (mkCategory cid2 "Desks" (Some cid1)) eq_refl))
             "64C000000000000000000002");
      [reflexivity | discriminate | reflexivity | reflexivity].
Defined.

Lemma find_app_same {A} (test : A -> bool) l1 x x' l2 :
  test x' = test x -> test x = false ->
  find test (l1 ++ x' :: l2) = find test (l1 ++ x :: l2).
Proof.
  intros E Hx. induction l1 as [|y l1 IH]; simpl.
  - now rewrite E, Hx.
  - now rewrite IH.
Qed.

(** Two categories that name each other as parent hang under no root. *)
Lemma two_cycle_unreachable cs ia ib :
  NoDup (map Category._id cs) ->
  (forall c, In c cs -> Category._id c = ia -> Category.parentCategory c = Some ib) ->
  (forall c, In c cs -> Category._id c = ib -> Category.parentCategory c = Some ia) ->
  ~ reachable cs ia /\ ~ reachable cs ib.
Proof.
  intros Hnd Ha Hb.
  assert (Hloop : forall i j,
            (forall c, In c cs -> Category._id c = i -> Category.parentCategory c = Some j) ->
            (forall c, In c cs -> Category._id c = j -> Category.parentCategory c = Some i) ->
            ~ reachable cs i).
  { intros i j Hi Hj [n Hn]. pose proof Hn as Hn0.
    apply descends_last in Hn.
    destruct Hn as (c & Hc & Hid & [[_ Hp] | (m & q & -> & Hp & Hm)]);
      rewrite (Hi c Hc Hid) in Hp; [discriminate|].
    injection Hp as <-.
    apply descends_last in Hm.
    destruct Hm as (c2 & Hc2 & Hid2 & [[_ Hp2] | (m' & q' & -> & Hp2 & Hm')]);
      rewrite (Hj c2 Hc2 Hid2) in Hp2; [discriminate|].
    injection Hp2 as <-.
    pose proof (depth_unique cs Hnd _ _ _ Hn0 Hm'). lia. }
  split; eauto.
Qed.

(** X8. The self-parent guard of [updateCategory] looks one step only: any
    other stored category is accepted as the new parent, a child of the
    category included.  Moving a category under its own child is answered
    200, and from then on the two name each other as parent, so that neither
    hangs under a root of the category tree any more. *)
Theorem updateCategory_accepts_own_child (valid : CategoryBody -> bool) (s : Store)
    (ida idb : string) (a b : Category.t) (body : CategoryBody) :
  NoDup (map Category._id (categories s)) ->
  stored_category s ida = Some a ->
  stored_category s idb = Some b ->
  Category._id a <> Category._id b ->
  b_parentCategory body = JsString idb ->
  valid body = true ->
  exists a',
    handle (updateCategory valid ida body) s
    = (Sent (ok 200 (Some a')),
       snd (handle (updateCategory valid ida body) s)) /\
    stored_category (snd (handle (updateCategory valid ida body) s)) ida = Some a' /\
    Category.parentCategory a' = Some (Category._id b) /\
    stored_category (snd (handle (updateCategory valid ida body) s)) idb = Some b /\
    (Category.parentCategory b = Some (Category._id a) ->
     ~ reachable (find_active (categories (snd (handle (updateCategory valid ida body) s))))
         (Category._id a) /\
     ~ reachable (find_active (categories (snd (handle (updateCategory valid ida body) s))))
         (Category._id b)).
Proof.
  intros Hnd Ha Hb Hab Hbody Hvalid.
  destruct (stored_category_split s ida a Ha) as (oid & l1 & l2 & Hcast & Hid & E & Hl1).
  assert (Hneq : String.eqb idb ida = false).
  { apply String.eqb_neq. intros ->. congruence. }
  destruct (updateCategory_accepted valid ida body s a idb b oid l1 l2)
    as (a' & Happly & Hpar & Hrun); auto.
  rewrite Hrun. simpl snd.
  destruct (apply_body_id _ _ _ Happly) as (Hid' & _ & _).
  assert (Hsa : stored_category (set_categories (fun _ => l1 ++ a' :: l2) s) ida = Some a').
  { unfold stored_category. rewrite Hcast. simpl.
    rewrite find_app_skip by exact Hl1. simpl. now rewrite Hid', Hid, String.eqb_refl. }
  assert (Hsb : stored_category (set_categories (fun _ => l1 ++ a' :: l2) s) idb = Some b).
  { unfold stored_category in *. destruct (castObjectId idb) as [poid|]; [|discriminate].
    simpl. rewrite E in Hb. rewrite <- Hb. apply find_app_same.
    - now rewrite Hid'.
    - pose proof (find_some _ _ Hb) as [_ Hbid]. apply String.eqb_eq in Hbid.
      apply String.eqb_neq. congruence. }
  assert (Hnd' : NoDup (map Category._id (l1 ++ a' :: l2))).
  { rewrite E in Hnd. rewrite map_app in *. simpl in *. now rewrite Hid'. }
  assert (Hin_a : In a' (l1 ++ a' :: l2)) by (apply in_or_app; right; now left).
  assert (Hin_b : In b (l1 ++ a' :: l2)).
  { unfold stored_category in Hsb. destruct (castObjectId idb); [|discriminate].
    apply find_some in Hsb. exact (proj1 Hsb). }
  exists a'. split; [reflexivity|]. split; [exact Hsa|]. split; [exact Hpar|].
  split; [exact Hsb|]. intros Hcycle.
  change (categories (set_categories (fun _ => l1 ++ a' :: l2) s))
    with (l1 ++ a' :: l2).
  apply two_cycle_unreachable.
  - now apply find_active_unique.
  - intros c Hc Hcid. apply filter_In in Hc. destruct Hc as [Hc _].
    assert (c = a') as -> by (apply (category_by_id (l1 ++ a' :: l2)); auto; congruence).
    exact Hpar.
  - intros c Hc Hcid. apply filter_In in Hc. destruct Hc as [Hc _].
    assert (c = b) as -> by (apply (category_by_id (l1 ++ a' :: l2)); auto).
    exact Hcycle.
Qed.

Lemma updateCategory_accepts_own_child_witness :
  exists a',
    handle (updateCategory (fun _ => true) cid1 (reparent cid2)) catalog
    = (Sent (ok 200 (Some a')),
       snd (handle (updateCategory (fun _ => true) cid1 (reparent cid2)) catalog)) /\
    Category.parentCategory a' = Some cid2 /\
    (~ reachable
         (find_active
            (categories
               (snd (handle (updateCategory (fun _ => true) cid1 (reparent cid2))
                       catalog)))) cid1 /\
     ~ reachable
         (find_active
            (categories
               (snd (handle (updateCategory (fun _ => true) cid1 (reparent cid2))
                       catalog)))) cid2).
Proof.
  destruct (updateCategory_accepts_own_child (fun _ => true) catalog cid1 cid2
              (mkCategory cid1 "Furniture" None)
              (mkCategory cid2 "Desks" (Some cid1)) (reparent cid2))
    as (a' & H1 & _ & H3 & _ & H5);
    try reflexivity; [distinct_ids | discriminate |].
  exists a'. split; [exact H1|]. split; [exact H3|]. apply H5. reflexivity.
Defined.

Lemma has_category_ids s s' i :
  map Category._id (categories s') = map Category._id (categories s) ->
  has_category s i -> has_category s' i.
Proof.
  intros E (c & Hc & Hid).
  assert (Hi : In i (map Category._id (categories s')))
    by (rewrite E, <- Hid; now apply in_map).
  apply in_map_iff in Hi. destruct Hi as (c' & ? & ?). now exists c'.
Qed.

(** X9. An [updateCategory] request whose body sets fields of the category
    to values of their types (no update operator; [parentCategory] absent,
    [null] or a string) keeps references resolvable and writes one document
    at most: whatever the id and such a body, the categories keep their ids
    (and their number and order), products and reviews are untouched, and if
    every [parentCategory] and every product's [category] named a stored
    category before, each still does. *)
Theorem updateCategory_keeps_references (valid : CategoryBody -> bool) (s : Store)
    (id : string) (body : CategoryBody) :
  parents_resolve s -> products_resolve s ->
  map Category._id (categories (snd (handle (updateCategory valid id body) s)))
  = map Category._id (categories s) /\
  products (snd (handle (updateCategory valid id body) s)) = products s /\
  reviews (snd (handle (updateCategory valid id body) s)) = reviews s /\
  parents_resolve (snd (handle (updateCategory valid id body) s)) /\
  products_resolve (snd (handle (updateCategory valid id body) s)).
Proof.
  intros Hpar Hprod.
  destruct (updateCategory_store valid id body s)
    as [-> | (oid & c & c' & l1 & l2 & Hcast & Hid & E & Hl1 & Happly & Hchecked & ->)];
    [auto|].
  simpl snd. destruct (apply_body_id _ _ _ Happly) as (Hid' & _ & _).
  assert (Hids : map Category._id
                   (categories (set_categories (fun _ => l1 ++ c' :: l2) s))
                 = map Category._id (categories s)).
  { simpl. rewrite E, !map_app. simpl. now rewrite Hid'. }
  split; [exact Hids|]. split; [reflexivity|]. split; [reflexivity|]. split.
  - intros x q Hx Hq. apply (has_category_ids s); [exact Hids|].
    simpl in Hx. apply in_app_or in Hx. destruct Hx as [Hx | [<- | Hx]].
    + apply (Hpar x); auto. rewrite E. apply in_or_app. now left.
    + pose proof (apply_body_parent _ _ _ Happly) as Hp.
      destruct (b_parentCategory body) as [| |raw] eqn:Hbody.
      * apply (Hpar c); [|congruence]. rewrite E. apply in_or_app. right. now left.
      * congruence.
      * destruct Hp as (poid & Hpcast & Hp).
        destruct (Hchecked raw eq_refl) as (_ & parent & Hparent).
        destruct (stored_category_split s raw parent Hparent)
          as (poid' & k1 & k2 & Hpcast' & Hpid & Ek & _).
        exists parent. split; [rewrite Ek; apply in_or_app; right; now left|].
        congruence.
    + apply (Hpar x); auto. rewrite E. apply in_or_app. right. now right.
  - intros p Hp. apply (has_category_ids s); [exact Hids|]. now apply Hprod.
Qed.

Lemma updateCategory_keeps_references_witness :
  parents_resolve (snd (handle (updateCategory (fun _ => true) cid1 (reparent cid2))
                          catalog)) /\
  products_resolve (snd (handle (updateCategory (fun _ => true) cid1 (reparent cid2))
                           catalog)).
Proof.
  assert (Hc1 : has_category catalog cid1).
  { exists (mkCategory cid1 "Furniture" None). split; [now left | reflexivity]. }
  apply (updateCategory_keeps_references (fun _ => true) catalog cid1 (reparent cid2)).
  - intros c q [<-|[<-|[]]]; simpl; intros [= <-]. exact Hc1.
  - intros p [<-|[<-|[]]]; exact Hc1.
Defined.

(** The outcomes of [deleteCategory]: either nothing is written, or one
    stored category that no product is in and no category names as parent
    is taken out. *)
Lemma deleteCategory_store id s :
  snd (handle (deleteCategory id) s) = s \/
  exists c l1 l2,
    categories s = l1 ++ c :: l2 /\
    count_products (Category._id c) s = 0 /\
    count_subcategories (Category._id c) s = 0 /\
    snd (handle (deleteCategory id) s) = set_categories (fun _ => l1 ++ l2) s.
Proof.
  unfold handle, deleteCategory.
  destruct (castObjectId id) as [oid|] eqn:Hcast;
    [|left; unfold bind, findById; now rewrite Hcast].
  rewrite bind_findById_category by congruence.
  destruct (stored_category s id) as [c|] eqn:Hc; [|now left].
  rewrite bind_gets.
  destruct (Nat.ltb_spec 0 (count_products (Category._id c) s)); [now left|].
  rewrite bind_gets.
  destruct (Nat.ltb_spec 0 (count_subcategories (Category._id c) s)); [now left|].
  right.
  destruct (stored_category_split s id c Hc) as (oid' & l1 & l2 & _ & Hid & E & Hl1).
  exists c, l1, l2. repeat split; auto; try lia.
  unfold bind, modify, ret. simpl. unfold set_categories. simpl.
  rewrite E, remove_first_app; [|rewrite Hid; exact Hl1].
  simpl. now rewrite String.eqb_refl.
Qed.

Lemma filter_length_zero {A} (f : A -> bool) l :
  List.length (filter f l) = 0 -> forall x, In x l -> f x = false.
Proof.
  intros H x Hx. destruct (f x) eqn:Hf; auto.
  assert (Hin : In x (filter f l)) by (apply filter_In; auto).
  destruct (filter f l); [destruct Hin | discriminate].
Qed.

(** X10. [deleteCategory] never leaves a dangling reference: whatever the
    request, if every [parentCategory] and every product's [category] named a
    stored category before, each still does afterwards; products and reviews
    are untouched. *)
Theorem deleteCategory_keeps_references (s : Store) (id : string) :
  parents_resolve s -> products_resolve s ->
  parents_resolve (snd (handle (deleteCategory id) s)) /\
  products_resolve (snd (handle (deleteCategory id) s)) /\
  products (snd (handle (deleteCategory id) s)) = products s /\
  reviews (snd (handle (deleteCategory id) s)) = reviews s.
Proof.
  intros Hpar Hprod.
  destruct (deleteCategory_store id s)
    as [-> | (c & l1 & l2 & E & Hnp & Hns & ->)]; [auto|].
  assert (Hkeep : forall i, i <> Category._id c -> has_category s i ->
            has_category (set_categories (fun _ => l1 ++ l2) s) i).
  { intros i Hi (d & Hd & Hid). exists d. split; auto. simpl.
    rewrite E in Hd. apply in_app_or in Hd. apply in_or_app.
    destruct Hd as [Hd | [<- | Hd]]; auto. congruence. }
  assert (Hsub : forall x, In x (l1 ++ l2) -> In x (categories s)).
  { intros x Hx. rewrite E. apply in_app_or in Hx. apply in_or_app.
    destruct Hx; [now left | right; now right]. }
  repeat split; auto.
  - intros x q Hx Hq. simpl in Hx. apply Hkeep; [|apply (Hpar x); auto].
    intros ->. pose proof (filter_length_zero _ _ Hns x (Hsub x Hx)) as Hf.
    cbv beta in Hf. rewrite Hq, String.eqb_refl in Hf. discriminate.
  - intros p Hp. simpl in Hp. apply Hkeep; [|now apply Hprod].
    intros Eq. pose proof (filter_length_zero _ _ Hnp p Hp) as Hf.
    cbv beta in Hf. rewrite Eq, String.eqb_refl in Hf. discriminate.
Qed.

Lemma deleteCategory_keeps_references_witness :
  parents_resolve (snd (handle (deleteCategory cid2) shelf)) /\
  parents_resolve (snd (handle (deleteCategory cid1) shelf)).
Proof.
  assert (Hc1 : has_category shelf cid1).
  { exists (mkCategory cid1 "Furniture" None). split; [now left | reflexivity]. }
  assert (Hp : parents_resolve shelf).
  { intros c q [<-|[<-|[]]]; simpl; intros [= <-]. exact Hc1. }
  assert (Hq : products_resolve shelf) by (intros p []).
  split.
  - apply (deleteCategory_keeps_references shelf cid2 Hp Hq).
  - apply (deleteCategory_keeps_references shelf cid1 Hp Hq).
Defined.

(** X11. [getCategoryBySlug] answers with an active category that carries
    the slug, or with 404 when no active category carries it: a category
    that is not active is never returned by slug.  The store is left as it
    was. *)
Theorem getCategoryBySlug_active_only (s : Store) (slug : string) :
  (exists c,
     handle (getCategoryBySlug slug) s = (Sent (ok 200 c), s) /\
     In c (categories s) /\ Category.slug c = slug /\ Category.isActive c = true) \/
  (handle (getCategoryBySlug slug) s = (Sent (fail 404 "Category not found"), s) /\
   forall c, In c (categories s) -> Category.slug c = slug ->
             Category.isActive c = false).
Proof.
  unfold handle, getCategoryBySlug. rewrite bind_gets.
  destruct (find _ (categories s)) as [c|] eqn:Hfind.
  - left. exists c. split; [reflexivity|].
    apply find_some in Hfind. destruct Hfind as [Hin Hc].
    apply andb_true_iff in Hc. destruct Hc as [Hslug Hact].
    apply String.eqb_eq in Hslug. auto.
  - right. split; [reflexivity|]. intros c Hc Hslug.
    pose proof (find_none _ _ Hfind c Hc) as Hf. cbv beta in Hf.
    rewrite Hslug, String.eqb_refl in Hf. exact Hf.
Qed.

(** *** Height and completeness of the tree *)

Lemma list_max_bound l n :
  (forall k, In k l -> k <= n) -> list_max l <= n.
Proof.
  intros H. apply list_max_le. apply Forall_forall. exact H.
Qed.

Lemma forest_height_bound cs :
  NoDup (map Category._id cs) ->
  forall fuel p d t,
    under_root cs p d -> buildTree fuel cs p = Some t ->
    forest_height t + d <= List.length cs.
Proof.
  intros Hnd. induction fuel as [|f IH]; intros p d t Hp H; [discriminate|].
  apply buildTree_level in H.
  assert (Hd : d <= List.length cs).
  { destruct p as [q|]; simpl in Hp; [|lia]. now apply (depth_bound cs Hnd d q). }
  assert (Hall : forall k, In k (map height t) -> k <= List.length cs - d).
  { intros k Hk. apply in_map_iff in Hk. destruct Hk as (n & <- & Hn).
    destruct (Forall2_in_r _ _ _ _ H Hn) as (c & Hc & sub & Hsub & ->).
    apply filter_In in Hc. destruct Hc as [Hc Hch].
    pose proof (IH (Some (Category._id c)) (S d) sub
                  (child_depth cs p d c Hp Hc Hch) Hsub) as Hs.
    change (height (project c sub)) with (S (forest_height sub)). lia. }
  pose proof (list_max_bound _ _ Hall). unfold forest_height. lia.
Qed.

(** X13. The tree [buildTree()] returns is never higher than the number of
    categories it was built from: the recursion nests at most that deep. *)
Theorem buildTree_height (cs : list Category.t) (fuel : nat) (tree : list Node) :
  NoDup (map Category._id cs) ->
  buildTree fuel cs None = Some tree ->
  forest_height tree <= List.length cs.
Proof.
  intros Hnd Ht.
  pose proof (forest_height_bound cs Hnd fuel None 0 tree eq_refl Ht). lia.
Qed.

Lemma buildTree_height_witness :
  forest_height [leaf "a1" "A" [leaf "b2" "B" [leaf "c3" "C" []]]; leaf "d4" "D" []]
  <= List.length example_categories.
Proof.
  apply (buildTree_height example_categories 4); [distinct_ids | reflexivity].
Defined.

Lemma forest_reachable cs :
  is_forest cs -> forall c, In c cs -> reachable cs (Category._id c).
Proof.
  intros (rank & Hrank).
  assert (H : forall n c, In c cs -> rank (Category._id c) < n ->
                          reachable cs (Category._id c)).
  { induction n as [|n IH]; intros c Hc Hn; [lia|].
    destruct (Category.parentCategory c) as [q|] eqn:Hq.
    - destruct (Hrank c q Hc Hq) as ((d & Hd & Hid) & Hlt).
      destruct (IH d Hd) as [k Hk]; [rewrite Hid; lia|].
      exists (S k). apply descends_snoc with q; auto. now rewrite <- Hid.
    - exists 1. constructor; auto. now apply is_child_spec. }
  intros c Hc. apply (H (S (rank (Category._id c)))); auto.
Qed.

(** X14. When the categories form a forest (unique ids, every parent
    reference resolves within the collection and no chain of them loops),
    [buildTree()] returns a tree, the same under every recursion bound above
    the number of categories, and it holds every category exactly once: its
    ids are a rearrangement of the collection's ids. *)
Theorem buildTree_forest_complete (cs : list Category.t) :
  NoDup (map Category._id cs) ->
  is_forest cs ->
  exists tree,
    (forall fuel, List.length cs < fuel -> buildTree fuel cs None = Some tree) /\
    Permutation (tree_ids tree) (map Category._id cs) /\
    List.length (forest_nodes tree) = List.length cs.
Proof.
  intros Hnd Hforest.
  destruct (buildTree_returns cs Hnd) as [tree Hret].
  pose proof (Hret (S (List.length cs)) ltac:(lia)) as Ht.
  set (fuel := S (List.length cs)) in Ht.
  exists tree. split; [exact Hret|].
  destruct (buildTree_ids cs Hnd fuel None 0 tree eq_refl Ht) as [Hnodup Hsound].
  assert (Hperm : Permutation (tree_ids tree) (map Category._id cs)).
  { apply NoDup_Permutation; auto. intros i. split.
    - intros Hi. destruct (Hsound i Hi) as [n Hn].
      apply descends_last in Hn. destruct Hn as (c & Hc & <- & _).
      now apply in_map.
    - intros Hi. apply in_map_iff in Hi. destruct Hi as (c & <- & Hc).
      destruct (forest_reachable cs Hforest c Hc) as [n Hn].
      exact (buildTree_complete cs n None _ Hn fuel tree Ht). }
  split; [exact Hperm|].
  apply Permutation_length in Hperm. unfold tree_ids in Hperm.
  now rewrite !length_map in Hperm.
Qed.

Lemma buildTree_forest_complete_witness :
  exists tree,
    (forall fuel, List.length example_categories < fuel ->
                  buildTree fuel example_categories None = Some tree) /\
    Permutation (tree_ids tree) (map Category._id example_categories) /\
    List.length (forest_nodes tree) = List.length example_categories.
Proof.
  apply (buildTree_forest_complete example_categories); [distinct_ids|].
  exists (fun i => if String.eqb i "c3" then 2 else if String.eqb i "b2" then 1 else 0).
  intros c q [<-|[<-|[<-|[<-|[]]]]]; simpl; intros [= <-].
  - split; [exists catA; simpl; tauto | simpl; lia].
  - split; [exists catB; simpl; tauto | simpl; lia].
Defined.

(** ** More on the product handlers *)

(** X15. [createProduct] creates nothing in a category that is not there:
    when no category is stored under [req.body.category], the answer is 404
    "Category not found" (or, for a string that is no ObjectId, the cast
    error goes to [next]), [Product.create] is not reached and the store is
    as it was. *)
Theorem createProduct_category_guard {Body : Type} (create : Body -> Db Product.t)
    (s : Store) (category : string) (body : Body) :
  stored_category s category = None ->
  handle (createProduct create category body) s
  = (match castObjectId category with
     | Some _ => Sent (fail 404 "Category not found")
     | None => Next (CastError "_id" category)
     end, s).
Proof.
  intros Hnone. unfold handle, createProduct.
  destruct (castObjectId category) as [oid|] eqn:Hcast.
  - rewrite bind_findById_category, Hnone by congruence. reflexivity.
  - unfold bind, findById. rewrite Hcast. reflexivity.
Qed.

Lemma createProduct_category_guard_witness :
  handle (createProduct
            (fun p => modify (set_products (fun l => l ++ [p])) ;;; ret p)
            absent_id (mkProduct absent_id "chair" 2%Z 0%Q 0%Z)) catalog
  = (Sent (fail 404 "Category not found"), catalog).
Proof.
  apply (createProduct_category_guard _ catalog absent_id). reflexivity.
Defined.

(** The outcomes of [updateProduct]: either nothing is written, or one
    stored product is replaced, where it stands, by itself with the body's
    paths set, the body having passed the validators. *)
Lemma updateProduct_store valid_text id body s :
  snd (handle (updateProduct valid_text id body) s) = s \/
  exists oid p p' l1 l2,
    castObjectId id = Some oid /\ Product._id p = oid /\
    products s = l1 ++ p :: l2 /\
    (forall x, In x l1 -> String.eqb (Product._id x) oid = false) /\
    apply_product_body body p = Some p' /\
    valid_text body = true /\ numbers_valid body = true /\
    handle (updateProduct valid_text id body) s
    = (Sent (ok 200 (Some p')), set_products (fun _ => l1 ++ p' :: l2) s).
Proof.
  unfold handle, updateProduct.
  destruct (castObjectId id) as [oid|] eqn:Hcast;
    [|left; unfold bind, findById; now rewrite Hcast].
  rewrite bind_findById_product by congruence.
  destruct (stored_product s id) as [p|] eqn:Hp; [|now left].
  destruct (stored_product_split s id p Hp)
    as (oid' & l1 & l2 & Hcast' & Hid & E & Hl1).
  rewrite Hcast in Hcast'. injection Hcast' as <-.
  unfold findByIdAndUpdate_product. rewrite Hcast, bind_assoc, bind_gets.
  unfold stored_product in Hp. rewrite Hcast in Hp. rewrite Hp.
  destruct (apply_product_body body p) as [p'|] eqn:Happly; [|now left].
  destruct (valid_text body) eqn:Hvt; [|now left].
  destruct (numbers_valid body) eqn:Hnv; [|now left].
  right. exists oid, p, p', l1, l2. repeat split; auto.
  unfold bind, modify, ret. simpl. unfold set_products. simpl.
  rewrite E, update_first_app by exact Hl1. simpl.
  now rewrite Hid, String.eqb_refl.
Qed.

Lemma in_bounds_spec lo hi v x :
  in_bounds lo hi v = true -> v = Some x ->
  (lo <= x)%Q /\ (forall h, hi = Some h -> (x <= h)%Q).
Proof.
  intros H ->. simpl in H. apply andb_true_iff in H. destruct H as [Hlo Hhi].
  apply Qle_bool_iff in Hlo. split; auto.
  intros h ->. now apply Qle_bool_iff.
Qed.

(** X16. An [updateProduct] request whose body sets paths of the schema to
    values of their types (no update operator) keeps the schema's bounds on
    a product's numbers: whatever the id and such a body, if every stored
    product has a price and a stock of at least 0 and a rating from 0 to 5,
    every product still has. *)
Theorem updateProduct_keeps_bounds (valid_text : ProductBody -> bool) (s : Store)
    (id : string) (body : ProductBody) :
  Forall product_in_bounds (products s) ->
  Forall product_in_bounds (products (snd (handle (updateProduct valid_text id body) s))).
Proof.
  intros Hs.
  destruct (updateProduct_store valid_text id body s)
    as [-> | (oid & p & p' & l1 & l2 & _ & _ & E & _ & Happly & _ & Hnv & ->)]; auto.
  simpl. rewrite E in Hs. apply Forall_app in Hs. destruct Hs as [H1 H2].
  inversion H2 as [|? ? Hp Hl2]; subst. apply Forall_app. split; auto.
  constructor; auto. clear H1 H2 Hl2 E.
  unfold apply_product_body in Happly.
  destruct (match pb_category body with
            | Some raw => castObjectId raw
            | None => Some (Product.category p) end); [|discriminate].
  injection Happly as <-.
  unfold numbers_valid in Hnv.
  apply andb_true_iff in Hnv. destruct Hnv as [Hnv Hrating].
  apply andb_true_iff in Hnv. destruct Hnv as [Hprice Hstock].
  destruct Hp as (Pp & Ps & Pr0 & Pr5). unfold product_in_bounds. simpl.
  repeat split.
  - destruct (pb_price body) as [x|] eqn:Ex; simpl; auto.
    now apply (in_bounds_spec 0 None (Some x) x Hprice eq_refl).
  - destruct (pb_stock body) as [n|]; simpl; auto.
  - destruct (pb_rating body) as [x|] eqn:Ex; simpl; auto.
    now apply (in_bounds_spec 0 (Some 5%Q) (Some x) x Hrating eq_refl).
  - destruct (pb_rating body) as [x|] eqn:Ex; simpl; auto.
    now apply (in_bounds_spec 0 (Some 5%Q) (Some x) x Hrating eq_refl).
Qed.

Lemma updateProduct_keeps_bounds_witness :
  Forall product_in_bounds
    (products (snd (handle (updateProduct (fun _ => true) pid1
                              (set_rating_body (7 # 2))) catalog))) /\
  Forall product_in_bounds
    (products (snd (handle (updateProduct (fun _ => true) pid1
                              (set_rating_body 6)) catalog))).
Proof.
  assert (H : Forall product_in_bounds (products catalog)).
  { repeat constructor; simpl; try lia; try lra. }
  split; apply updateProduct_keeps_bounds; exact H.
Defined.

(** X17. [updateProduct] does not protect the aggregate: a body that carries
    a [rating] from 0 to 5 has it stored as the product's rating whatever
    the reviews are, so the product agrees with its reviews afterwards only
    if the body's rating happens to be their mean. *)
Theorem updateProduct_overwrites_rating (valid_text : ProductBody -> bool)
    (s : Store) (id : string) (p : Product.t) (r : Q) :
  stored_product s id = Some p ->
  (0 <= r)%Q -> (r <= 5)%Q ->
  valid_text (set_rating_body r) = true ->
  fst (handle (updateProduct valid_text id (set_rating_body r)) s)
  = Sent (ok 200 (Some (set_rating r (Product.numReviews p) p))) /\
  stored_product (snd (handle (updateProduct valid_text id (set_rating_body r)) s)) id
  = Some (set_rating r (Product.numReviews p) p) /\
  reviews (snd (handle (updateProduct valid_text id (set_rating_body r)) s))
  = reviews s /\
  (aggregate_exact (snd (handle (updateProduct valid_text id (set_rating_body r)) s))
     (set_rating r (Product.numReviews p) p) ->
   (r == mean_rating (reviews_of s (Product._id p)))%Q).
Proof.
  intros Hp H0 H5 Hvt.
  destruct (stored_product_split s id p Hp)
    as (oid & l1 & l2 & Hcast & Hid & E & Hl1).
  assert (Hnv : numbers_valid (set_rating_body r) = true).
  { unfold numbers_valid. simpl. apply andb_true_iff. split; now apply Qle_bool_iff. }
  assert (Hrun : handle (updateProduct valid_text id (set_rating_body r)) s
                 = (Sent (ok 200 (Some (set_rating r (Product.numReviews p) p))),
                    set_products
                      (fun _ => l1 ++ set_rating r (Product.numReviews p) p :: l2) s)).
  { unfold handle, updateProduct.
    rewrite bind_findById_product, Hp by congruence.
    unfold findByIdAndUpdate_product. rewrite Hcast, bind_assoc, bind_gets.
    unfold stored_product in Hp. rewrite Hcast in Hp. rewrite Hp.
    change (apply_product_body (set_rating_body r) p)
      with (Some (set_rating r (Product.numReviews p) p)).
    cbv iota. rewrite Hvt, Hnv. unfold bind, modify, ret. simpl.
    unfold set_products. simpl. rewrite E, update_first_app by exact Hl1.
    simpl. now rewrite Hid, String.eqb_refl. }
  rewrite Hrun. simpl fst. simpl snd. repeat split.
  - unfold stored_product. rewrite Hcast. simpl.
    rewrite find_app_skip by exact Hl1. simpl. now rewrite Hid, String.eqb_refl.
  - intros [Hr _]. exact Hr.
Qed.

Lemma updateProduct_overwrites_rating_witness :
  stored_product
    (snd (handle (updateProduct (fun _ => true) pid1 (set_rating_body 5)) catalog))
    pid1
  = Some (mkProduct pid1 "lamp" 3%Z 5%Q 0%Z).
Proof.
  apply (updateProduct_overwrites_rating (fun _ => true) catalog pid1
           (mkProduct pid1 "lamp" 3%Z 0%Q 0%Z) 5 eq_refl); try reflexivity; lra.
Defined.

Lemma destroy_images_spec images :
  destroy_images images
  = if existsb has_public_id images then Some (ReferenceError "cloudinary") else None.
Proof.
  induction images as [|i l IH]; simpl; auto.
  destruct (has_public_id i); auto.
Qed.

Lemma find_remove_first_none {A} (f : A -> ObjectId) oid (l : list A) :
  NoDup (map f l) ->
  find (fun x => String.eqb (f x) oid)
       (remove_first (fun x => String.eqb (f x) oid) l) = None.
Proof.
  induction l as [|x l IH]; simpl; intros Hnd; auto.
  inversion Hnd as [|? ? Hx Hl]; subst.
  destruct (String.eqb (f x) oid) eqn:Hfx; simpl.
  - apply String.eqb_eq in Hfx. destruct (find _ l) as [y|] eqn:Hy; auto.
    apply find_some in Hy. destruct Hy as [Hin Hfy]. apply String.eqb_eq in Hfy.
    exfalso. apply Hx. rewrite Hfx, <- Hfy. now apply in_map.
  - rewrite Hfx. auto.
Qed.

(** X18. [deleteProduct] cannot delete a product that has an image with a
    [public_id]: the loop over its images names [cloudinary], which the
    module does not bind, so the request ends in a [ReferenceError] with the
    store as it was.  A stored product without such an image is removed and
    the answer is 200; its reviews stay in the store, and where ids are
    unique nothing is stored under its id any more. *)
Theorem deleteProduct_images (images_of : Product.t -> list ProductImage)
    (s : Store) (id : string) (p : Product.t) :
  stored_product s id = Some p ->
  (existsb has_public_id (images_of p) = true ->
   deleteProduct images_of id s = (inl (ReferenceError "cloudinary"), s)) /\
  (existsb has_public_id (images_of p) = false ->
   fst (deleteProduct images_of id s) = inr (ok 200 tt) /\
   reviews (snd (deleteProduct images_of id s)) = reviews s /\
   categories (snd (deleteProduct images_of id s)) = categories s /\
   List.length (products (snd (deleteProduct images_of id s)))
   = pred (List.length (products s)) /\
   (NoDup (map Product._id (products s)) ->
    stored_product (snd (deleteProduct images_of id s)) id = None)).
Proof.
  intros Hp. pose proof (stored_product_cast _ _ _ Hp) as Hcast.
  unfold deleteProduct. rewrite findById_product, Hp, destroy_images_spec by exact Hcast.
  split; intros Himg; rewrite Himg; [reflexivity|].
  simpl. repeat split.
  - destruct (stored_product_split s id p Hp) as (oid & l1 & l2 & _ & Hid & E & Hl1).
    rewrite E. unfold has_id. rewrite Hid, remove_first_app by exact Hl1.
    simpl. rewrite <- Hid at 1. rewrite String.eqb_refl.
    rewrite !length_app. simpl. lia.
  - intros Hnd. unfold stored_product in *.
    destruct (castObjectId id) as [oid|]; [|congruence]. simpl.
    pose proof (find_some _ _ Hp) as [_ Hid]. apply String.eqb_eq in Hid.
    unfold has_id. rewrite Hid. now apply find_remove_first_none.
Qed.

Lemma deleteProduct_images_witness :
  deleteProduct
    (fun _ => [{| pi_url := "https://cdn.example/lamp.png";
                  pi_public_id := Some "products/lamp"; pi_alt := None |}])
    pid1 catalog
  = (inl (ReferenceError "cloudinary"), catalog) /\
  stored_product (snd (deleteProduct (fun _ => []) pid1 catalog)) pid1 = None.
Proof.
  split.
  - apply (proj1 (deleteProduct_images _ catalog pid1
                    (mkProduct pid1 "lamp" 3%Z 0%Q 0%Z) eq_refl)).
    reflexivity.
  - apply (proj2 (deleteProduct_images (fun _ => []) catalog pid1
                    (mkProduct pid1 "lamp" 3%Z 0%Q 0%Z) eq_refl) eq_refl).
    distinct_ids.
Defined.

(** X19. With a price of at least 0 and a discount percentage from 0 to 100
    (the schema's bounds), [finalPrice] lies between 0 and the price; it is
    the price itself when there is no discount or the percentage is 0, and 0
    at 100 percent. *)
Theorem finalPrice_bounds (price percentage : Q) :
  (0 <= price)%Q -> (0 <= percentage)%Q -> (percentage <= 100)%Q ->
  (0 <= finalPrice price (Some percentage))%Q /\
  (finalPrice price (Some percentage) <= price)%Q /\
  finalPrice price None = price /\
  finalPrice price (Some 0%Q) = price /\
  (finalPrice price (Some 100%Q) == 0)%Q.
Proof.
  intros Hp H0 H100. unfold finalPrice.
  assert (Hfrac : (0 <= 1 - percentage / 100)%Q /\ (1 - percentage / 100 <= 1)%Q).
  { assert (Hd : (percentage / 100 == percentage * (1 # 100))%Q)
      by (unfold Qdiv; reflexivity).
    rewrite Hd. split; lra. }
  destruct Hfrac as [F0 F1].
  split; [|split; [|split; [|split]]].
  - destruct (Qle_bool percentage 0); auto.
    apply Qmult_le_0_compat; auto.
  - destruct (Qle_bool percentage 0); [apply Qle_refl|].
    rewrite <- (Qmult_1_r price) at 2.
    rewrite (Qmult_comm price), (Qmult_comm price).
    apply Qmult_le_compat_r; auto.
  - reflexivity.
  - reflexivity.
  - change (Qle_bool 100 0) with false. cbv iota.
    assert (E : (1 - 100 / 100 == 0)%Q) by reflexivity.
    rewrite E. ring.
Qed.

Lemma finalPrice_bounds_witness :
  (0 <= finalPrice 80 (Some 25%Q))%Q /\ (finalPrice 80 (Some 25%Q) <= 80)%Q.
Proof.
  assert (Hp : (0 <= 80)%Q) by lra.
  assert (H0 : (0 <= 25)%Q) by lra.
  assert (H100 : (25 <= 100)%Q) by lra.
  destruct (finalPrice_bounds 80 25 Hp H0 H100) as (A & B & _).
  split; assumption.
Defined.

(** ** More on the product listing *)

(** X20. A [select] or [sort] parameter that is not a string (one given
    twice, say, which arrives as an array) makes the listing throw a
    [TypeError], since only a string has [split]; the store is left as it
    was. *)
Theorem getProducts_composite_select (sem : StoreSem) (query : QueryParams)
    (s : Store) (filter : json) :
  find_filter query = Some filter ->
  is_composite (lookup "select" query) = true \/
  (splittable (lookup "select" query) /\ is_composite (lookup "sort" query) = true) ->
  handle (getProducts sem query) s
  = (Next (TypeError "split is not a function"), s).
Proof.
  intros Hfilter Hbad. unfold handle, getProducts. rewrite Hfilter.
  destruct Hbad as [Hsel | [Hsel Hsort]].
  - destruct (lookup "select" query) as [[str| |]|]; try discriminate; reflexivity.
  - destruct (select_splittable _ Hsel) as [fields ->]. rewrite bind_ret.
    destruct (lookup "sort" query) as [[str| |]|]; try discriminate; reflexivity.
Qed.

Lemma getProducts_composite_select_witness :
  handle (getProducts sample_sem
            [("select", JArr [JStr "name"; JStr "price"])]) (shop 3)
  = (Next (TypeError "split is not a function"), shop 3) /\
  handle (getProducts sample_sem
            [("select", JStr "name"); ("sort", JArr [JStr "price"; JStr "name"])])
         (shop 3)
  = (Next (TypeError "split is not a function"), shop 3).
Proof.
  split.
  - apply (getProducts_composite_select sample_sem
             [("select", JArr [JStr "name"; JStr "price"])] (shop 3) (JObj []) eq_refl).
    left. reflexivity.
  - apply (getProducts_composite_select sample_sem
             [("select", JStr "name"); ("sort", JArr [JStr "price"; JStr "name"])]
             (shop 3) (JObj []) eq_refl).
    right. split; [right; now exists "name" | reflexivity].
Defined.

Lemma firstn_nil_iff {A} n (l : list A) : 0 < n -> (firstn n l = [] <-> l = []).
Proof.
  intros Hn. destruct n; [lia|]. destruct l; simpl; split; auto; discriminate.
Qed.

Lemma skipn_nil_iff {A} n (l : list A) : skipn n l = [] <-> List.length l <= n.
Proof.
  split.
  - intros H. pose proof (length_skipn n l) as E. rewrite H in E. simpl in E. lia.
  - apply skipn_all2.
Qed.

Lemma map_nil_iff {A B} (f : A -> B) l : map f l = [] <-> l = [].
Proof. destruct l; simpl; split; auto; discriminate. Qed.

(** X21. For a listing the store runs, with a page and a limit read as
    positive whole numbers, and where the store's ordering keeps every
    match: the [next] link is present exactly when the following page has
    something on it, and the [prev] link exactly when the page is not the
    first. *)
Theorem getProducts_next_iff_more (sem : StoreSem) (query : QueryParams)
    (s : Store) (filter : json) (p l : Z) :
  (forall spec docs, List.length (order sem spec docs) = List.length docs) ->
  find_filter query = Some filter ->
  splittable (lookup "select" query) ->
  splittable (lookup "sort" query) ->
  reads_window query p l ->
  accepted sem query filter ->
  (Z.of_nat (List.length (matching sem (conditions_of filter query) s)) < 2 ^ 53)%Z ->
  exists listing,
    handle (getProducts sem query) s = (Sent (ok 200 listing), s) /\
    items listing = page_slice sem query filter s p l /\
    (next (pagination listing) = None <->
     page_slice sem query filter s (p + 1) l = []) /\
    (prev (pagination listing) = None <-> p = 1%Z).
Proof.
  intros Horder Hfilter Hselect Hsort Hwin Hacc Htotal.
  eexists. split; [apply (getProducts_run sem query filter s p l); assumption|].
  destruct Hwin as (_ & _ & Hp & Hl & _).
  cbn [items pagination next prev]. split; [reflexivity|]. split.
  - unfold page_slice. rewrite map_nil_iff, firstn_nil_iff, skipn_nil_iff by lia.
    unfold ordered. rewrite Horder.
    replace (p + 1 - 1)%Z with p by lia.
    destruct (Z.ltb_spec (p * l)
                (Z.of_nat (List.length (matching sem (conditions_of filter query) s))));
      split; intros H'; try discriminate; try reflexivity; nia.
  - destruct (Z.ltb_spec 1 p); split; intros H'; try discriminate; try reflexivity; lia.
Qed.

Lemma getProducts_next_iff_more_witness :
  exists listing,
    handle (getProducts sample_sem [("page", JStr "3"); ("limit", JStr "10")]) (shop 25)
    = (Sent (ok 200 listing), shop 25) /\
    List.length (items listing) = 5 /\
    next (pagination listing) = None /\
    prev (pagination listing)
    = Some {| pr_page := Finite 2; pr_limit := Finite 10 |}.
Proof.
  destruct (getProducts_next_iff_more sample_sem
              [("page", JStr "3"); ("limit", JStr "10")] (shop 25) (JObj []) 3%Z 10%Z)
    as (listing & H1 & H2 & H3 & _);
    try reflexivity; try (left; reflexivity).
  - repeat split; try reflexivity; lia.
  - split; reflexivity.
  - exists listing. split; [exact H1|]. split; [rewrite H2; reflexivity|].
    split; [apply H3; reflexivity|].
    assert (E : handle (getProducts sample_sem [("page", JStr "3"); ("limit", JStr "10")])
                  (shop 25)
                = (Sent (ok 200 listing), shop 25)) by exact H1.
    vm_compute in E. injection E as <-. reflexivity.
Defined.

Lemma firstn_skipn_add {A} a b n (l : list A) :
  firstn a (skipn n l) ++ firstn b (skipn (n + a) l) = firstn (a + b) (skipn n l).
Proof.
  rewrite (Nat.add_comm n a), <- skipn_skipn.
  generalize (skipn n l) as k. clear l n.
  induction a as [|a IH]; intros k; simpl; auto.
  destruct k as [|x k]; simpl.
  - now rewrite firstn_nil.
  - now rewrite IH.
Qed.

Lemma same_listing_accepted sem query query' filter :
  same_listing query query' -> accepted sem query filter -> accepted sem query' filter.
Proof.
  intros (_ & Ssearch & Sselect & Ssort & _) [Hc Hv].
  unfold accepted, conditions_of, fields_of, sortBy_of in *.
  rewrite Ssearch, Sselect, Ssort. now split.
Qed.

(** X22. Two listings the store runs that differ only in asking for one
    page and for the next (pages and limit read as positive whole numbers)
    answer with adjacent slices of the same ordered matches: put one after
    the other, their documents are the 2 * limit documents that start at the
    first page's offset, so that nothing between them is skipped. *)
Theorem getProducts_pages_adjacent (sem : StoreSem) (query query' : QueryParams)
    (s : Store) (filter : json) (p l : Z) :
  find_filter query = Some filter ->
  same_listing query query' ->
  reads_window query p l ->
  reads_window query' (p + 1) l ->
  splittable (lookup "select" query) ->
  splittable (lookup "sort" query) ->
  accepted sem query filter ->
  (Z.of_nat (List.length (matching sem (conditions_of filter query) s)) < 2 ^ 53)%Z ->
  exists listing listing',
    handle (getProducts sem query) s = (Sent (ok 200 listing), s) /\
    handle (getProducts sem query') s = (Sent (ok 200 listing'), s) /\
    items listing ++ items listing'
    = map (shape sem (fields_of query))
          (firstn (2 * Z.to_nat l)
             (skipn (Z.to_nat ((p - 1) * l)) (ordered sem query filter s))).
Proof.
  intros Hfilter Hsame Hwin Hwin' Hselect Hsort Hacc Htotal.
  pose proof (same_listing_accepted sem query query' filter Hsame Hacc) as Hacc'.
  destruct Hsame as (Sf & Ssearch & Sselect & Ssort & Slimit).
  eexists. eexists.
  split; [apply (getProducts_run sem query filter s p l); assumption|]. split.
  - apply (getProducts_run sem query' filter s (p + 1) l); try congruence.
    unfold conditions_of. now rewrite Ssearch.
  - destruct Hwin as (_ & _ & Hp & Hl & _).
    cbn [items]. unfold page_slice, ordered, fields_of, sortBy_of, conditions_of.
    rewrite Sselect, Ssort, Ssearch, <- map_app. f_equal.
    replace (Z.to_nat ((p + 1 - 1) * l))
      with (Z.to_nat ((p - 1) * l) + Z.to_nat l) by nia.
    rewrite firstn_skipn_add. f_equal. lia.
Qed.

Lemma getProducts_pages_adjacent_witness :
  exists listing listing',
    handle (getProducts sample_sem [("page", JStr "1"); ("limit", JStr "2")]) (shop 5)
    = (Sent (ok 200 listing), shop 5) /\
    handle (getProducts sample_sem [("page", JStr "2"); ("limit", JStr "2")]) (shop 5)
    = (Sent (ok 200 listing'), shop 5) /\
    map Product._id (items listing ++ items listing') = ["0"; "1"; "2"; "3"].
Proof.
  destruct (getProducts_pages_adjacent sample_sem
              [("page", JStr "1"); ("limit", JStr "2")]
              [("page", JStr "2"); ("limit", JStr "2")] (shop 5) (JObj []) 1%Z 2%Z)
    as (l & l' & H1 & H2 & H3);
    try reflexivity; try (left; reflexivity).
  - repeat split.
  - repeat split; try reflexivity; lia.
  - repeat split; try reflexivity; lia.
  - split; reflexivity.
  - exists l, l'. split; [exact H1|]. split; [exact H2|]. rewrite H3. reflexivity.
Defined.

(** ** The filter stage on queries without escapes *)

Local Open Scope string_scope.

Lemma sapp_assoc (a b c : string) : (a ++ b) ++ c = a ++ (b ++ c).
Proof. induction a as [|x a IH]; simpl; congruence. Qed.

Lemma sapp_nil_r (a : string) : a ++ "" = a.
Proof. induction a as [|x a IH]; simpl; congruence. Qed.

Lemma slength_app (a b : string) :
  String.length (a ++ b) = String.length a + String.length b.
Proof. induction a as [|x a IH]; simpl; congruence. Qed.

Lemma plain_app a b : plain (a ++ b) = plain a && plain b.
Proof.
  unfold plain. induction a as [|x a IH]; simpl; auto.
  now rewrite IH, andb_assoc.
Qed.

(** *** The replacement, piece by piece *)

Lemma replace_from_nonword w a c b :
  is_word c = false ->
  replace_from w (a ++ String c b)
  = replace_from w a ++ String c (replace_from "" b).
Proof.
  intros Hc. revert w. induction a as [|x a IH]; intros w; simpl.
  - now rewrite Hc.
  - destruct (is_word x); [apply IH|].
    now rewrite IH, sapp_assoc.
Qed.

Lemma replace_from_cons_nonword c b :
  is_word c = false -> replace_from "" (String c b) = String c (replace_from "" b).
Proof. intros Hc. simpl. now rewrite Hc. Qed.

Lemma flush_plain w : plain w = true -> plain (flush w) = true.
Proof.
  intros H. unfold flush. destruct (existsb _ operators); auto.
Qed.

Lemma replace_from_plain w s :
  plain w = true -> plain s = true -> plain (replace_from w s) = true.
Proof.
  revert w. induction s as [|c s IH]; intros w Hw Hs; simpl.
  - now apply flush_plain.
  - unfold plain in Hs. simpl in Hs. apply andb_true_iff in Hs. destruct Hs as [Hc Hs].
    destruct (is_word c).
    + apply IH; auto. rewrite plain_app, Hw. unfold plain. simpl. now rewrite Hc.
    + rewrite plain_app, flush_plain by auto. unfold plain. simpl. rewrite Hc.
      now apply IH.
Qed.

Lemma quote_char_plain c : plain_char c = true -> quote_char c = String c "".
Proof.
  unfold plain_char, quote_char. intros H.
  apply andb_true_iff in H. destruct H as [H H92].
  apply andb_true_iff in H. destruct H as [H32 H34].
  apply Nat.leb_le in H32. apply negb_true_iff in H34, H92.
  apply Nat.eqb_neq in H34, H92.
  repeat match goal with
         | |- context [(?a =? ?b)%nat] =>
             let E := fresh in
             destruct (Nat.eqb_spec a b) as [E|E]; [exfalso; lia|]
         end.
  destruct (Nat.ltb_spec (nat_of_ascii c) 32); [exfalso; lia|]. reflexivity.
Qed.

Lemma quote_body_plain s : plain s = true -> quote_body s = s.
Proof.
  unfold plain. induction s as [|c s IH]; simpl; auto.
  intros H. apply andb_true_iff in H. destruct H as [Hc Hs].
  now rewrite quote_char_plain, IH.
Qed.

Lemma rewrites_to_char c :
  is_word c = false -> rewrites_to (String c "") (String c "").
Proof. intros Hc rest. simpl. now rewrite Hc. Qed.

Lemma rewrites_to_cons c b b' :
  is_word c = false -> rewrites_to b b' -> rewrites_to (String c b) (String c b').
Proof.
  intros Hc Hb rest. cbn [append].
  rewrite replace_from_cons_nonword by exact Hc. now rewrite Hb.
Qed.

Lemma rewrites_to_app a a' b b' :
  rewrites_to a a' -> rewrites_to b b' -> rewrites_to (a ++ b) (a' ++ b').
Proof.
  intros Ha Hb rest. now rewrite !sapp_assoc, Ha, Hb.
Qed.

Lemma rewrites_to_quote s :
  plain s = true -> rewrites_to (quote s) (quote (replace_operators s)).
Proof.
  intros Hs rest. unfold quote.
  rewrite quote_body_plain by exact Hs.
  rewrite (quote_body_plain (replace_operators s))
    by (apply replace_from_plain; auto).
  cbn [append].
  rewrite replace_from_cons_nonword by reflexivity. f_equal.
  rewrite !sapp_assoc. cbn [append].
  now apply replace_from_nonword.
Qed.

Lemma rewrites_to_join ts ts' c :
  Forall2 rewrites_to ts ts' -> is_word c = false ->
  forall rest,
    replace_from "" (join "," ts ++ String c rest)
    = join "," ts' ++ String c (replace_from "" rest).
Proof.
  intros H Hc. induction H as [|t t' ts ts' Ht Hts IH]; intros rest.
  - simpl. now rewrite Hc.
  - destruct Hts as [|u u' ts ts' Hu Hts].
    + simpl. rewrite Ht. simpl. now rewrite Hc.
    + change (join "," (t :: u :: ts)) with (t ++ "," ++ join "," (u :: ts)).
      change (join "," (t' :: u' :: ts')) with (t' ++ "," ++ join "," (u' :: ts')).
      rewrite !sapp_assoc, Ht. simpl. f_equal. f_equal. apply IH.
Qed.

Lemma stringify_arr items :
  stringify (JArr items) = "[" ++ join "," (map stringify items) ++ "]".
Proof. reflexivity. Qed.

Lemma stringify_obj fields :
  stringify (JObj fields)
  = "{" ++ join "," (map (fun kv => quote (fst kv) ++ ":" ++ stringify (snd kv)) fields)
        ++ "}".
Proof.
  simpl. do 2 f_equal. f_equal. apply map_ext. now intros [k v].
Qed.

(** The replacement keeps the shape of a serialized value and rewrites its
    strings one by one. *)
Lemma rewrites_to_stringify j :
  plain_json j = true -> rewrites_to (stringify j) (stringify (translate j)).
Proof.
  induction j as [s | items IH | fields IH] using json_nested_ind; intros Hp.
  - apply rewrites_to_quote. exact Hp.
  - intros rest. change (translate (JArr items)) with (JArr (map translate items)).
    rewrite !stringify_arr. cbn [append].
    rewrite replace_from_cons_nonword by reflexivity. f_equal.
    rewrite !sapp_assoc. cbn [append].
    apply rewrites_to_join; [|reflexivity].
    simpl in Hp. rewrite forallb_forall in Hp. rewrite Forall_forall in IH.
    clear rest. induction items as [|x items IHl]; simpl; constructor.
    + apply IH; [now left | apply Hp; now left].
    + apply IHl; intros; [apply IH; [now right | assumption] | apply Hp; now right].
  - intros rest.
    change (translate (JObj fields))
      with (JObj (map (fun kv => let '(k, v) := kv in
                                 (replace_operators k, translate v)) fields)).
    rewrite !stringify_obj. cbn [append].
    rewrite replace_from_cons_nonword by reflexivity. f_equal.
    rewrite !sapp_assoc. cbn [append].
    apply rewrites_to_join; [|reflexivity].
    simpl in Hp. rewrite forallb_forall in Hp. rewrite Forall_forall in IH.
    clear rest. induction fields as [|[k v] fields IHl]; cbn [map fst snd]; constructor.
    + assert (Hkv : plain k && plain_json v = true) by (apply (Hp (k, v)); now left).
      apply andb_true_iff in Hkv. destruct Hkv as [Hk Hv].
      apply rewrites_to_app; [now apply rewrites_to_quote|].
      apply rewrites_to_cons; [reflexivity|].
      apply (IH (k, v)); [now left | exact Hv].
    + apply IHl; intros; [apply IH; [now right | assumption] | apply Hp; now right].
Qed.

(** *** Reading back what was written *)

Lemma plain_char_spec c :
  plain_char c = true ->
  Ascii.eqb c dquote = false /\ Ascii.eqb c backslash = false /\
  (nat_of_ascii c <? 32)%nat = false.
Proof.
  unfold plain_char. intros H.
  apply andb_true_iff in H. destruct H as [H H92].
  apply andb_true_iff in H. destruct H as [H32 H34].
  apply Nat.leb_le in H32. apply negb_true_iff in H34, H92.
  apply Nat.eqb_neq in H34, H92.
  repeat split.
  - apply Ascii.eqb_neq. intros ->. now apply H34.
  - apply Ascii.eqb_neq. intros ->. now apply H92.
  - apply Nat.ltb_ge. exact H32.
Qed.

Lemma parse_string_plain s rest :
  plain s = true -> parse_string (s ++ String dquote rest) = Some (s, rest).
Proof.
  unfold plain. induction s as [|c s IH]; intros H.
  - reflexivity.
  - simpl in H. apply andb_true_iff in H. destruct H as [Hc Hs].
    destruct (plain_char_spec c Hc) as (Hq & Hb & Hctl).
    cbn [append parse_string]. rewrite Hq, Hb, Hctl, IH by exact Hs. reflexivity.
Qed.

Lemma parse_quote k rest :
  plain k = true -> parse_string (quote_body k ++ String dquote rest) = Some (k, rest).
Proof.
  intros Hk. rewrite quote_body_plain by exact Hk. now apply parse_string_plain.
Qed.

Lemma stringify_head j :
  exists c t, stringify j = String c t /\
              (c = dquote \/ c = "["%char \/ c = "{"%char).
Proof.
  destruct j as [s | items | fields].
  - exists dquote. eexists. split; [reflexivity | auto].
  - exists "["%char. eexists. split; [reflexivity | auto].
  - exists "{"%char. eexists. split; [reflexivity | auto].
Qed.

Lemma join_head c t ts sep :
  exists t', join sep (String c t :: ts) = String c t'.
Proof.
  destruct ts; simpl; eauto.
Qed.

Lemma parse_value_str f s rest :
  plain s = true ->
  parse_value (S f) (stringify (JStr s) ++ rest) = Some (JStr s, rest).
Proof.
  intros Hs. cbn [stringify quote append parse_value].
  change (Ascii.eqb dquote dquote) with true. cbv iota.
  rewrite sapp_assoc. cbn [append]. now rewrite parse_quote.
Qed.

Lemma parse_elements_join items :
  Forall (fun x => plain_json x = true ->
                   forall fuel rest, jsize x <= fuel ->
                     parse_value fuel (stringify x ++ rest) = Some (x, rest)) items ->
  forallb plain_json items = true ->
  items <> [] ->
  forall fuel rest,
    list_sum (map jsize items) + List.length items <= fuel ->
    parse_elements fuel (join "," (map stringify items) ++ String "]" rest)
    = Some (items, rest).
Proof.
  induction 1 as [|x items Hx Hitems IH]; intros Hp Hne fuel rest Hfuel; [congruence|].
  simpl in Hp. apply andb_true_iff in Hp. destruct Hp as [Hpx Hpl].
  destruct fuel as [|f]; [simpl in Hfuel; lia|].
  cbn [parse_elements]. destruct items as [|y items].
  - cbn [map join]. rewrite (Hx Hpx) by (simpl in Hfuel; lia). reflexivity.
  - change (join "," (map stringify (x :: y :: items)))
      with (stringify x ++ "," ++ join "," (map stringify (y :: items))).
    rewrite !sapp_assoc. cbn [append].
    rewrite (Hx Hpx) by (simpl in Hfuel; lia).
    rewrite IH; auto; [discriminate | simpl in *; lia].
Qed.

Lemma parse_members_join fields :
  Forall (fun kv => plain_json (snd kv) = true ->
                    forall fuel rest, jsize (snd kv) <= fuel ->
                      parse_value fuel (stringify (snd kv) ++ rest)
                      = Some (snd kv, rest)) fields ->
  forallb (fun kv => plain (fst kv) && plain_json (snd kv)) fields = true ->
  fields <> [] ->
  forall fuel rest,
    list_sum (map (fun kv => jsize (snd kv)) fields) + List.length fields <= fuel ->
    parse_members fuel
      (join "," (map (fun kv => quote (fst kv) ++ ":" ++ stringify (snd kv)) fields)
       ++ String "}" rest)
    = Some (fields, rest).
Proof.
  induction 1 as [|[k v] fields Hv Hfields IH]; intros Hp Hne fuel rest Hfuel;
    [congruence|].
  cbn [fst snd] in *.
  simpl in Hp. apply andb_true_iff in Hp. destruct Hp as [Hpkv Hpl].
  apply andb_true_iff in Hpkv. destruct Hpkv as [Hpk Hpv].
  destruct fuel as [|f]; [simpl in Hfuel; lia|].
  cbn [parse_members]. destruct fields as [|[k2 v2] fields].
  - cbn [map join fst snd quote append].
    change (Ascii.eqb dquote dquote) with true. cbv iota.
    rewrite !sapp_assoc. cbn [append].
    rewrite parse_quote by exact Hpk.
    rewrite (Hv Hpv) by (simpl in Hfuel; lia). reflexivity.
  - change (join "," (map (fun kv => quote (fst kv) ++ ":" ++ stringify (snd kv))
                          ((k, v) :: (k2, v2) :: fields)))
      with ((quote k ++ ":" ++ stringify v) ++ "," ++
            join "," (map (fun kv => quote (fst kv) ++ ":" ++ stringify (snd kv))
                          ((k2, v2) :: fields))).
    cbn [quote append].
    change (Ascii.eqb dquote dquote) with true. cbv iota.
    rewrite !sapp_assoc. cbn [append].
    rewrite parse_quote by exact Hpk.
    rewrite (Hv Hpv) by (simpl in Hfuel; lia).
    rewrite IH; auto; [discriminate | simpl in *; lia].
Qed.

Lemma parse_array_body f r :
  (forall r', r <> String "]" r') ->
  parse_value (S f) (String "[" r)
  = match parse_elements f r with
    | Some (items, r') => Some (JArr items, r')
    | None => None
    end.
Proof.
  intros H. destruct r as [|c r]; [reflexivity|].
  destruct c as [[] [] [] [] [] [] [] []]; try reflexivity.
  exfalso. now apply (H r).
Qed.

Lemma parse_object_body f r :
  (forall r', r <> String "}" r') ->
  parse_value (S f) (String "{" r)
  = match parse_members f r with
    | Some (fields, r') => Some (JObj fields, r')
    | None => None
    end.
Proof.
  intros H. destruct r as [|c r]; [reflexivity|].
  destruct c as [[] [] [] [] [] [] [] []]; try reflexivity.
  exfalso. now apply (H r).
Qed.

Lemma plain_json_obj fields :
  plain_json (JObj fields)
  = forallb (fun kv => plain (fst kv) && plain_json (snd kv)) fields.
Proof.
  cbn [plain_json]. induction fields as [|[k v] fields IH]; simpl; congruence.
Qed.

Lemma jsize_obj fields :
  jsize (JObj fields)
  = S (list_sum (map (fun kv => jsize (snd kv)) fields) + List.length fields).
Proof.
  cbn [jsize]. do 2 f_equal. f_equal. apply map_ext. now intros [k v].
Qed.

Lemma join_quote_head k t ts rest r' :
  join "," ((quote k ++ t) :: ts) ++ rest <> String "}" r'.
Proof.
  destruct ts; unfold quote; cbn [join append]; intros E;
    injection E as Ec _; vm_compute in Ec; discriminate Ec.
Qed.

(** [JSON.parse] undoes [JSON.stringify] on values without escapes. *)
Lemma parse_value_stringify j :
  plain_json j = true ->
  forall fuel rest, jsize j <= fuel ->
    parse_value fuel (stringify j ++ rest) = Some (j, rest).
Proof.
  induction j as [s | items IH | fields IH] using json_nested_ind;
    intros Hp fuel rest Hfuel.
  - destruct fuel as [|f]; [simpl in Hfuel; lia|]. now apply parse_value_str.
  - destruct fuel as [|f]; [simpl in Hfuel; lia|].
    cbn [jsize] in Hfuel. cbn [plain_json] in Hp.
    rewrite stringify_arr. cbn [append]. rewrite sapp_assoc. cbn [append].
    destruct items as [|x items]; [reflexivity|].
    rewrite parse_array_body.
    + rewrite parse_elements_join; auto; [discriminate | lia].
    + intros r' E.
      destruct (stringify_head x) as (c & t & Hc & Hcases).
      cbn [map] in E. rewrite Hc in E.
      destruct (join_head c t (map stringify items) ",") as [t' Ht'].
      rewrite Ht' in E. cbn [append] in E. injection E as Ec _.
      destruct Hcases as [-> | [-> | ->]]; vm_compute in Ec; discriminate Ec.
  - destruct fuel as [|f]; [simpl in Hfuel; lia|].
    rewrite jsize_obj in Hfuel. rewrite plain_json_obj in Hp.
    rewrite stringify_obj. cbn [append]. rewrite sapp_assoc. cbn [append].
    destruct fields as [|[k v] fields]; [reflexivity|].
    rewrite parse_object_body.
    + rewrite parse_members_join; auto; [discriminate | lia].
    + intros r'.
      apply (join_quote_head k (":" ++ stringify v)
               (map (fun kv => quote (fst kv) ++ ":" ++ stringify (snd kv)) fields)).
Qed.

(** *** The fuel [JSON.parse] runs with is enough *)

Lemma join_length ts :
  ts <> [] ->
  String.length (join "," ts) + 1 = list_sum (map String.length ts) + List.length ts.
Proof.
  induction ts as [|t ts IH]; intros Hne; [congruence|].
  destruct ts as [|t2 ts].
  - simpl. lia.
  - change (join "," (t :: t2 :: ts)) with (t ++ "," ++ join "," (t2 :: ts)).
    rewrite !slength_app.
    assert (H := IH ltac:(discriminate)).
    change (String.length ",") with 1.
    cbn [map List.length] in *. unfold list_sum in *. cbn [fold_right] in *. lia.
Qed.

Lemma list_sum_le {A} (f g : A -> nat) l :
  Forall (fun x => f x <= g x) l -> list_sum (map f l) <= list_sum (map g l).
Proof. induction 1; simpl; lia. Qed.

Lemma jsize_stringify j : jsize j <= String.length (stringify j).
Proof.
  induction j as [s | items IH | fields IH] using json_nested_ind.
  - simpl. lia.
  - rewrite stringify_arr, !slength_app. cbn [jsize].
    change (String.length "[") with 1. change (String.length "]") with 1.
    destruct items as [|x items]; [simpl; lia|].
    assert (H := join_length (map stringify (x :: items)) ltac:(discriminate)).
    rewrite map_map, length_map in H.
    assert (H' := list_sum_le jsize (fun y => String.length (stringify y)) _ IH).
    lia.
  - rewrite stringify_obj, !slength_app, jsize_obj.
    change (String.length "{") with 1. change (String.length "}") with 1.
    destruct fields as [|kv fields]; [simpl; lia|].
    assert (H := join_length
                   (map (fun kv => quote (fst kv) ++ ":" ++ stringify (snd kv))
                        (kv :: fields)) ltac:(discriminate)).
    rewrite map_map, length_map in H.
    assert (H' : list_sum (map (fun kv => jsize (snd kv)) (kv :: fields))
                 <= list_sum (map (fun kv => String.length
                                     (quote (fst kv) ++ ":" ++ stringify (snd kv)))
                                  (kv :: fields))).
    { apply list_sum_le. eapply Forall_impl; [|exact IH].
      intros [k v] Hv. cbn [fst snd] in *. rewrite !slength_app. lia. }
    lia.
Qed.

Lemma JSON_parse_stringify j :
  plain_json j = true -> JSON_parse (stringify j) = Some j.
Proof.
  intros Hp. unfold JSON_parse.
  rewrite <- (sapp_nil_r (stringify j)) at 2.
  rewrite parse_value_stringify; auto.
  assert (H := jsize_stringify j). lia.
Qed.

(** *** Plain values stay plain *)

Lemma replace_operators_plain s : plain s = true -> plain (replace_operators s) = true.
Proof. intros H. now apply replace_from_plain. Qed.

Lemma translate_plain j : plain_json j = true -> plain_json (translate j) = true.
Proof.
  induction j as [s | items IH | fields IH] using json_nested_ind; intros Hp.
  - now apply replace_operators_plain.
  - cbn [translate plain_json] in *.
    rewrite forallb_forall in *. rewrite Forall_forall in IH.
    intros y Hy. apply in_map_iff in Hy. destruct Hy as (x & <- & Hx). auto.
  - rewrite plain_json_obj in Hp.
    change (translate (JObj fields))
      with (JObj (map (fun kv => let '(k, v) := kv in
                                 (replace_operators k, translate v)) fields)).
    rewrite plain_json_obj.
    rewrite forallb_forall in *. rewrite Forall_forall in IH.
    intros y Hy. apply in_map_iff in Hy. destruct Hy as ([k v] & <- & Hx).
    specialize (Hp _ Hx). cbn [fst snd] in *.
    apply andb_true_iff in Hp. destruct Hp as [Hk Hv].
    apply andb_true_iff. split; [now apply replace_operators_plain|].
    now apply (IH (k, v)).
Qed.

Lemma reqQuery_plain query :
  plain_json (JObj query) = true -> plain_json (JObj (reqQuery query)) = true.
Proof.
  rewrite reqQuery_spec, !plain_json_obj, !forallb_forall.
  intros H kv Hkv. apply filter_In in Hkv. now apply H.
Qed.

Lemma queryStr_plain query :
  plain_json (JObj query) = true ->
  queryStr query = stringify (translate (JObj (reqQuery query))).
Proof.
  intros Hp. unfold queryStr, replace_operators.
  rewrite <- (sapp_nil_r (stringify (JObj (reqQuery query)))).
  rewrite (rewrites_to_stringify _ (reqQuery_plain _ Hp)).
  change (replace_from "" "") with "". apply sapp_nil_r.
Qed.

Lemma find_filter_translate query :
  plain_json (JObj query) = true ->
  find_filter query = Some (translate (JObj (reqQuery query))).
Proof.
  intros Hp. unfold find_filter.
  rewrite queryStr_plain by exact Hp.
  apply JSON_parse_stringify, translate_plain, reqQuery_plain, Hp.
Qed.

(** X23. On a query whose keys and values need no escape when serialized
    (no quote, no backslash, no control character), the filter handed to
    [Product.find] is the query without the five reserved parameters, with
    the operator replacement applied to each key and each string on its own:
    serializing, replacing in the text and parsing back never fails there and
    never moves a member.  The keys are taken to stay distinct after the
    replacement, which is when the members read are the object
    [JSON.parse] builds. *)
Theorem find_filter_plain query :
  plain_json (JObj query) = true ->
  distinct_keys (translate (JObj (reqQuery query))) = true ->
  find_filter query = Some (translate (JObj (reqQuery query))).
Proof.
  intros Hp _. now apply find_filter_translate.
Qed.

Lemma find_filter_plain_witness :
  find_filter [("price", JObj [("lte", JStr "1000"); ("gt", JStr "10")]);
               ("brand", JArr [JStr "acme"; JStr "in"]);
               ("page", JStr "2"); ("inStock", JStr "true")]
  = Some (JObj [("price", JObj [("$lte", JStr "1000"); ("$gt", JStr "10")]);
                ("brand", JArr [JStr "acme"; JStr "$in"]);
                ("inStock", JStr "true")]).
Proof.
  exact (find_filter_plain
           [("price", JObj [("lte", JStr "1000"); ("gt", JStr "10")]);
            ("brand", JArr [JStr "acme"; JStr "in"]);
            ("page", JStr "2"); ("inStock", JStr "true")]
           eq_refl eq_refl).
Defined.

(** X24. A listing request without escapes, whose [select] and [sort] are
    strings or absent and whose page and limit are read as positive whole
    numbers, never fails before it reaches the store: when the store runs
    the translated filter, the answer is 200, the store is as it was, and
    the documents are the asked page of the matches of that filter, counted
    by [count] and at most [limit]; when the store refuses the filter, what
    it throws is passed on. *)
Theorem getProducts_plain_ok (sem : StoreSem) (query : QueryParams) (s : Store)
    (p l : Z) :
  plain_json (JObj query) = true ->
  distinct_keys (translate (JObj (reqQuery query))) = true ->
  splittable (lookup "select" query) ->
  splittable (lookup "sort" query) ->
  reads_window query p l ->
  (Z.of_nat (List.length
               (matching sem (conditions_of (translate (JObj (reqQuery query))) query) s))
   < 2 ^ 53)%Z ->
  (accepted sem query (translate (JObj (reqQuery query))) ->
   exists listing,
     handle (getProducts sem query) s = (Sent (ok 200 listing), s) /\
     items listing
     = page_slice sem query (translate (JObj (reqQuery query))) s p l /\
     count listing = List.length (items listing) /\
     (List.length (items listing) <= Z.to_nat l)%nat) /\
  (forall e,
     refuses sem (conditions_of (translate (JObj (reqQuery query))) query) = Some e ->
     handle (getProducts sem query) s = (Next e, s)).
Proof.
  intros Hp _ Hselect Hsort Hwin Htotal. split.
  - intros Hacc.
    rewrite (getProducts_run sem query (translate (JObj (reqQuery query))) s p l)
      by auto using find_filter_translate.
    eexists. split; [reflexivity|]. cbn [items count].
    split; [reflexivity|]. split; [reflexivity|].
    unfold page_slice. rewrite length_map. apply firstn_le_length.
  - intros e He.
    apply (getProducts_refused sem query (translate (JObj (reqQuery query))) s e);
      auto using find_filter_translate.
Qed.

Lemma getProducts_plain_ok_witness :
  (exists listing,
     handle (getProducts sample_sem
               [("price", JObj [("lt", JStr "1000")]); ("page", JStr "2");
                ("limit", JStr "5")]) (shop 12)
     = (Sent (ok 200 listing), shop 12) /\
     map Product._id (items listing) = ["5"; "6"; "7"; "8"; "9"] /\
     count listing = 5) /\
  handle (getProducts sample_sem [("price", JObj [("lt", JStr "cheap")])]) (shop 12)
  = (Next (CastError "price" "cheap"), shop 12).
Proof.
  split.
  - destruct (proj1 (getProducts_plain_ok sample_sem
                       [("price", JObj [("lt", JStr "1000")]); ("page", JStr "2");
                        ("limit", JStr "5")] (shop 12) 2%Z 5%Z
                       eq_refl eq_refl (or_introl eq_refl) (or_introl eq_refl)
                       ltac:(repeat split; try reflexivity; lia)
                       ltac:(vm_compute; reflexivity)))
      as (listing & H1 & H2 & H3 & _).
    + split; reflexivity.
    + exists listing. split; [exact H1|]. split.
      * rewrite H2. reflexivity.
      * rewrite H3, H2. reflexivity.
  - apply (proj2 (getProducts_plain_ok sample_sem
                    [("price", JObj [("lt", JStr "cheap")])] (shop 12) 1%Z 10%Z
                    eq_refl eq_refl (or_introl eq_refl) (or_introl eq_refl)
                    ltac:(repeat split; try reflexivity; lia)
                    ltac:(vm_compute; reflexivity))).
    reflexivity.
Defined.
